(** * Mobiles_Dataset: the CSV importer and the catalog store, verified

    A shallow embedding of [scripts/import_data.py] (class
    [MobileDataImporter]) and of [database.py] (class [Database]), and the
    properties of the price parser, of the name caches, of the transaction
    discipline and of the price upsert.

    Layout:
    - [Py]: the Python values, exceptions and builtins the code relies on;
    - [Price]: [MobileDataImporter.parse_price];
    - [Store]: the PostgreSQL connection the code talks to (tables,
      sequences, the statements the code issues, commit and rollback);
    - [Catalog]: [Database.get_cursor] and the operations built on it;
    - [Importer]: the caches and [MobileDataImporter.import_data];
    - [Lookup]: [Database.get_model_by_id] and [ModelDialog.get_data] of
      [main_window.py].

    The facts follow the definitions, one module for each of these. *)

From Stdlib Require Import ZArith NArith List Bool Lia.
From Stdlib Require Import Floats.SpecFloat.
From Stdlib Require Import Strings.String Strings.Ascii.
From Stdlib Require Import Numbers.DecimalString.
From stdpp Require Import base option list gmap.

Import ListNotations.
Local Open Scope Z_scope.

(** ** Python values, exceptions and builtins *)

Module Py.

(** A Python [str] is a sequence of Unicode code points. *)
Definition codepoint := N.
Definition pystr := list N.

(** An ASCII literal as a [pystr]. *)
Fixpoint of_ascii (s : string) : pystr :=
  match s with
  | EmptyString => []
  | String c r => N_of_ascii c :: of_ascii r
  end.

(** Python's [float] is IEEE 754 binary64. *)
Definition float := spec_float.
Definition prec : Z := 53.
Definition emax : Z := 1024.

(** The values a cell of a pandas row (or an argument) can hold: [None], a
    float (a missing cell is the float NaN), an integer or a string. *)
Inductive pyval :=
| PyNone
| PyFloat (f : float)
| PyInt (z : Z)
| PyStr (s : pystr).

Inductive db_error :=
| UniqueViolation
| ForeignKeyViolation
| NotNullViolation
| UndefinedFunction.

Inductive exn :=
| ValueError
| KeyError
| TypeError
| OverflowError
| DatabaseError (e : db_error).

Inductive result (A : Type) :=
| Ok (a : A)
| Raise (e : exn).
Arguments Ok {A} a.
Arguments Raise {A} e.

(** The diagnostics the code emits through [logger]. *)
Inductive log_entry :=
| InfoImportStarted
| InfoRowsLoaded (n : nat)
| WarnPriceUnparsed (price_str : pystr)
| InfoCompanyAdded (name : pystr)
| InfoProcessorAdded (name : pystr)
| InfoRegionsLoaded (n : nat)
| InfoRowsProcessed (n : Z)
| ErrorRow (idx : Z) (e : exn)
| ErrorQuery (e : exn)
| InfoImportDone (models prices : Z) (companies processors : nat).

(** [pd.isna(v)] on a scalar. *)
Definition isna (v : pyval) : bool :=
  match v with
  | PyNone => true
  | PyFloat S754_nan => true
  | _ => false
  end.

Definition notna (v : pyval) : bool := negb (isna v).

(** [v == ''] *)
Definition eq_empty_str (v : pyval) : bool :=
  match v with
  | PyStr [] => true
  | _ => false
  end.

(** The truth value of [v] in a condition. *)
Definition truthy (v : pyval) : bool :=
  match v with
  | PyNone => false
  | PyFloat (S754_zero _) => false
  | PyFloat _ => true
  | PyInt z => negb (z =? 0)
  | PyStr s => match s with [] => false | _ => true end
  end.

(** [float.__int__], used by [int(x)] on a float: truncation towards zero;
    an infinity raises [OverflowError] and a NaN raises [ValueError]. *)
Definition int_of_float (f : float) : result Z :=
  match f with
  | S754_zero _ => Ok 0
  | S754_infinity _ => Raise OverflowError
  | S754_nan => Raise ValueError
  | S754_finite s m e =>
      let a := match e with
               | Zneg p => Z.shiftr (Zpos m) (Zpos p)
               | _ => Z.shiftl (Zpos m) e
               end in
      Ok (if s then - a else a)
  end.

(** [sys.int_max_str_digits], at the default of CPython: the longest
    integer, in decimal digits, that the interpreter converts to a string. *)
Definition int_max_str_digits : nat := 4300.

(** The decimal digits of [z], its sign apart. *)
Definition int_digits (z : Z) : nat :=
  match Z.to_int z with
  | Decimal.Pos d | Decimal.Neg d => Decimal.nb_digits d
  end.

(** An integer that has more digits than the interpreter converts. *)
Definition int_too_long (z : Z) : bool :=
  (int_max_str_digits <? int_digits z)%nat.

(** [str(z)] for an integer: a minus sign when negative, then the decimal
    digits; an integer of more than [int_max_str_digits] digits raises
    [ValueError]. *)
Definition str_of_int (z : Z) : result pystr :=
  if int_too_long z then Raise ValueError
  else Ok (of_ascii (NilZero.string_of_int (Z.to_int z))).

Section Builtins.

(** The digit value of the code points outside ASCII that have the Unicode
    property "decimal digit" (category Nd); which code points these are
    depends on the Unicode version of the interpreter.  Both the regular
    expression class [\d] and [float()] go through this property. *)
Variable nonascii_decimal : codepoint -> option N.

(** [repr] of a float, which is what [str(x)] gives for a float [x]. *)
Variable float_repr : float -> pystr.

(** [int(s)] for a string [s]: [None] stands for [ValueError]. *)
Variable int_of_str : pystr -> option Z.

(** The decimal digit a code point stands for, if any.  Within ASCII these
    are ['0'..'9']. *)
Definition decimal_value (c : codepoint) : option N :=
  if (c <? 128)%N
  then if ((48 <=? c) && (c <=? 57))%N then Some (c - 48)%N else None
  else nonascii_decimal c.

(** [str(v)] *)
Definition str (v : pyval) : result pystr :=
  match v with
  | PyNone => Ok (of_ascii "None")
  | PyFloat f => Ok (float_repr f)
  | PyInt z => str_of_int z
  | PyStr s => Ok s
  end.

(** [int(v)] *)
Definition int (v : pyval) : result Z :=
  match v with
  | PyNone => Raise TypeError
  | PyFloat f => int_of_float f
  | PyInt z => Ok z
  | PyStr s => match int_of_str s with
               | Some z => Ok z
               | None => Raise ValueError
               end
  end.

End Builtins.

End Py.

(** ** The price parser: [MobileDataImporter.parse_price] *)

Module Price.
Import Py.

(** What is left of a string once [re.sub(r'[^\d.]', '', s)] has removed
    every character that is neither a decimal digit nor a dot: a sequence
    of digits (with their values) and dots. *)
Inductive tok :=
| TDigit (d : N)
| TDot.

(** A float that is a number, not an infinity and not NaN. *)
Definition finite (f : float) : bool :=
  match f with
  | S754_zero _ | S754_finite _ _ _ => true
  | S754_infinity _ | S754_nan => false
  end.

(** A float that is not NaN and whose sign bit is clear: [+0.0], a positive
    number or [+inf]. *)
Definition nonneg (f : float) : bool :=
  match f with
  | S754_zero sg | S754_finite sg _ _ | S754_infinity sg => negb sg
  | S754_nan => false
  end.

(** [exactly f n k]: the float [f] is a number and its value is exactly
    [n / 10^k]. *)
Definition exactly (f : float) (n : N) (k : nat) : Prop :=
  match f with
  | S754_zero _ => n = 0%N
  | S754_finite sg m e =>
      sg = false /\
      match e with
      | Zneg p => Zpos m * 10 ^ Z.of_nat k = Z.of_N n * 2 ^ Zpos p
      | _ => Zpos m * 2 ^ e * 10 ^ Z.of_nat k = Z.of_N n
      end
  | S754_infinity _ | S754_nan => False
  end.

(** What the specification promises of a parsed price: no value, or a
    finite non-negative amount. *)
Definition finite_nonneg_or_none (r : result (option float)) : Prop :=
  match r with
  | Ok None => True
  | Ok (Some f) => finite f = true /\ nonneg f = true
  | Raise _ => False
  end.

(** The same without finiteness: no value, or a non-negative amount that
    may be [+inf]. *)
Definition nonneg_or_none (r : result (option float)) : Prop :=
  match r with
  | Ok None => True
  | Ok (Some f) => nonneg f = true
  | Raise _ => False
  end.

Section Parser.

Variable nonascii_decimal : codepoint -> option N.
Variable float_repr : float -> pystr.

Abbreviation decimal_value := (decimal_value nonascii_decimal).
Abbreviation str := (str float_repr).

(** The character class [[\d.]]: what the substitution keeps. *)
Definition keep (c : codepoint) : option tok :=
  if (c =? 46)%N then Some TDot
  else match decimal_value c with
       | Some d => Some (TDigit d)
       | None => None
       end.

(** [re.sub(r'[^\d.]', '', s)] *)
Fixpoint re_sub_nondigit (s : pystr) : list tok :=
  match s with
  | [] => []
  | c :: r => match keep c with
              | Some t => t :: re_sub_nondigit r
              | None => re_sub_nondigit r
              end
  end.

(** The leading digits of a cleaned string, and the rest. *)
Fixpoint leading_digits (ts : list tok) : list N * list tok :=
  match ts with
  | TDigit d :: r => let '(ds, rest) := leading_digits r in (d :: ds, rest)
  | _ => ([], ts)
  end.

(** The decimal numeral grammar of [float()] on a string of digits and
    dots: digits, optionally a dot and more digits, with at least one digit
    in all.  The result is the integer part and the fractional part. *)
Definition numeral (ts : list tok) : option (list N * list N) :=
  let '(ip, rest) := leading_digits ts in
  match rest with
  | [] => match ip with [] => None | _ => Some (ip, []) end
  | TDot :: rest' =>
      let '(fp, rest'') := leading_digits rest' in
      match rest'' with
      | [] => match ip, fp with [], [] => None | _, _ => Some (ip, fp) end
      | _ => None
      end
  | TDigit _ :: _ => None
  end.

(** The natural number written by a sequence of decimal digits. *)
Definition digits_value (ds : list N) : N :=
  fold_left (fun acc d => (10 * acc + d)%N) ds 0%N.

(** The binary64 number nearest to [n / 10^k] (ties to even; an infinity
    when the rounded value is beyond the largest double): the correctly
    rounded conversion [float()] performs. *)
Definition float_of_decimal (n : N) (k : nat) : float :=
  match n with
  | N0 => S754_zero false
  | Npos p =>
      SFdiv prec emax (S754_finite false p 0)
            (S754_finite false (Z.to_pos (10 ^ Z.of_nat k)) 0)
  end.

(** [float(s)] for a string [s] of digits and dots. *)
Definition float_of_clean (ts : list tok) : result float :=
  match numeral ts with
  | Some (ip, fp) =>
      Ok (float_of_decimal (digits_value (ip ++ fp)) (length fp))
  | None => Raise ValueError
  end.

(** A character the substitution removes. *)
Definition noise (c : codepoint) : Prop := keep c = None.

(** A character that is no decimal digit (it may be a dot). *)
Definition no_digit (c : codepoint) : Prop := decimal_value c = None.

(** The dots of a cleaned string. *)
Fixpoint dots (ts : list tok) : nat :=
  match ts with
  | [] => O
  | TDot :: r => S (dots r)
  | TDigit _ :: r => dots r
  end.

(** [parse_price]: the result and the diagnostics emitted.  [str()] is
    called before the [try] block: what it raises leaves the method. *)
Definition parse_price (price_str : pyval) : list log_entry * result (option float) :=
  if isna price_str || eq_empty_str price_str then ([], Ok None)
  else
    match str price_str with
    | Raise e => ([], Raise e)
    | Ok price_str =>
        let price_clean := re_sub_nondigit price_str in
        match
          (match price_clean with
           | [] => Ok None
           | _ => match float_of_clean price_clean with
                  | Ok f => Ok (Some f)
                  | Raise e => Raise e
                  end
           end)
        with
        | Raise ValueError => ([WarnPriceUnparsed price_str], Ok None)
        | r => ([], r)
        end
    end.

End Parser.

End Price.

(** ** State and exceptions

    A computation reads and writes a state and either returns a value or
    raises; what it did to the state before raising stays done. *)

Module Eff.
Import Py.

Definition M (S A : Type) : Type := S -> result A * S.

Definition ret {S A} (a : A) : M S A := fun s => (Ok a, s).

Definition bind {S A B} (c : M S A) (k : A -> M S B) : M S B :=
  fun s => match c s with
           | (Ok a, s') => k a s'
           | (Raise e, s') => (Raise e, s')
           end.

Definition raise {S A} (e : exn) : M S A := fun s => (Raise e, s).

Definition gets {S A} (f : S -> A) : M S A := fun s => (Ok (f s), s).

Definition modify {S} (f : S -> S) : M S unit := fun s => (Ok tt, f s).

(** A pure computation that may raise. *)
Definition lift {S A} (r : result A) : M S A := fun s => (r, s).

(** [try: body except Exception as e: handler(e)] *)
Definition try_except {S A} (body : M S A) (handler : exn -> M S A) : M S A :=
  fun s => match body s with
           | (Raise e, s') => handler e s'
           | r => r
           end.

(** A computation on a component of the state. *)
Definition zoom {S T A} (get : S -> T) (set : T -> S -> S) (c : M T A) : M S A :=
  fun s => let '(r, t) := c (get s) in (r, set t s).

(** [for x in xs: body(x)] *)
Fixpoint for_each {S A} (xs : list A) (body : A -> M S unit) : M S unit :=
  match xs with
  | [] => ret tt
  | x :: r => bind (body x) (fun _ => for_each r body)
  end.

(** [preserves R c]: whatever [c] returns or raises, the state it leaves is
    related by [R] to the state it started from. *)
Definition preserves {S A} (R : S -> S -> Prop) (c : M S A) : Prop :=
  forall s, R s (snd (c s)).

End Eff.

Declare Scope eff_scope.
Delimit Scope eff_scope with eff.
Notation "'do' x <- c ; k" := (Eff.bind c (fun x => k))
  (at level 10, x name, c at level 100, k at level 200,
   format "'[v' 'do'  x  <-  c ; '/' k ']'") : eff_scope.

(** ** The store: one PostgreSQL connection *)

Module Store.
Import Py Eff.

Record company := { company_id : Z; company_name : pystr }.
Record processor := { processor_id : Z; processor_name : pystr }.
Record region := { region_id : Z; region_name : pystr }.

(** The specification columns of [models]. *)
Record specs := {
  mobile_weight : option pyval;
  ram : option pyval;
  front_camera : option pyval;
  back_camera : option pyval;
  battery_capacity : option pyval;
  screen_size : option pyval;
  launched_year : option Z
}.

Record model := {
  model_id : Z;
  model_name : pystr;
  model_company_id : Z;
  model_processor_id : option Z;
  model_specs : specs
}.

(** The parameter tuple of the INSERT and UPDATE on [models]. *)
Record model_params := {
  p_model_name : pyval;
  p_company_id : option Z;
  p_processor_id : option Z;
  p_specs : specs
}.

Record price := {
  price_id : Z;
  price_model_id : Z;
  price_region_id : Z;
  price_amount : float
}.

Record tables := {
  companies : list company;
  processors : list processor;
  regions : list region;
  models : list model;
  prices : list price
}.

(** The sequences the identity columns draw from.  PostgreSQL does not
    undo [nextval] on rollback. *)
Record sequences := {
  company_seq : Z;
  processor_seq : Z;
  model_seq : Z;
  price_seq : Z
}.

(** The statements the code issues, with their parameters. *)
Inductive statement :=
| SelectCompanyId (name : pyval)
| InsertCompany (name : pyval)
| UpdateCompany (id : Z) (name : pyval)
| DeleteCompany (id : Z)
| SelectProcessorId (name : pyval)
| InsertProcessor (name : pyval)
| SelectRegions
| SelectModelId (name : pyval) (company : Z)
| InsertModel (p : model_params)
| UpdateModel (id : Z) (p : model_params)
| DeleteModel (id : Z)
| SelectPriceId (model region : Z)
| InsertPrice (model region : Z) (amount : float)
| UpsertPrice (model region : Z) (amount : float)
| DeletePrice (id : Z).

(** A connection: the committed tables, the tables as the open transaction
    sees them, the sequences, and the statements executed so far. *)
Record connection := {
  durable : tables;
  pending : tables;
  seqs : sequences;
  executed : list statement
}.

Definition connect (t : tables) (sq : sequences) : connection :=
  {| durable := t; pending := t; seqs := sq; executed := [] |}.

(** [conn.commit()] and [conn.rollback()] *)
Definition commit (c : connection) : connection :=
  {| durable := pending c; pending := pending c;
     seqs := seqs c; executed := executed c |}.

Definition rollback (c : connection) : connection :=
  {| durable := durable c; pending := durable c;
     seqs := seqs c; executed := executed c |}.

(** [cursor.execute(stmt)]: the statement sees and changes the pending
    tables; a statement that fails changes no table (its sequence draw
    stays). *)
Definition execute {A} (s : statement)
    (sem : tables -> sequences -> result (A * tables) * sequences)
  : M connection A :=
  fun c =>
    let '(r, sq) := sem (pending c) (seqs c) in
    match r with
    | Ok (a, t) =>
        (Ok a, {| durable := durable c; pending := t;
                  seqs := sq; executed := executed c ++ [s] |})
    | Raise e =>
        (Raise e, {| durable := durable c; pending := pending c;
                     seqs := sq; executed := executed c ++ [s] |})
    end.

(** A string that contains the code point U+0000. *)
Definition has_nul (s : pystr) : bool := existsb (N.eqb 0) s.
Arguments has_nul : simpl never.

(** psycopg2 adapts every parameter to SQL before the statement is sent; a
    string that contains U+0000 cannot be adapted and raises
    [ValueError]. *)
Definition adapt (v : pyval) : result unit :=
  match v with
  | PyStr s => if has_nul s then Raise ValueError else Ok tt
  | _ => Ok tt
  end.

(** The parameters of a statement, adapted in turn; [None] is NULL. *)
Fixpoint adapt_all (vs : list (option pyval)) : result unit :=
  match vs with
  | [] => Ok tt
  | None :: r => adapt_all r
  | Some v :: r => match adapt v with
                   | Raise e => Raise e
                   | Ok _ => adapt_all r
                   end
  end.

(** A Python parameter bound where a text column is expected: a string
    that can be adapted is text, [None] is NULL, and a number makes the
    statement fail: there is no operator to compare a text column with a
    number.  (A number only ever reaches a SELECT: the INSERTs and UPDATEs of
    a name either follow a SELECT on the same parameter or are given a
    string.) *)
Definition text_param (v : pyval) : result (option pystr) :=
  match v with
  | PyStr s => if has_nul s then Raise ValueError else Ok (Some s)
  | PyNone => Ok None
  | _ => Raise (DatabaseError UndefinedFunction)
  end.

Definition set_companies (l : list company) (t : tables) : tables :=
  {| companies := l; processors := processors t; regions := regions t;
     models := models t; prices := prices t |}.
Definition set_processors (l : list processor) (t : tables) : tables :=
  {| companies := companies t; processors := l; regions := regions t;
     models := models t; prices := prices t |}.
Definition set_models (l : list model) (t : tables) : tables :=
  {| companies := companies t; processors := processors t; regions := regions t;
     models := l; prices := prices t |}.
Definition set_prices (l : list price) (t : tables) : tables :=
  {| companies := companies t; processors := processors t; regions := regions t;
     models := models t; prices := l |}.

Definition has_company (id : Z) (t : tables) : bool :=
  existsb (fun c => company_id c =? id) (companies t).
Definition has_processor (id : Z) (t : tables) : bool :=
  existsb (fun p => processor_id p =? id) (processors t).
Definition has_region (id : Z) (t : tables) : bool :=
  existsb (fun r => region_id r =? id) (regions t).
Definition has_model (id : Z) (t : tables) : bool :=
  existsb (fun m => model_id m =? id) (models t).

(** The rows of [prices] for one (model, region) pair. *)
Definition same_pair (m r : Z) (p : price) : bool :=
  (price_model_id p =? m) && (price_region_id p =? r).
Definition prices_for (m r : Z) (t : tables) : list price :=
  filter (fun p => same_pair m r p = true) (prices t).

(** *** The schema

    The file that creates the tables is not part of the sources.  The
    constraints below are those of the persisted schema in section 6 of the
    specification; the identities are primary keys that the store assigns
    (every INSERT of the code reads them back with RETURNING). *)

(** Modelled from the spec: the schema, [companies(id, name unique)].  A
    company already has this name. *)
Definition company_name_taken (name : pystr) (t : tables) : bool :=
  existsb (fun c => bool_decide (company_name c = name)) (companies t).

(** Modelled from the spec: the schema, [companies(id, name unique)].  A
    company other than [id] already has this name. *)
Definition company_name_taken_by_other (id : Z) (name : pystr) (t : tables) : bool :=
  existsb (fun c => negb (company_id c =? id) && bool_decide (company_name c = name))
    (companies t).

(** Modelled from the spec: the schema, [processors(id, name unique)].  A
    processor already has this name. *)
Definition processor_name_taken (name : pystr) (t : tables) : bool :=
  existsb (fun p => bool_decide (processor_name p = name)) (processors t).

(** Modelled from the spec: the schema, [prices(..., unique(model_id,
    region_id))].  The pair already has a price. *)
Definition pair_taken (m r : Z) (t : tables) : bool :=
  existsb (same_pair m r) (prices t).

(** Modelled from the spec: the schema, "company deletion cascades to
    models; model deletion cascades to prices".  The tables without a
    company, its models and their prices. *)
Definition without_company (id : Z) (t : tables) : tables :=
  let gone := filter (fun m => model_company_id m = id) (models t) in
  let is_gone (mid : Z) := existsb (fun m => model_id m =? mid) gone in
  {| companies := filter (fun c => company_id c <> id) (companies t);
     processors := processors t;
     regions := regions t;
     models := filter (fun m => model_company_id m <> id) (models t);
     prices := filter (fun p => is_gone (price_model_id p) = false) (prices t) |}.

(** Modelled from the spec: the schema, "model deletion cascades to
    prices".  The tables without a model and its prices. *)
Definition without_model (id : Z) (t : tables) : tables :=
  {| companies := companies t;
     processors := processors t;
     regions := regions t;
     models := filter (fun m => model_id m <> id) (models t);
     prices := filter (fun p => price_model_id p <> id) (prices t) |}.

(** *** The statements

    A SELECT without ORDER BY returns rows in table order. *)

Definition next (n : Z) : Z := n + 1.

Definition draw_company (sq : sequences) : Z * sequences :=
  (next (company_seq sq),
   {| company_seq := next (company_seq sq); processor_seq := processor_seq sq;
      model_seq := model_seq sq; price_seq := price_seq sq |}).
Definition draw_processor (sq : sequences) : Z * sequences :=
  (next (processor_seq sq),
   {| company_seq := company_seq sq; processor_seq := next (processor_seq sq);
      model_seq := model_seq sq; price_seq := price_seq sq |}).
Definition draw_model (sq : sequences) : Z * sequences :=
  (next (model_seq sq),
   {| company_seq := company_seq sq; processor_seq := processor_seq sq;
      model_seq := next (model_seq sq); price_seq := price_seq sq |}).
Definition draw_price (sq : sequences) : Z * sequences :=
  (next (price_seq sq),
   {| company_seq := company_seq sq; processor_seq := processor_seq sq;
      model_seq := model_seq sq; price_seq := next (price_seq sq) |}).

Definition db_raise {A} (e : db_error) : result A := Raise (DatabaseError e).

(** [SELECT company_id FROM companies WHERE company_name = %s], then
    [fetchone()]. *)
Definition select_company_id (name : pyval) : M connection (option Z) :=
  execute (SelectCompanyId name) (fun t sq =>
    (match text_param name with
     | Raise e => Raise e
     | Ok None => Ok (None, t)
     | Ok (Some s) =>
         Ok (option_map company_id
               (List.find (fun c => bool_decide (company_name c = s)) (companies t)),
             t)
     end, sq)).

(** [INSERT INTO companies (company_name) VALUES (%s) RETURNING company_id] *)
Definition insert_company (name : pyval) : M connection Z :=
  execute (InsertCompany name) (fun t sq =>
    match text_param name with
    | Raise e => (Raise e, sq)
    | Ok n =>
        let '(id, sq') := draw_company sq in
        (match n with
         | None => db_raise NotNullViolation
         | Some s =>
             if has_company id t || company_name_taken s t
             then db_raise UniqueViolation
             else Ok (id, set_companies
                            (companies t ++ [{| company_id := id; company_name := s |}]) t)
         end, sq')
    end).

(** [UPDATE companies SET company_name = %s WHERE company_id = %s] *)
Definition update_company (id : Z) (name : pyval) : M connection unit :=
  execute (UpdateCompany id name) (fun t sq =>
    (match text_param name with
     | Raise e => Raise e
     | Ok n =>
         if has_company id t then
           match n with
           | None => db_raise NotNullViolation
           | Some s =>
               if company_name_taken_by_other id s t
               then db_raise UniqueViolation
               else Ok (tt, set_companies
                              (map (fun c => if company_id c =? id
                                             then {| company_id := id; company_name := s |}
                                             else c) (companies t)) t)
           end
         else Ok (tt, t)
     end, sq)).

(** [DELETE FROM companies WHERE company_id = %s], cascading. *)
Definition delete_company (id : Z) : M connection unit :=
  execute (DeleteCompany id) (fun t sq => (Ok (tt, without_company id t), sq)).

(** [SELECT processor_id FROM processors WHERE processor_name = %s], then
    [fetchone()]. *)
Definition select_processor_id (name : pyval) : M connection (option Z) :=
  execute (SelectProcessorId name) (fun t sq =>
    (match text_param name with
     | Raise e => Raise e
     | Ok None => Ok (None, t)
     | Ok (Some s) =>
         Ok (option_map processor_id
               (List.find (fun p => bool_decide (processor_name p = s)) (processors t)),
             t)
     end, sq)).

(** [INSERT INTO processors (processor_name) VALUES (%s) RETURNING
    processor_id] *)
Definition insert_processor (name : pyval) : M connection Z :=
  execute (InsertProcessor name) (fun t sq =>
    match text_param name with
    | Raise e => (Raise e, sq)
    | Ok n =>
        let '(id, sq') := draw_processor sq in
        (match n with
         | None => db_raise NotNullViolation
         | Some s =>
             if has_processor id t || processor_name_taken s t
             then db_raise UniqueViolation
             else Ok (id, set_processors
                            (processors t
                             ++ [{| processor_id := id; processor_name := s |}]) t)
         end, sq')
    end).

(** [SELECT region_id, region_name FROM regions], then [fetchall()]. *)
Definition select_regions : M connection (list (Z * pystr)) :=
  execute SelectRegions (fun t sq =>
    (Ok (map (fun r => (region_id r, region_name r)) (regions t), t), sq)).

(** [SELECT model_id FROM models WHERE model_name = %s AND company_id = %s],
    then [fetchone()]. *)
Definition select_model_id (name : pyval) (company : Z) : M connection (option Z) :=
  execute (SelectModelId name company) (fun t sq =>
    (match text_param name with
     | Raise e => Raise e
     | Ok None => Ok (None, t)
     | Ok (Some s) =>
         Ok (option_map model_id
               (List.find (fun m => bool_decide (model_name m = s)
                                    && (model_company_id m =? company)) (models t)),
             t)
     end, sq)).

(** Modelled from the spec: the schema, [models(id, name, company_id fk,
    processor_id fk nullable, ...)] with a required name and company.  The
    row an INSERT or UPDATE on [models] writes, once these constraints
    hold. *)
Definition checked_model (id : Z) (p : model_params) (t : tables) : result model :=
  match text_param (p_model_name p) with
  | Raise e => Raise e
  | Ok None => db_raise NotNullViolation
  | Ok (Some name) =>
      match p_company_id p with
      | None => db_raise NotNullViolation
      | Some cid =>
          if negb (has_company cid t) then db_raise ForeignKeyViolation
          else if match p_processor_id p with
                  | Some pid => negb (has_processor pid t)
                  | None => false
                  end
          then db_raise ForeignKeyViolation
          else Ok {| model_id := id; model_name := name; model_company_id := cid;
                     model_processor_id := p_processor_id p;
                     model_specs := p_specs p |}
      end
  end.

(** The parameters of the INSERT and of the UPDATE on [models] that are
    Python values (the identities and the year are integers), adapted. *)
Definition adapt_model_params (p : model_params) : result unit :=
  adapt_all [ Some (p_model_name p);
              mobile_weight (p_specs p); ram (p_specs p);
              front_camera (p_specs p); back_camera (p_specs p);
              battery_capacity (p_specs p); screen_size (p_specs p) ].

(** The name parameter of the INSERT and of the UPDATE on [models], once
    all the parameters have been adapted. *)
Definition model_name_param (p : model_params) : result (option pystr) :=
  match adapt_model_params p with
  | Raise e => Raise e
  | Ok _ => text_param (p_model_name p)
  end.

(** [INSERT INTO models (...) VALUES (...) RETURNING model_id] *)
Definition insert_model (p : model_params) : M connection Z :=
  execute (InsertModel p) (fun t sq =>
    match model_name_param p with
    | Raise e => (Raise e, sq)
    | Ok _ =>
        let '(id, sq') := draw_model sq in
        (match checked_model id p t with
         | Raise e => Raise e
         | Ok row =>
             if has_model id t then db_raise UniqueViolation
             else Ok (id, set_models (models t ++ [row]) t)
         end, sq')
    end).

(** [UPDATE models SET ... WHERE model_id = %s] *)
Definition update_model_row (id : Z) (p : model_params) : M connection unit :=
  execute (UpdateModel id p) (fun t sq =>
    (match model_name_param p with
     | Raise e => Raise e
     | Ok _ =>
         if has_model id t then
           match checked_model id p t with
           | Raise e => Raise e
           | Ok row =>
               Ok (tt, set_models
                         (map (fun m => if model_id m =? id then row else m)
                              (models t)) t)
           end
         else Ok (tt, t)
     end, sq)).

(** [DELETE FROM models WHERE model_id = %s], cascading. *)
Definition delete_model_row (id : Z) : M connection unit :=
  execute (DeleteModel id) (fun t sq => (Ok (tt, without_model id t), sq)).

(** [SELECT price_id FROM prices WHERE model_id = %s AND region_id = %s],
    then [fetchone()]. *)
Definition select_price_id (m r : Z) : M connection (option Z) :=
  execute (SelectPriceId m r) (fun t sq =>
    (Ok (option_map price_id (List.find (same_pair m r) (prices t)), t), sq)).

(** Modelled from the spec: the schema, [prices(id, model_id fk, region_id
    fk, amount, ...)].  The row an INSERT on [prices] appends, once these
    constraints hold. *)
Definition checked_price (id m r : Z) (amount : float) (t : tables) : result price :=
  if negb (has_model m t) || negb (has_region r t)
  then db_raise ForeignKeyViolation
  else if existsb (fun p => price_id p =? id) (prices t)
  then db_raise UniqueViolation
  else Ok {| price_id := id; price_model_id := m;
             price_region_id := r; price_amount := amount |}.

(** [INSERT INTO prices (model_id, region_id, price) VALUES (%s, %s, %s)] *)
Definition insert_price (m r : Z) (amount : float) : M connection unit :=
  execute (InsertPrice m r amount) (fun t sq =>
    let '(id, sq') := draw_price sq in
    (if pair_taken m r t then db_raise UniqueViolation
     else match checked_price id m r amount t with
          | Raise e => Raise e
          | Ok row => Ok (tt, set_prices (prices t ++ [row]) t)
          end, sq')).

Definition set_amount (amount : float) (p : price) : price :=
  {| price_id := price_id p; price_model_id := price_model_id p;
     price_region_id := price_region_id p; price_amount := amount |}.

(** [INSERT INTO prices (model_id, region_id, price) VALUES (%s, %s, %s)
     ON CONFLICT (model_id, region_id) DO UPDATE SET price = EXCLUDED.price] *)
Definition upsert_price (m r : Z) (amount : float) : M connection unit :=
  execute (UpsertPrice m r amount) (fun t sq =>
    let '(id, sq') := draw_price sq in
    (if pair_taken m r t
     then Ok (tt, set_prices
                    (map (fun p => if same_pair m r p then set_amount amount p else p)
                         (prices t)) t)
     else match checked_price id m r amount t with
          | Raise e => Raise e
          | Ok row => Ok (tt, set_prices (prices t ++ [row]) t)
          end, sq')).

(** [DELETE FROM prices WHERE price_id = %s] *)
Definition delete_price_row (id : Z) : M connection unit :=
  execute (DeletePrice id) (fun t sq =>
    (Ok (tt, set_prices (filter (fun p => price_id p <> id) (prices t)) t), sq)).

(** *** Properties of a connection and of the tables *)

(** No transaction is open: nothing is pending. *)
Definition clean (c : connection) : Prop := pending c = durable c.

(** The uniqueness constraint on (model, region). *)
Definition pairs_unique (t : tables) : Prop :=
  forall m r, (length (prices_for m r t) <= 1)%nat.

(** [t'] is [t] with rows appended: every row of [t] is still there, in
    place and unchanged. *)
Record extends (t t' : tables) : Prop := {
  ext_companies : companies t `prefix_of` companies t';
  ext_processors : processors t `prefix_of` processors t';
  ext_regions : regions t' = regions t;
  ext_models : models t `prefix_of` models t';
  ext_prices : prices t `prefix_of` prices t'
}.

(** [t'] is [t] with company or processor rows appended, and nothing else
    changed. *)
Record adds_reference (t t' : tables) : Prop := {
  ar_companies : companies t `prefix_of` companies t';
  ar_processors : processors t `prefix_of` processors t';
  ar_regions : regions t' = regions t;
  ar_models : models t' = models t;
  ar_prices : prices t' = prices t
}.

(** The rows of [models] with a given name and company. *)
Definition models_named (name : pystr) (company : Z) (t : tables) : list model :=
  filter (fun m => model_name m = name /\ model_company_id m = company) (models t).

(** [t'] is [t] with model rows appended, none of which has the name and
    company of a model of [t]. *)
Definition only_new_models (t t' : tables) : Prop :=
  exists new,
    models t' = models t ++ new /\
    Forall (fun m => models_named (model_name m) (model_company_id m) t = []) new.

(** [t'] is [t] with price rows appended, none of which is for a (model,
    region) pair that has a price in [t]. *)
Definition only_new_prices (t t' : tables) : Prop :=
  exists new,
    prices t' = prices t ++ new /\
    Forall (fun p => prices_for (price_model_id p) (price_region_id p) t = []) new.

(** What the import path does to the tables. *)
Record net_new (t t' : tables) : Prop := {
  nn_extends : extends t t';
  nn_models : only_new_models t t';
  nn_prices : only_new_prices t t'
}.

(** What a statement does to a connection: the committed tables stay, the
    pending tables change as the statement says. *)
Definition stmt_rel (Q : tables -> tables -> Prop) (c c' : connection) : Prop :=
  durable c' = durable c /\ Q (pending c) (pending c').

(** Every statement leaves the committed tables alone. *)
Definition keeps_durable (c c' : connection) : Prop := durable c' = durable c.

End Store.

(** ** The catalog store: class [Database] *)

Module Catalog.
Import Py Eff Store.
Local Open Scope eff_scope.

(** The [Database] object (its live connection) and the module's logger. *)
Record database := {
  connection : Store.connection;
  db_log : list log_entry
}.

(** [get_cursor]: the body runs on a cursor of the connection; then commit,
    or on any exception rollback, log and re-raise. *)
Definition get_cursor {A} (body : M Store.connection A) : M database A :=
  fun db =>
    match body (connection db) with
    | (Ok a, c) => (Ok a, {| connection := commit c; db_log := db_log db |})
    | (Raise e, c) =>
        (Raise e, {| connection := rollback c;
                     db_log := db_log db ++ [ErrorQuery e] |})
    end.

Definition add_company (company_name : pystr) : M database Z :=
  get_cursor (insert_company (PyStr company_name)).

Definition update_company (company_id : Z) (company_name : pystr) : M database unit :=
  get_cursor (Store.update_company company_id (PyStr company_name)).

Definition delete_company (company_id : Z) : M database unit :=
  get_cursor (Store.delete_company company_id).

Definition get_or_create_processor (processor_name : pystr) : M database Z :=
  get_cursor
    (do result <- select_processor_id (PyStr processor_name);
     match result with
     | Some processor_id => ret processor_id
     | None => insert_processor (PyStr processor_name)
     end).

(** The [model_data] dictionary of [add_model] and [update_model], as the
    model form fills it: the names are strings, the processor name is a
    string or [None], the company is the identity picked in the form or
    [None]. *)
Record model_data := {
  md_model_name : pystr;
  md_company_id : option Z;
  md_processor_name : option pystr;
  md_specs : specs
}.

(** [if model_data.get('processor_name')]: the name is there and not
    empty. *)
Definition names_processor (model_data : model_data) : bool :=
  match md_processor_name model_data with
  | Some name => truthy (PyStr name)
  | None => false
  end.

(** [processor_id = None; if model_data.get('processor_name'): ...] *)
Definition resolve_processor (model_data : model_data) : M database (option Z) :=
  match md_processor_name model_data with
  | Some name =>
      if truthy (PyStr name)
      then do processor_id <- get_or_create_processor name;
           ret (Some processor_id)
      else ret None
  | None => ret None
  end.

Definition params_of (model_data : model_data) (processor_id : option Z) : model_params :=
  {| p_model_name := PyStr (md_model_name model_data);
     p_company_id := md_company_id model_data;
     p_processor_id := processor_id;
     p_specs := md_specs model_data |}.

Definition add_model (model_data : model_data) : M database Z :=
  do processor_id <- resolve_processor model_data;
  get_cursor (insert_model (params_of model_data processor_id)).

Definition update_model (model_id : Z) (model_data : model_data) : M database unit :=
  do processor_id <- resolve_processor model_data;
  get_cursor (update_model_row model_id (params_of model_data processor_id)).

Definition delete_model (model_id : Z) : M database unit :=
  get_cursor (delete_model_row model_id).

Definition add_or_update_price (model_id region_id : Z) (price : float) : M database unit :=
  get_cursor (upsert_price model_id region_id price).

Definition delete_price (price_id : Z) : M database unit :=
  get_cursor (delete_price_row price_id).

(** The operations that write, as data. *)
Inductive operation :=
| AddCompany (company_name : pystr)
| UpdateCompany (company_id : Z) (company_name : pystr)
| DeleteCompany (company_id : Z)
| AddModel (model_data : model_data)
| UpdateModel (model_id : Z) (model_data : model_data)
| DeleteModel (model_id : Z)
| AddOrUpdatePrice (model_id region_id : Z) (price : float)
| DeletePrice (price_id : Z)
| GetOrCreateProcessor (processor_name : pystr).

Definition unit_of {A} (c : M database A) : M database unit :=
  do _ <- c; ret tt.

Definition perform (op : operation) : M database unit :=
  match op with
  | AddCompany n => unit_of (add_company n)
  | UpdateCompany i n => update_company i n
  | DeleteCompany i => delete_company i
  | AddModel d => unit_of (add_model d)
  | UpdateModel i d => update_model i d
  | DeleteModel i => delete_model i
  | AddOrUpdatePrice m r a => add_or_update_price m r a
  | DeletePrice i => delete_price i
  | GetOrCreateProcessor n => unit_of (get_or_create_processor n)
  end.

(** What is committed. *)
Definition stored (db : database) : tables := durable (connection db).

(** The operations that open one [get_cursor] scope.  [add_model] and
    [update_model] open a second one, before their own, when the model data
    names a processor. *)
Definition single_scope (op : operation) : Prop :=
  match op with
  | AddModel d | UpdateModel _ d => names_processor d = false
  | _ => True
  end.

(** After a scope nothing is pending, and a scope that raised has left the
    committed tables as they were. *)
Definition settled (db : database) (r_db' : result unit * database) : Prop :=
  clean (connection (snd r_db')) /\
  forall e, fst r_db' = Raise e -> stored (snd r_db') = stored db.

(** What the upsert does to a row of the pair. *)
Definition overwrite (m r : Z) (amount : float) (p : price) : price :=
  if same_pair m r p then set_amount amount p else p.

End Catalog.

(** ** The bulk importer: class [MobileDataImporter] *)

Module Importer.
Import Py Eff Store.
Local Open Scope eff_scope.

(** One row of the data frame, by CSV column. *)
Record row := {
  col_company_name : pyval;          (* 'Company Name' *)
  col_model_name : pyval;            (* 'Model Name' *)
  col_processor : pyval;             (* 'Processor' *)
  col_mobile_weight : pyval;         (* 'Mobile Weight' *)
  col_ram : pyval;                   (* 'RAM' *)
  col_front_camera : pyval;          (* 'Front Camera' *)
  col_back_camera : pyval;           (* 'Back Camera' *)
  col_battery_capacity : pyval;      (* 'Battery Capacity' *)
  col_screen_size : pyval;           (* 'Screen Size' *)
  col_launched_year : pyval;         (* 'Launched Year' *)
  col_price_pakistan : pyval;        (* 'Launched Price (Pakistan)' *)
  col_price_india : pyval;           (* 'Launched Price (India)' *)
  col_price_china : pyval;           (* 'Launched Price (China)' *)
  col_price_usa : pyval;             (* 'Launched Price (USA)' *)
  col_price_dubai : pyval            (* 'Launched Price (Dubai)' *)
}.

(** The importer object, the logger, and the two counters that
    [import_data] keeps in local variables. *)
Record importer := {
  conn : connection;
  company_cache : gmap pystr Z;
  processor_cache : gmap pystr Z;
  region_cache : gmap pystr Z;
  models_count : Z;
  prices_count : Z;
  log : list log_entry
}.

(** [MobileDataImporter(db_config)] followed by [connect()]. *)
Definition init (c : connection) : importer :=
  {| conn := c; company_cache := ∅; processor_cache := ∅; region_cache := ∅;
     models_count := 0; prices_count := 0; log := [] |}.

Definition set_conn (c : connection) (st : importer) : importer :=
  {| conn := c; company_cache := company_cache st;
     processor_cache := processor_cache st; region_cache := region_cache st;
     models_count := models_count st; prices_count := prices_count st;
     log := log st |}.
Definition set_company_cache (m : gmap pystr Z) (st : importer) : importer :=
  {| conn := conn st; company_cache := m;
     processor_cache := processor_cache st; region_cache := region_cache st;
     models_count := models_count st; prices_count := prices_count st;
     log := log st |}.
Definition set_processor_cache (m : gmap pystr Z) (st : importer) : importer :=
  {| conn := conn st; company_cache := company_cache st;
     processor_cache := m; region_cache := region_cache st;
     models_count := models_count st; prices_count := prices_count st;
     log := log st |}.
Definition set_region_cache (m : gmap pystr Z) (st : importer) : importer :=
  {| conn := conn st; company_cache := company_cache st;
     processor_cache := processor_cache st; region_cache := m;
     models_count := models_count st; prices_count := prices_count st;
     log := log st |}.
Definition set_counts (models prices : Z) (st : importer) : importer :=
  {| conn := conn st; company_cache := company_cache st;
     processor_cache := processor_cache st; region_cache := region_cache st;
     models_count := models; prices_count := prices;
     log := log st |}.
Definition set_log (l : list log_entry) (st : importer) : importer :=
  {| conn := conn st; company_cache := company_cache st;
     processor_cache := processor_cache st; region_cache := region_cache st;
     models_count := models_count st; prices_count := prices_count st;
     log := l |}.

(** [self.cursor.execute(...)] and what follows it on the cursor. *)
Definition on_cursor {A} (c : M connection A) : M importer A :=
  zoom conn set_conn c.

(** [logger.info(...)], [logger.warning(...)], [logger.error(...)] *)
Definition emit (es : list log_entry) : M importer unit :=
  modify (fun st => set_log (log st ++ es) st).

(** A name cache is a dictionary; the only keys it ever holds are strings
    (for any other key the statement that precedes the store raises, see
    [company_key_is_str] and [processor_key_is_str]). *)
Definition cache_get (key : pyval) (cache : gmap pystr Z) : option Z :=
  match key with
  | PyStr s => cache !! s
  | _ => None
  end.

Definition cache_set (key : pyval) (id : Z) (cache : gmap pystr Z) : gmap pystr Z :=
  match key with
  | PyStr s => <[s := id]> cache
  | _ => cache
  end.

Definition name_of (key : pyval) : pystr :=
  match key with
  | PyStr s => s
  | _ => []
  end.

Definition get_or_create_company (company_name : pyval) : M importer Z :=
  do cached <- gets (fun st => cache_get company_name (company_cache st));
  match cached with
  | Some company_id => ret company_id
  | None =>
      do result <- on_cursor (select_company_id company_name);
      do company_id <-
        match result with
        | Some company_id => ret company_id
        | None =>
            do company_id <- on_cursor (insert_company company_name);
            do _ <- emit [InfoCompanyAdded (name_of company_name)];
            ret company_id
        end;
      do _ <- modify (fun st =>
                set_company_cache
                  (cache_set company_name company_id (company_cache st)) st);
      ret company_id
  end.

Definition get_or_create_processor (processor_name : pyval) : M importer (option Z) :=
  if isna processor_name || eq_empty_str processor_name then ret None
  else
    do cached <- gets (fun st => cache_get processor_name (processor_cache st));
    match cached with
    | Some processor_id => ret (Some processor_id)
    | None =>
        do result <- on_cursor (select_processor_id processor_name);
        do processor_id <-
          match result with
          | Some processor_id => ret processor_id
          | None =>
              do processor_id <- on_cursor (insert_processor processor_name);
              do _ <- emit [InfoProcessorAdded (name_of processor_name)];
              ret processor_id
          end;
        do _ <- modify (fun st =>
                  set_processor_cache
                    (cache_set processor_name processor_id (processor_cache st)) st);
        ret (Some processor_id)
    end.

Definition load_regions : M importer unit :=
  do rows <- on_cursor select_regions;
  do _ <- for_each rows (fun r =>
            modify (fun st =>
              set_region_cache (<[snd r := fst r]> (region_cache st)) st));
  do n <- gets (fun st => size (region_cache st));
  emit [InfoRegionsLoaded n].

(** [price_columns]: the region names and the price column of each. *)
Definition price_columns : list (pystr * (row -> pyval)) :=
  [ (of_ascii "Pakistan", col_price_pakistan);
    (of_ascii "India", col_price_india);
    (of_ascii "China", col_price_china);
    (of_ascii "USA", col_price_usa);
    (of_ascii "Dubai", col_price_dubai) ].

(** [x if pd.notna(x) else None] *)
Definition if_notna (v : pyval) : option pyval :=
  if notna v then Some v else None.

(** The name caches only grow: every entry stays, with its identity. *)
Definition caches_grow (st st' : importer) : Prop :=
  company_cache st ⊆ company_cache st' /\
  processor_cache st ⊆ processor_cache st'.

(** The counters do not decrease. *)
Definition counters_grow (st st' : importer) : Prop :=
  models_count st <= models_count st' /\ prices_count st <= prices_count st'.

(** The counters have advanced by the number of rows added to the pending
    [models] and [prices] tables. *)
Definition counted (st st' : importer) : Prop :=
  models_count st' - models_count st
  = Z.of_nat (length (models (pending (conn st'))))
    - Z.of_nat (length (models (pending (conn st)))) /\
  prices_count st' - prices_count st
  = Z.of_nat (length (prices (pending (conn st'))))
    - Z.of_nat (length (prices (pending (conn st)))).

(** What is pending is what is committed plus net-new rows. *)
Definition pending_net_new (st : importer) : Prop :=
  net_new (durable (conn st)) (pending (conn st)).

(** From a state where that holds, it still holds afterwards and what is
    committed has only got net-new rows. *)
Definition commits_net_new (st st' : importer) : Prop :=
  pending_net_new st ->
  pending_net_new st' /\ net_new (durable (conn st)) (durable (conn st')).

(** The committed tables stay and the pending tables get net-new rows. *)
Definition writes_net_new (st st' : importer) : Prop :=
  stmt_rel net_new (conn st) (conn st').

Section Loop.

Variable nonascii_decimal : codepoint -> option N.
Variable float_repr : float -> pystr.
Variable int_of_str : pystr -> option Z.

Definition parse_price (price_str : pyval) : M importer (option float) :=
  let '(diagnostics, r) := Price.parse_price nonascii_decimal float_repr price_str in
  do _ <- emit diagnostics;
  lift r.

(** The parameter tuple of the INSERT of a new model; [int()] may raise. *)
Definition new_model_params (row : row) (company_id : Z) (processor_id : option Z)
  : M importer model_params :=
  do year <- (if notna (col_launched_year row)
              then do y <- lift (Py.int int_of_str (col_launched_year row));
                   ret (Some y)
              else ret None);
  ret {| p_model_name := col_model_name row;
         p_company_id := Some company_id;
         p_processor_id := processor_id;
         p_specs := {| mobile_weight := if_notna (col_mobile_weight row);
                       ram := if_notna (col_ram row);
                       front_camera := if_notna (col_front_camera row);
                       back_camera := if_notna (col_back_camera row);
                       battery_capacity := if_notna (col_battery_capacity row);
                       screen_size := if_notna (col_screen_size row);
                       launched_year := year |} |}.

(** The body of [for region_name, price_column in price_columns]. *)
Definition import_price (row : row) (model_id : Z)
    (column : pystr * (Importer.row -> pyval)) : M importer unit :=
  let '(region_name, price_column) := column in
  do price <- parse_price (price_column row);
  match price with
  | None => ret tt
  | Some price =>
      do cached <- gets (fun st => region_cache st !! region_name);
      do region_id <- match cached with
                      | Some region_id => ret region_id
                      | None => raise KeyError
                      end;
      do existing <- on_cursor (select_price_id model_id region_id);
      match existing with
      | Some _ => ret tt
      | None =>
          do _ <- on_cursor (insert_price model_id region_id price);
          modify (fun st => set_counts (models_count st) (prices_count st + 1) st)
      end
  end.

(** [existing_model = ...fetchone()] and the [if existing_model: ... else:
    ...] that follows: the identity of the model of the row, inserted when
    no model has its name and company. *)
Definition resolve_model (row : row) (company_id : Z) (processor_id : option Z)
  : M importer Z :=
  do existing_model <- on_cursor (select_model_id (col_model_name row) company_id);
  match existing_model with
  | Some model_id => ret model_id
  | None =>
      do params <- new_model_params row company_id processor_id;
      do model_id <- on_cursor (insert_model params);
      do _ <- modify (fun st => set_counts (models_count st + 1) (prices_count st) st);
      ret model_id
  end.

(** The company, the processor, the model and the prices of one row: the
    [try] block up to the periodic commit. *)
Definition import_row (row : row) : M importer unit :=
  do company_id <- get_or_create_company (col_company_name row);
  do processor_id <- get_or_create_processor (col_processor row);
  do model_id <- resolve_model row company_id processor_id;
  for_each price_columns (import_price row model_id).

(** [if (idx + 1) % 100 == 0: self.conn.commit(); logger.info(...)] *)
Definition periodic_commit (idx : Z) : M importer unit :=
  if (idx + 1) mod 100 =? 0
  then do _ <- modify (fun st => set_conn (commit (conn st)) st);
       emit [InfoRowsProcessed (idx + 1)]
  else ret tt.

(** The [try] block of the loop. *)
Definition try_row (idx : Z) (row : row) : M importer unit :=
  do _ <- import_row row;
  periodic_commit idx.

(** The [except Exception as e] block: log, roll back, continue. *)
Definition on_row_error (idx : Z) (e : exn) : M importer unit :=
  do _ <- emit [ErrorRow idx e];
  modify (fun st => set_conn (rollback (conn st)) st).

(** One iteration of [for idx, row in df.iterrows()]. *)
Definition loop_body (ir : Z * row) : M importer unit :=
  try_except (try_row (fst ir) (snd ir)) (on_row_error (fst ir)).

(** [df.iterrows()]: the rows with their index, from 0. *)
Fixpoint iterrows_from (i : Z) (df : list row) : list (Z * row) :=
  match df with
  | [] => []
  | r :: rest => (i, r) :: iterrows_from (i + 1) rest
  end.
Definition iterrows (df : list row) : list (Z * row) := iterrows_from 0 df.

(** [import_data], from the data frame that [pd.read_csv] returned. *)
Definition import_data (df : list row) : M importer unit :=
  do _ <- emit [InfoImportStarted; InfoRowsLoaded (length df)];
  do _ <- load_regions;
  do _ <- modify (set_counts 0 0);
  do _ <- for_each (iterrows df) loop_body;
  do _ <- modify (fun st => set_conn (commit (conn st)) st);
  do st <- gets (fun st => st);
  emit [InfoImportDone (models_count st) (prices_count st)
          (size (company_cache st)) (size (processor_cache st))].

End Loop.

End Importer.

(** ** Concrete data for the examples *)

Module Scenario.
Import Py Eff Store.
Local Open Scope string_scope.

(** An interpreter whose only decimal digits are the ASCII ones. *)
Definition ascii_digits_only : codepoint -> option N := fun _ => None.

(** No example passes a float to [str()]. *)
Definition repr_any : float -> pystr := fun _ => of_ascii "0.0".

(** [int()] on a string of ASCII digits; it raises on the other strings of
    the examples, as [int()] does on them. *)
Definition int_of_digits (s : pystr) : option Z :=
  match s with
  | [] => None
  | _ =>
      if forallb (fun c => (48 <=? c) && (c <=? 57))%N s
      then Some (Z.of_N (fold_left (fun acc c => 10 * acc + (c - 48))%N s 0%N))
      else None
  end.

Definition s (x : string) : pyval := PyStr (of_ascii x).
Definition nan : pyval := PyFloat S754_nan.

(** The rupee sign, U+20A8, and the Indian rupee sign, U+20B9. *)
Definition rupee : codepoint := 8360%N.
Definition indian_rupee : codepoint := 8377%N.

Definition five_regions : list region :=
  [ {| region_id := 1; region_name := of_ascii "Pakistan" |};
    {| region_id := 2; region_name := of_ascii "India" |};
    {| region_id := 3; region_name := of_ascii "China" |};
    {| region_id := 4; region_name := of_ascii "USA" |};
    {| region_id := 5; region_name := of_ascii "Dubai" |} ].

(** A freshly seeded store: the five regions and nothing else. *)
Definition seeded : tables :=
  {| companies := []; processors := []; regions := five_regions;
     models := []; prices := [] |}.

Definition fresh_sequences : sequences :=
  {| company_seq := 0; processor_seq := 0; model_seq := 0; price_seq := 0 |}.

Definition fresh_connection : connection := connect seeded fresh_sequences.

Definition start : Importer.importer := Importer.init fresh_connection.

Definition listing (company model processor year pakistan india : pyval)
  : Importer.row :=
  {| Importer.col_company_name := company;
     Importer.col_model_name := model;
     Importer.col_processor := processor;
     Importer.col_mobile_weight := s "180g";
     Importer.col_ram := s "8GB";
     Importer.col_front_camera := nan;
     Importer.col_back_camera := s "50MP";
     Importer.col_battery_capacity := s "5,000mAh";
     Importer.col_screen_size := s "6.1 inches";
     Importer.col_launched_year := year;
     Importer.col_price_pakistan := pakistan;
     Importer.col_price_india := india;
     Importer.col_price_china := nan;
     Importer.col_price_usa := nan;
     Importer.col_price_dubai := nan |}.

(** Two well-formed rows. *)
Definition row_x1 : Importer.row :=
  listing (s "Acme") (s "X1") (s "Chip1") (s "2024")
          (PyStr (rupee :: of_ascii "10,000")) nan.
Definition row_x2 : Importer.row :=
  listing (s "Acme") (s "X2") (s "Chip1") (s "2025")
          (PyStr (rupee :: of_ascii "20,000"))
          (PyStr (indian_rupee :: of_ascii "5,000")).

(** A row whose launch year is not a number, from a new company. *)
Definition row_bad_year : Importer.row :=
  listing (s "Zeta") (s "Z9") nan (s "next year") nan nan.

(** A later row of the same new company, well formed. *)
Definition row_z1 : Importer.row :=
  listing (s "Zeta") (s "Z1") nan (s "2023") nan nan.

Definition fresh_database : Catalog.database :=
  {| Catalog.connection := fresh_connection; Catalog.db_log := [] |}.

Definition no_specs : specs :=
  {| mobile_weight := None; ram := None; front_camera := None;
     back_camera := None; battery_capacity := None; screen_size := None;
     launched_year := None |}.

(** A model of a company that does not exist, with a new processor. *)
Definition orphan_model : Catalog.model_data :=
  {| Catalog.md_model_name := of_ascii "X1";
     Catalog.md_company_id := Some 99;
     Catalog.md_processor_name := Some (of_ascii "Chip1");
     Catalog.md_specs := no_specs |}.

(** A store with one company and one model. *)
Definition one_model : tables :=
  {| companies := [ {| company_id := 1; company_name := of_ascii "Acme" |} ];
     processors := [];
     regions := five_regions;
     models := [ {| model_id := 1; model_name := of_ascii "X1";
                    model_company_id := 1; model_processor_id := None;
                    model_specs := no_specs |} ];
     prices := [] |}.

Definition one_model_database : Catalog.database :=
  {| Catalog.connection :=
       connect one_model
         {| company_seq := 1; processor_seq := 0; model_seq := 1; price_seq := 0 |};
     Catalog.db_log := [] |}.

(** An importer connected to that store. *)
Definition one_model_importer : Importer.importer :=
  Importer.init
    (connect one_model
       {| company_seq := 1; processor_seq := 0; model_seq := 1; price_seq := 0 |}).

(** 1200.0 and 1500.0 *)
Definition amount_1200 : float := S754_finite false 5277655813324800 (-42).
Definition amount_1500 : float := S754_finite false 6597069766656000 (-42).

Definition import (df : list Importer.row) : M Importer.importer unit :=
  Importer.import_data ascii_digits_only repr_any int_of_digits df.

(** The importer once the regions are loaded and the counters are zero, as
    the loop finds it. *)
Definition ready : Importer.importer :=
  snd (Eff.bind (Importer.emit [InfoImportStarted; InfoRowsLoaded 2])
         (fun _ => Eff.bind Importer.load_regions
                     (fun _ => modify (Importer.set_counts 0 0))) start).

Definition loop_body : Z * Importer.row -> M Importer.importer unit :=
  Importer.loop_body ascii_digits_only repr_any int_of_digits.

Definition try_row : Z -> Importer.row -> M Importer.importer unit :=
  Importer.try_row ascii_digits_only repr_any int_of_digits.

(** The importer after the first iteration of the loop, on the well-formed
    row [row_x1] and on the malformed row [row_bad_year]. *)
Definition after_x1 : Importer.importer := snd (loop_body (0, row_x1) ready).
Definition after_bad_year : Importer.importer :=
  snd (loop_body (0, row_bad_year) ready).

(** The importer once "Acme" has been resolved and the row [row_x2] has
    been processed after it. *)
Definition acme_then_x2 : Importer.importer :=
  snd (for_each [(1, row_x2)] loop_body
         (snd (Importer.get_or_create_company (s "Acme") ready))).

(** A digit one followed by 309 zeros: ten to the 309. *)
Definition ten_to_309 : pystr := 49%N :: repeat 48%N 309.

End Scenario.

(** ** The catalog's lookup of one model, and the model form *)

Module Lookup.
Import Py Eff Store Catalog.
Local Open Scope eff_scope.

(** A row of the result of [get_model_by_id]: the columns of the model, the
    name of its company and the name of its processor (NULL when the model
    has none). *)
Record model_view := {
  mv_model : model;
  mv_company_name : pystr;
  mv_processor_name : option pystr
}.

(** [SELECT m.*, c.company_name, pr.processor_name FROM models m
     JOIN companies c ON m.company_id = c.company_id
     LEFT JOIN processors pr ON m.processor_id = pr.processor_id
     WHERE m.model_id = %s]: the rows of the join, in table order. *)
Definition model_rows (id : Z) (t : tables) : list model_view :=
  flat_map (fun m =>
    flat_map (fun c =>
      match filter (fun pr => Some (processor_id pr) = model_processor_id m)
                   (processors t) with
      | [] => [ {| mv_model := m; mv_company_name := company_name c;
                   mv_processor_name := None |} ]
      | prs => map (fun pr => {| mv_model := m; mv_company_name := company_name c;
                                 mv_processor_name := Some (processor_name pr) |}) prs
      end)
      (filter (fun c => company_id c = model_company_id m) (companies t)))
    (filter (fun m => model_id m = id) (models t)).

(** [get_model_by_id]: the query above in a [get_cursor] scope, then
    [fetchone()].  The query reads the tables as the connection sees them and
    writes nothing; it is not entered in [executed], which no fact about the
    lookup reads. *)
Definition get_model_by_id (model_id : Z) : M database (option model_view) :=
  get_cursor (gets (fun c => head (model_rows model_id (pending c)))).

(** The widgets of [ModelDialog] that [get_data] reads: the identity behind
    the selected entry of the company list ([None] when the list is empty),
    the text of each line edit, and the value of the year spin box. *)
Record model_form := {
  company_combo : option Z;
  model_name_edit : pystr;
  weight_edit : pystr;
  ram_edit : pystr;
  front_camera_edit : pystr;
  back_camera_edit : pystr;
  processor_edit : pystr;
  battery_edit : pystr;
  screen_edit : pystr;
  year_spin : Z
}.

(** [text or None] *)
Definition or_none (text : pystr) : option pystr :=
  if truthy (PyStr text) then Some text else None.

(** [ModelDialog.get_data] *)
Definition get_data (f : model_form) : model_data :=
  {| md_model_name := model_name_edit f;
     md_company_id := company_combo f;
     md_processor_name := or_none (processor_edit f);
     md_specs :=
       {| mobile_weight := option_map PyStr (or_none (weight_edit f));
          ram := option_map PyStr (or_none (ram_edit f));
          front_camera := option_map PyStr (or_none (front_camera_edit f));
          back_camera := option_map PyStr (or_none (back_camera_edit f));
          battery_capacity := option_map PyStr (or_none (battery_edit f));
          screen_size := option_map PyStr (or_none (screen_edit f));
          launched_year := Some (year_spin f) |} |}.

End Lookup.

(** ** Properties of the tables and of the operations *)

Module Properties.
Import Py Eff Store Catalog Importer.

(** Every model refers to a company of the table and every price to a model
    of the table. *)
Definition references_ok (t : tables) : Prop :=
  Forall (fun m => has_company (model_company_id m) t = true) (models t) /\
  Forall (fun p => has_model (price_model_id p) t = true) (prices t).

(** The processors have distinct identities. *)
Definition processor_ids_unique (t : tables) : Prop :=
  NoDup (map processor_id (processors t)).

(** The operation addresses a row by its identity and no row has it. *)
Definition absent (op : operation) (t : tables) : Prop :=
  match op with
  | UpdateCompany i _ | DeleteCompany i => has_company i t = false
  | UpdateModel i _ | DeleteModel i => has_model i t = false
  | DeletePrice i => existsb (fun p => price_id p =? i) (prices t) = false
  | AddCompany _ | AddModel _ | AddOrUpdatePrice _ _ _ | GetOrCreateProcessor _ =>
      False
  end.

(** The parameters of the operation can be adapted: no string among them
    contains U+0000. *)
Definition sendable (op : operation) : bool :=
  match op with
  | AddCompany n | UpdateCompany _ n | GetOrCreateProcessor n => negb (has_nul n)
  | AddModel d | UpdateModel _ d =>
      match adapt_model_params (params_of d None) with
      | Ok _ => true
      | Raise _ => false
      end
      && match md_processor_name d with
         | Some n => negb (has_nul n)
         | None => true
         end
  | DeleteCompany _ | DeleteModel _ | AddOrUpdatePrice _ _ _ | DeletePrice _ => true
  end.

(** A computation on the database that logs exactly what it raises: nothing
    when it returns, one [ErrorQuery] entry with the exception when it
    raises. *)
Definition logs_failure {A} (c : M database A) : Prop :=
  forall db,
    match fst (c db) with
    | Ok _ => db_log (snd (c db)) = db_log db
    | Raise e => db_log (snd (c db)) = db_log db ++ [ErrorQuery e]
    end.

(** The model row that [add_model] and [update_model] are to store for
    [model_data], with identity [id]. *)
Definition stores (d : model_data) (id : Z) (t : tables) (m : model) : Prop :=
  model_id m = id /\
  model_name m = md_model_name d /\
  Some (model_company_id m) = md_company_id d /\
  model_specs m = md_specs d /\
  match md_processor_name d with
  | Some (c :: name) =>
      exists pid, model_processor_id m = Some pid /\
                  In {| processor_id := pid; processor_name := c :: name |}
                     (processors t)
  | _ => model_processor_id m = None
  end.

(** The region cache is left as it is. *)
Definition keeps_regions (st st' : importer) : Prop :=
  region_cache st' = region_cache st.

(** The companies named [name]. *)
Definition companies_named (name : pystr) (t : tables) : list company :=
  filter (fun c => company_name c = name) (companies t).

(** The processors named [name]. *)
Definition processors_named (name : pystr) (t : tables) : list processor :=
  filter (fun p => processor_name p = name) (processors t).

(** A computation that only reads: the tables, the sequences, the caches
    and the counters are as they were (the log and the list of executed
    statements may have grown). *)
Definition only_reads (st st' : importer) : Prop :=
  pending (conn st') = pending (conn st) /\
  durable (conn st') = durable (conn st) /\
  seqs (conn st') = seqs (conn st) /\
  company_cache st' = company_cache st /\
  processor_cache st' = processor_cache st /\
  region_cache st' = region_cache st /\
  models_count st' = models_count st /\
  prices_count st' = prices_count st.

(** What a price column needs for its [import_price] to be a pure read: its
    price string parses without raising and, when it yields a price, the
    region is in the cache and the pair already has a price. *)
Definition settled_column (nonascii_decimal : codepoint -> option N)
    (float_repr : float -> pystr) (row : row) (mid : Z) (st : importer)
    (col : pystr * (Importer.row -> pyval)) : Prop :=
  (exists v, snd (Price.parse_price nonascii_decimal float_repr (snd col row)) = Ok v) /\
  forall p,
    snd (Price.parse_price nonascii_decimal float_repr (snd col row)) = Ok (Some p) ->
    exists rid x,
      region_cache st !! fst col = Some rid /\
      List.find (same_pair mid rid) (prices (pending (conn st))) = Some x.

(** The importer as the loop of [import_data] finds it: the two start
    entries logged, the regions loaded and both counters at zero. *)
Definition at_loop (df : list row) (st : importer) : importer :=
  set_counts 0 0
    (snd (load_regions
            (snd (emit [InfoImportStarted; InfoRowsLoaded (length df)] st)))).

(** No row of the run raises: the [try] block of every iteration, taken in
    the state the iterations before it have left, runs to its end. *)
Fixpoint rows_succeed (nonascii_decimal : codepoint -> option N)
    (float_repr : float -> pystr) (int_of_str : pystr -> option Z)
    (irs : list (Z * row)) (st : importer) : Prop :=
  match irs with
  | [] => True
  | ir :: rest =>
      let r := try_row nonascii_decimal float_repr int_of_str (fst ir) (snd ir) st in
      fst r = Ok tt /\
      rows_succeed nonascii_decimal float_repr int_of_str rest (snd r)
  end.

End Properties.

(** ** Facts about the price parser *)

Module PriceFacts.
Import Py Price.

(** *** Rounding never produces a negative mantissa *)

Lemma iter_pos_invariant {A} (P : A -> Prop) (f : A -> A) :
  (forall x, P x -> P (f x)) ->
  forall n x, P x -> P (SpecFloat.iter_pos f n x).
Proof.
  intros Hf. induction n as [n IH | n IH |]; simpl; intros x Hx; auto.
Qed.

Lemma shr_1_nonneg mrs : 0 <= shr_m mrs -> 0 <= shr_m (shr_1 mrs).
Proof.
  destruct mrs as [m r s0]. simpl.
  destruct m as [| [p | p |] | p]; simpl; lia.
Qed.

Lemma shr_nonneg mrs e n : 0 <= shr_m mrs -> 0 <= shr_m (fst (shr mrs e n)).
Proof.
  intros H. unfold shr. destruct n; simpl; auto.
  apply (iter_pos_invariant (fun x => 0 <= shr_m x)); auto using shr_1_nonneg.
Qed.

Lemma shr_record_of_loc_m m l : shr_m (shr_record_of_loc m l) = m.
Proof. destruct l as [| []]; reflexivity. Qed.

Lemma shr_fexp_nonneg m e l :
  0 <= m -> 0 <= shr_m (fst (shr_fexp prec emax m e l)).
Proof.
  intros H. unfold shr_fexp. apply shr_nonneg.
  now rewrite shr_record_of_loc_m.
Qed.

Lemma round_nearest_even_nonneg m l : 0 <= m -> 0 <= round_nearest_even m l.
Proof.
  intros H. unfold round_nearest_even.
  destruct l as [| []]; try destruct (Z.even m); lia.
Qed.

Lemma binary_round_aux_nonneg m e l :
  0 <= m -> nonneg (binary_round_aux prec emax false m e l) = true.
Proof.
  intros H. unfold binary_round_aux.
  pose proof (shr_fexp_nonneg m e l H) as H1.
  destruct (shr_fexp prec emax m e l) as [mrs' e'] eqn:E1. simpl in H1.
  pose proof (shr_fexp_nonneg _ e' loc_Exact
                (round_nearest_even_nonneg _ (loc_of_shr_record mrs') H1)) as H2.
  destruct (shr_fexp prec emax _ e' loc_Exact) as [mrs'' e''] eqn:E2. simpl in H2.
  destruct (shr_m mrs'') as [| p | p]; try reflexivity.
  - destruct (e'' <=? emax - prec); reflexivity.
  - lia.
Qed.

Lemma SFdiv_core_nonneg p q :
  0 <= fst (fst (SFdiv_core_binary prec emax (Zpos p) 0 (Zpos q) 0)).
Proof.
  unfold SFdiv_core_binary.
  set (e' := Z.min _ _). set (m' := match 0 - 0 - e' with Z0 => _ | _ => _ end).
  assert (Hm : 0 <= m').
  { unfold m'. destruct (0 - 0 - e'); try lia. apply Z.shiftl_nonneg. lia. }
  pose proof (Z.div_eucl_eq m' (Zpos q) ltac:(lia)) as Heq.
  pose proof (Z.mod_pos_bound m' (Zpos q) ltac:(lia)) as Hr.
  unfold Z.modulo in Hr.
  destruct (Z.div_eucl m' (Zpos q)) as [d r]. simpl. nia.
Qed.

Lemma float_of_decimal_nonneg n k : nonneg (float_of_decimal n k) = true.
Proof.
  destruct n as [| p]; [reflexivity |].
  unfold float_of_decimal, SFdiv.
  pose proof (SFdiv_core_nonneg p (Z.to_pos (10 ^ Z.of_nat k))) as H.
  destruct (SFdiv_core_binary _ _ _ _ _ _) as [[mz ez] lz]. simpl in H.
  now apply binary_round_aux_nonneg.
Qed.

(** *** Finite results, and exact ones *)

Lemma digits2_pos_size p : digits2_pos p = Pos.size p.
Proof. induction p; simpl; congruence. Qed.

(** A non-negative number below [2^k] has at most [k] binary digits. *)
Lemma Zdigits2_le m k : 0 <= k -> 0 <= m < 2 ^ k -> Zdigits2 m <= k.
Proof.
  intros Hk [H0 Hm]. destruct m as [| p | p]; simpl; [lia | | lia].
  rewrite digits2_pos_size.
  pose proof (Pos.size_le p) as Hs.
  assert (H2 : 2 ^ Zpos (Pos.size p) <= 2 * Zpos p).
  { change (2 * Zpos p) with (Zpos p~0). rewrite <- Pos2Z.inj_pow. now apply Pos2Z.pos_le_pos. }
  destruct (Z_le_gt_dec (Zpos (Pos.size p)) k) as [|Hgt]; [assumption | exfalso].
  assert (2 ^ (k + 1) <= 2 ^ Zpos (Pos.size p)) by (apply Z.pow_le_mono_r; lia).
  rewrite Z.pow_add_r in H by lia. lia.
Qed.

Lemma shr_1_half mrs : 0 <= shr_m mrs -> 0 <= shr_m (shr_1 mrs) /\ 2 * shr_m (shr_1 mrs) <= shr_m mrs.
Proof.
  destruct mrs as [m r s0]. simpl.
  destruct m as [| [p | p |] | p]; simpl; lia.
Qed.

Lemma iter_shr_1_bound n : forall mrs,
  0 <= shr_m mrs ->
  0 <= shr_m (SpecFloat.iter_pos shr_1 n mrs) /\
  2 ^ Zpos n * shr_m (SpecFloat.iter_pos shr_1 n mrs) <= shr_m mrs.
Proof.
  induction n as [n IH | n IH |]; intros mrs H; simpl SpecFloat.iter_pos.
  - destruct (shr_1_half mrs H) as [H1 H2].
    destruct (IH _ H1) as [H3 H4]. destruct (IH _ H3) as [H5 H6].
    split; [assumption |].
    replace (Zpos n~1) with (Zpos n + Zpos n + 1) by lia.
    rewrite !Z.pow_add_r by lia. change (2 ^ 1) with 2.
    assert (0 < 2 ^ Zpos n) by (apply Z.pow_pos_nonneg; lia). nia.
  - destruct (IH _ H) as [H3 H4]. destruct (IH _ H3) as [H5 H6].
    split; [assumption |].
    replace (Zpos n~0) with (Zpos n + Zpos n) by lia.
    rewrite !Z.pow_add_r by lia.
    assert (0 < 2 ^ Zpos n) by (apply Z.pow_pos_nonneg; lia). nia.
  - destruct (shr_1_half mrs H) as [H1 H2]. split; [assumption |].
    change (2 ^ 1) with 2. lia.
Qed.

(** Shifting to the exponent of the format keeps the value below a power of
    two, and the exponent within range. *)
Lemma shr_fexp_bound m e l b :
  0 <= m < 2 ^ (b - e) -> e <= b - 53 -> -1074 <= b - 53 ->
  let '(mrs, e') := shr_fexp prec emax m e l in
  0 <= shr_m mrs < 2 ^ (b - e') /\ e' <= b - 53.
Proof.
  intros [H0 Hm] He Hb. unfold shr_fexp, shr.
  assert (Hd : Zdigits2 m <= b - e) by (apply Zdigits2_le; lia).
  set (n := fexp prec emax (Zdigits2 m + e) - e).
  assert (Hn : e + n <= b - 53).
  { unfold n, fexp, emin, prec, emax. lia. }
  destruct n as [| p | p] eqn:En.
  - rewrite shr_record_of_loc_m. lia.
  - destruct (iter_shr_1_bound p (shr_record_of_loc m l)) as [H1 H2];
      [rewrite shr_record_of_loc_m; lia |].
    rewrite shr_record_of_loc_m in H2.
    split; [| lia]. split; [assumption |].
    assert (Hp : 2 ^ (b - e) = 2 ^ Zpos p * 2 ^ (b - (e + Zpos p))).
    { rewrite <- Z.pow_add_r by lia. f_equal. lia. }
    assert (0 < 2 ^ Zpos p) by (apply Z.pow_pos_nonneg; lia).
    rewrite Hp in Hm. nia.
  - rewrite shr_record_of_loc_m. lia.
Qed.

Lemma round_nearest_even_bound m l : 0 <= m -> 0 <= round_nearest_even m l <= m + 1.
Proof.
  intros H. unfold round_nearest_even.
  destruct l as [| []]; try destruct (Z.even m); lia.
Qed.

Lemma binary_round_aux_finite m e l :
  0 <= m < 2 ^ (1023 - e) -> e <= 970 ->
  finite (binary_round_aux prec emax false m e l) = true.
Proof.
  intros Hm He. unfold binary_round_aux.
  pose proof (shr_fexp_bound m e l 1023 Hm ltac:(lia) ltac:(lia)) as H1.
  destruct (shr_fexp prec emax m e l) as [mrs' e'].
  destruct H1 as [[H1a H1b] H1c].
  pose proof (round_nearest_even_bound (shr_m mrs') (loc_of_shr_record mrs') H1a) as H2.
  set (m2 := round_nearest_even _ _) in *.
  assert (H3 : 0 <= m2 < 2 ^ (1024 - e')).
  { replace (1024 - e') with (1 + (1023 - e')) by lia.
    rewrite Z.pow_add_r by lia. change (2 ^ 1) with 2.
    assert (0 < 2 ^ (1023 - e')) by (apply Z.pow_pos_nonneg; lia). lia. }
  pose proof (shr_fexp_bound m2 e' loc_Exact 1024 H3 ltac:(lia) ltac:(lia)) as H4.
  destruct (shr_fexp prec emax m2 e' loc_Exact) as [mrs'' e''].
  destruct H4 as [[H4a H4b] H4c].
  destruct (shr_m mrs'') as [| p | p]; [reflexivity | | lia].
  unfold emax, prec. destruct (e'' <=? 1024 - 53) eqn:E; [reflexivity |].
  apply Z.leb_gt in E. lia.
Qed.

Lemma float_of_decimal_finite n k :
  Z.of_N n < 2 ^ 1023 * 10 ^ Z.of_nat k -> finite (float_of_decimal n k) = true.
Proof.
  destruct n as [| p]; [reflexivity |]. intros Hn.
  unfold float_of_decimal, SFdiv, SFdiv_core_binary.
  set (q := Z.to_pos (10 ^ Z.of_nat k)).
  assert (Hq : Zpos q = 10 ^ Z.of_nat k).
  { unfold q. rewrite Z2Pos.id; [reflexivity |]. apply Z.pow_pos_nonneg; lia. }
  set (e' := Z.min _ _).
  assert (He' : e' <= 0) by (unfold e'; lia).
  assert (He'' : -1074 <= e').
  { unfold e', fexp, emin, prec, emax. lia. }
  set (m' := match 0 - 0 - e' with Z0 => _ | _ => _ end).
  assert (Hm' : m' = Zpos p * 2 ^ (- e')).
  { unfold m'. replace (0 - 0 - e') with (- e') by lia.
    destruct (- e') as [| s | s] eqn:Es; [simpl; lia | | lia].
    apply Z.shiftl_mul_pow2. lia. }
  pose proof (Z.div_eucl_eq m' (Zpos q) ltac:(lia)) as Heq.
  pose proof (Z.mod_pos_bound m' (Zpos q) ltac:(lia)) as Hr.
  unfold Z.modulo in Hr.
  destruct (Z.div_eucl m' (Zpos q)) as [d r].
  apply binary_round_aux_finite; [| lia].
  assert (H2 : 0 < 2 ^ (- e')) by (apply Z.pow_pos_nonneg; lia).
  assert (Hd : 0 <= d) by nia.
  split; [assumption |].
  replace (1023 - e') with (1023 + - e') by lia. rewrite Z.pow_add_r by lia.
  simpl Z.of_N in Hn. rewrite <- Hq in Hn.
  assert (d * Zpos q < 2 ^ 1023 * 2 ^ (- e') * Zpos q) by nia.
  nia.
Qed.

Lemma Zdigits2_log2 p : Zdigits2 (Zpos p) = Z.log2 (Zpos p) + 1.
Proof.
  simpl. rewrite digits2_pos_size.
  destruct p; simpl; rewrite ?Pos2Z.inj_succ; lia.
Qed.

Lemma Zdigits2_shift p s : 0 <= s -> Zdigits2 (Zpos p * 2 ^ s) = Zdigits2 (Zpos p) + s.
Proof.
  intros Hs.
  assert (H : 0 < Zpos p * 2 ^ s).
  { apply Z.mul_pos_pos; [lia | apply Z.pow_pos_nonneg; lia]. }
  destruct (Zpos p * 2 ^ s) as [| q | q] eqn:E; try lia.
  rewrite !Zdigits2_log2, <- E, Z.log2_mul_pow2 by lia. lia.
Qed.

Lemma shr_1_even k :
  0 <= k ->
  shr_1 {| shr_m := 2 * k; shr_r := false; shr_s := false |}
  = {| shr_m := k; shr_r := false; shr_s := false |}.
Proof. destruct k as [| p | p]; simpl; intros; try reflexivity; lia. Qed.

Lemma shr_fexp_one k e :
  0 <= k -> fexp prec emax (Zdigits2 (2 * k) + e) - e = 1 ->
  shr_fexp prec emax (2 * k) e loc_Exact
  = ({| shr_m := k; shr_r := false; shr_s := false |}, e + 1).
Proof.
  intros Hk H. unfold shr_fexp, shr. rewrite H.
  cbn [SpecFloat.iter_pos shr_record_of_loc]. now rewrite shr_1_even.
Qed.

Lemma shr_fexp_none m e :
  fexp prec emax (Zdigits2 m + e) - e = 0 ->
  shr_fexp prec emax m e loc_Exact
  = ({| shr_m := m; shr_r := false; shr_s := false |}, e).
Proof. intros H. unfold shr_fexp, shr. now rewrite H. Qed.

Lemma new_location_zero q : new_location q 0 = loc_Exact.
Proof. unfold new_location. now destruct (Z.even q). Qed.

Lemma div_eucl_exact a q : 0 < q -> Z.div_eucl (a * q) q = (a, 0).
Proof.
  intros Hq.
  pose proof (Z.div_eucl_eq (a * q) q ltac:(lia)) as H.
  pose proof (Z.mod_pos_bound (a * q) q Hq) as Hr. unfold Z.modulo in Hr.
  destruct (Z.div_eucl (a * q) q) as [d r].
  assert (d = a) by nia. subst d. f_equal. lia.
Qed.

(** Rounding a 53-bit or 54-bit even mantissa that needs no rounding. *)
Lemma binary_round_aux_exact m1 e :
  0 < m1 -> Zdigits2 m1 = 53 -> -1074 <= e <= 971 ->
  binary_round_aux prec emax false m1 e loc_Exact
  = S754_finite false (Z.to_pos m1) e /\
  binary_round_aux prec emax false (2 * m1) (e - 1) loc_Exact
  = S754_finite false (Z.to_pos m1) e.
Proof.
  intros Hm1 Hd He.
  assert (Hd2 : Zdigits2 (2 * m1) = 54).
  { destruct m1 as [| q | q]; try lia.
    replace (2 * Zpos q) with (Zpos q * 2 ^ 1) by (change (2 ^ 1) with 2; lia).
    rewrite Zdigits2_shift by lia. lia. }
  assert (Hend :
    (let '(mrs'', e'') := shr_fexp prec emax m1 e loc_Exact in
     match shr_m mrs'' with
     | 0 => S754_zero false
     | Zpos m => if e'' <=? emax - prec then S754_finite false m e''
                 else S754_infinity false
     | Zneg _ => S754_nan
     end) = S754_finite false (Z.to_pos m1) e).
  { rewrite shr_fexp_none by (rewrite Hd; unfold fexp, emin, prec, emax; lia).
    cbn [shr_m]. destruct m1 as [| q | q]; try lia.
    replace (e <=? emax - prec) with true
      by (symmetry; apply Z.leb_le; unfold emax, prec; lia).
    reflexivity. }
  unfold binary_round_aux. split.
  - rewrite shr_fexp_none by (rewrite Hd; unfold fexp, emin, prec, emax; lia).
    cbn [shr_m shr_r shr_s loc_of_shr_record round_nearest_even]. exact Hend.
  - rewrite shr_fexp_one;
      [| lia | rewrite Hd2; unfold fexp, emin, prec, emax; lia].
    cbn [shr_m shr_r shr_s loc_of_shr_record round_nearest_even].
    replace (e - 1 + 1) with e by lia. exact Hend.
Qed.

Lemma Zdigits2_mul a b :
  0 < a -> 0 < b ->
  Zdigits2 a + Zdigits2 b - 1 <= Zdigits2 (a * b) <= Zdigits2 a + Zdigits2 b.
Proof.
  intros Ha Hb.
  assert (Hab : 0 < a * b) by (apply Z.mul_pos_pos; assumption).
  pose proof (Z.log2_mul_below a b Ha Hb).
  pose proof (Z.log2_mul_above a b ltac:(lia) ltac:(lia)).
  destruct a as [| pa | pa]; try lia. destruct b as [| pb | pb]; try lia.
  destruct (Zpos pa * Zpos pb) as [| pc | pc] eqn:E; try lia.
  rewrite !Zdigits2_log2. lia.
Qed.

(** The float that [float()] returns for a numeral that denotes an integer
    [v] below [2^53], written with [k] zeros after the point. *)
Lemma float_of_integer v k :
  0 < v < 2 ^ 53 ->
  float_of_decimal (Z.to_N (v * 10 ^ Z.of_nat k)) k
  = S754_finite false (Z.to_pos (v * 2 ^ (53 - Zdigits2 v))) (Zdigits2 v - 53).
Proof.
  intros [Hv0 Hv].
  assert (Hd : 1 <= Zdigits2 v <= 53).
  { split; [destruct v; simpl; lia |]. apply Zdigits2_le; lia. }
  set (d := Zdigits2 v) in *.
  assert (Hq : 0 < 10 ^ Z.of_nat k) by (apply Z.pow_pos_nonneg; lia).
  assert (Hn : 0 < v * 10 ^ Z.of_nat k) by (apply Z.mul_pos_pos; assumption).
  unfold float_of_decimal.
  destruct (Z.to_N (v * 10 ^ Z.of_nat k)) as [| p] eqn:Ep; [lia |].
  assert (Hp : Zpos p = v * Zpos (Z.to_pos (10 ^ Z.of_nat k))).
  { rewrite Z2Pos.id by assumption. lia. }
  set (q := Z.to_pos (10 ^ Z.of_nat k)) in *.
  assert (Hdp : d + Zdigits2 (Zpos q) - 1 <= Zdigits2 (Zpos p) <= d + Zdigits2 (Zpos q)).
  { rewrite Hp. apply Zdigits2_mul; lia. }
  unfold SFdiv, SFdiv_core_binary.
  set (d1 := Zdigits2 (Zpos p)) in *. set (d2 := Zdigits2 (Zpos q)) in *.
  set (m1 := v * 2 ^ (53 - d)).
  assert (Hm1 : 0 < m1).
  { apply Z.mul_pos_pos; [lia | apply Z.pow_pos_nonneg; lia]. }
  assert (Hdm1 : Zdigits2 m1 = 53).
  { unfold m1. destruct v as [| pv | pv]; try lia.
    rewrite Zdigits2_shift by lia. fold d. lia. }
  destruct (binary_round_aux_exact m1 (d - 53) Hm1 Hdm1 ltac:(lia)) as [R0 R1].
  replace (Z.min (fexp prec emax (d1 + 0 - (d2 + 0))) (0 - 0)) with (d1 - d2 - 53)
    by (unfold fexp, emin, prec, emax; lia).
  replace (0 - 0 - (d1 - d2 - 53)) with (53 + d2 - d1) by lia.
  assert (Hcase : d1 - d2 = d \/ d1 - d2 = d - 1) by lia.
  destruct Hcase as [Hc | Hc].
  - (* the quotient has 53 bits *)
    assert (Hs : 53 + d2 - d1 = 53 - d) by lia.
    assert (Hm' : match 53 + d2 - d1 with
                  | 0 => Zpos p
                  | Zpos _ => Z.shiftl (Zpos p) (53 + d2 - d1)
                  | Zneg _ => 0
                  end = m1 * Zpos q).
    { rewrite Hs. unfold m1. destruct (53 - d) as [| s | s] eqn:Es.
      - rewrite Hp. change (2 ^ 0) with 1. ring.
      - rewrite Z.shiftl_mul_pow2, Hp by lia. ring.
      - lia. }
    rewrite Hm', div_eucl_exact, new_location_zero by lia.
    replace (d1 - d2 - 53) with (d - 53) by lia. exact R0.
  - (* the quotient has 54 bits *)
    assert (Hs : 53 + d2 - d1 = 54 - d) by lia.
    assert (Hm' : match 53 + d2 - d1 with
                  | 0 => Zpos p
                  | Zpos _ => Z.shiftl (Zpos p) (53 + d2 - d1)
                  | Zneg _ => 0
                  end = 2 * m1 * Zpos q).
    { rewrite Hs. unfold m1. destruct (54 - d) as [| s | s] eqn:Es; try lia.
      rewrite Z.shiftl_mul_pow2, Hp by lia.
      replace (Zpos s) with (1 + (53 - d)) by lia.
      rewrite Z.pow_add_r by lia. change (2 ^ 1) with 2. ring. }
    rewrite Hm', div_eucl_exact, new_location_zero by lia.
    replace (d1 - d2 - 53) with (d - 53 - 1) by lia. exact R1.
Qed.

Lemma float_of_integer_exact v k :
  0 < v < 2 ^ 53 ->
  exactly (float_of_decimal (Z.to_N (v * 10 ^ Z.of_nat k)) k)
    (Z.to_N (v * 10 ^ Z.of_nat k)) k.
Proof.
  intros Hv. rewrite float_of_integer by assumption.
  assert (Hd : 1 <= Zdigits2 v <= 53).
  { split; [destruct v; simpl; lia |]. apply Zdigits2_le; lia. }
  set (d := Zdigits2 v) in *.
  assert (Hq : 0 < 10 ^ Z.of_nat k) by (apply Z.pow_pos_nonneg; lia).
  assert (Hm1 : 0 < v * 2 ^ (53 - d)).
  { apply Z.mul_pos_pos; [lia | apply Z.pow_pos_nonneg; lia]. }
  unfold exactly. split; [reflexivity |].
  rewrite Z2Pos.id, Z2N.id by nia.
  destruct (d - 53) as [| e | e] eqn:Ee; try lia.
  - replace (53 - d) with 0 by lia. simpl (2 ^ 0). lia.
  - replace (53 - d) with (Zpos e) by lia. lia.
Qed.

(** *** The substitution and the numeral grammar *)

Section ParserFacts.

Variable nonascii_decimal : codepoint -> option N.
Variable float_repr : float -> pystr.

Abbreviation keep := (keep nonascii_decimal).
Abbreviation noise := (noise nonascii_decimal).
Abbreviation no_digit := (no_digit nonascii_decimal).
Abbreviation re_sub_nondigit := (re_sub_nondigit nonascii_decimal).
Abbreviation parse_price := (parse_price nonascii_decimal float_repr).

Lemma re_sub_nondigit_app a b :
  re_sub_nondigit (a ++ b) = re_sub_nondigit a ++ re_sub_nondigit b.
Proof.
  induction a as [| c a IH]; simpl; [reflexivity |].
  destruct (keep c); simpl; now rewrite IH.
Qed.

Lemma re_sub_nondigit_noise s : Forall noise s -> re_sub_nondigit s = [].
Proof.
  induction 1 as [| c s Hc _ IH]; simpl; [reflexivity |].
  unfold Price.noise in Hc. now rewrite Hc.
Qed.

Lemma re_sub_nondigit_cons_noise c s :
  noise c -> re_sub_nondigit (c :: s) = re_sub_nondigit s.
Proof. intros Hc. simpl. unfold Price.noise in Hc. now rewrite Hc. Qed.

Lemma re_sub_nondigit_surrounded pre body post :
  Forall noise pre -> Forall noise post ->
  re_sub_nondigit (pre ++ body ++ post) = re_sub_nondigit body.
Proof.
  intros Hpre Hpost.
  rewrite !re_sub_nondigit_app, (re_sub_nondigit_noise pre Hpre),
    (re_sub_nondigit_noise post Hpost).
  simpl. now rewrite app_nil_r.
Qed.

(** A string without digits cleans to dots only. *)
Lemma re_sub_nondigit_no_digit s :
  Forall no_digit s -> Forall (fun t => t = TDot) (re_sub_nondigit s).
Proof.
  induction 1 as [| c s Hc _ IH]; simpl; [constructor |].
  unfold Price.keep. unfold Price.no_digit in Hc. rewrite Hc.
  destruct (c =? 46)%N; [constructor |]; auto.
Qed.

Lemma leading_digits_dots ts : Forall (fun t => t = TDot) ts -> leading_digits ts = ([], ts).
Proof. destruct 1 as [| t ts Ht _]; [reflexivity |]. now subst t. Qed.

Lemma numeral_dots_only ts : Forall (fun t => t = TDot) ts -> numeral ts = None.
Proof.
  intros H. unfold numeral. rewrite (leading_digits_dots ts H).
  destruct H as [| t ts Ht Hts]; [reflexivity |]. subst t.
  rewrite (leading_digits_dots ts Hts).
  destruct ts; reflexivity.
Qed.

(** What [leading_digits] leaves starts with a dot, and holds all the dots. *)
Lemma leading_digits_rest ts ds rest :
  leading_digits ts = (ds, rest) ->
  dots ts = dots rest /\ match rest with TDigit _ :: _ => False | _ => True end.
Proof.
  revert ds rest. induction ts as [| t ts IH]; simpl; intros ds rest H.
  - inversion H; subst. now split.
  - destruct t as [d |].
    + destruct (leading_digits ts) as [ds' rest'] eqn:E.
      inversion H; subst. now apply (IH ds').
    + inversion H; subst. now split.
Qed.

(** A numeral has at most one dot. *)
Lemma numeral_dots ts ip fp : numeral ts = Some (ip, fp) -> (dots ts <= 1)%nat.
Proof.
  unfold numeral. intros H.
  destruct (leading_digits ts) as [ds rest] eqn:E1.
  destruct (leading_digits_rest _ _ _ E1) as [Hd _]. rewrite Hd.
  destruct rest as [| [d |] rest']; simpl; [lia | discriminate |].
  destruct (leading_digits rest') as [fs rest''] eqn:E2.
  destruct (leading_digits_rest _ _ _ E2) as [Hd' _]. rewrite Hd'.
  destruct rest''; [simpl; lia | discriminate].
Qed.

(** *** The parser on a string *)

Lemma parse_price_numeral_of s ip fp :
  numeral (re_sub_nondigit s) = Some (ip, fp) ->
  parse_price (PyStr s)
  = ([], Ok (Some (float_of_decimal (digits_value (ip ++ fp)) (length fp)))).
Proof.
  intros H. unfold Price.parse_price.
  destruct s as [| c s]; [discriminate |].
  change (isna (PyStr (c :: s)) || eq_empty_str (PyStr (c :: s))) with false.
  cbv iota. change (str float_repr (PyStr (c :: s))) with (Ok (c :: s)). cbv iota.
  unfold float_of_clean. rewrite H.
  destruct (re_sub_nondigit (c :: s)); [discriminate | reflexivity].
Qed.

Lemma parse_price_not_numeral s :
  numeral (re_sub_nondigit s) = None ->
  snd (parse_price (PyStr s)) = Ok None.
Proof.
  intros H. unfold Price.parse_price.
  destruct s as [| c s]; [reflexivity |].
  change (isna (PyStr (c :: s)) || eq_empty_str (PyStr (c :: s))) with false.
  cbv iota. change (str float_repr (PyStr (c :: s))) with (Ok (c :: s)). cbv iota.
  unfold float_of_clean. rewrite H.
  destruct (re_sub_nondigit (c :: s)); reflexivity.
Qed.

(** [str()] raises on an integer that is too long, and on nothing else. *)
Lemma str_raises v e :
  str float_repr v = Raise e ->
  e = ValueError /\ exists z, v = PyInt z /\ int_too_long z = true.
Proof.
  destruct v as [| f | z | s]; simpl; try discriminate.
  unfold str_of_int. destruct (int_too_long z) eqn:E; [| discriminate].
  intros H. inversion H. split; [reflexivity |]. now exists z.
Qed.

Lemma parse_price_too_long z :
  int_too_long z = true -> parse_price (PyInt z) = ([], Raise ValueError).
Proof.
  intros H. unfold Price.parse_price. simpl. unfold str_of_int. now rewrite H.
Qed.

Lemma parse_price_converted v s :
  str float_repr v = Ok s -> nonneg_or_none (snd (parse_price v)).
Proof.
  intros Hs. unfold Price.parse_price.
  destruct (isna v || eq_empty_str v); [exact I |]. rewrite Hs.
  destruct (Price.re_sub_nondigit _ _) as [| t ts]; [exact I |].
  unfold float_of_clean.
  destruct (numeral (t :: ts)) as [[ip fp] |]; simpl; [| exact I].
  apply float_of_decimal_nonneg.
Qed.

Lemma parse_price_always v :
  (forall z, v = PyInt z -> int_too_long z = false) ->
  nonneg_or_none (snd (parse_price v)).
Proof.
  intros Hv. destruct (str float_repr v) as [s | e] eqn:Hs.
  - eapply parse_price_converted; exact Hs.
  - apply str_raises in Hs as (_ & z & -> & Hz).
    rewrite (Hv z eq_refl) in Hz. discriminate.
Qed.

Lemma parse_price_never_negative v f :
  snd (parse_price v) = Ok (Some f) -> nonneg f = true.
Proof.
  intros H. destruct (str float_repr v) as [s | e] eqn:Hs.
  - pose proof (parse_price_converted v s Hs) as Hn. now rewrite H in Hn.
  - revert H. unfold Price.parse_price.
    destruct (isna v || eq_empty_str v); [discriminate |]. now rewrite Hs.
Qed.

Lemma parse_price_finite v s :
  str float_repr v = Ok s ->
  (forall ip fp,
     numeral (re_sub_nondigit s) = Some (ip, fp) ->
     Z.of_N (digits_value (ip ++ fp)) < 2 ^ 1023 * 10 ^ Z.of_nat (length fp)) ->
  finite_nonneg_or_none (snd (parse_price v)).
Proof.
  intros Hs Hb. unfold Price.parse_price.
  destruct (isna v || eq_empty_str v); [exact I |]. rewrite Hs.
  destruct (Price.re_sub_nondigit _ _) as [| t ts] eqn:E; [exact I |].
  unfold float_of_clean.
  destruct (numeral (t :: ts)) as [[ip fp] |] eqn:En; simpl; [| exact I].
  split; [| apply float_of_decimal_nonneg].
  apply float_of_decimal_finite, Hb. reflexivity.
Qed.

End ParserFacts.

(** *** The claims about [parse_price] *)







(** C9, as stated, fails.  The string "-1e3" denotes the negative number
    -1000; [parse_price] strips the sign and the letter, reads the digits
    that are left as 13 and returns 13.0, which is not the corresponding
    positive amount, 1000. *)
Lemma parse_price_not_the_magnitude :
  exists f,
    snd (Price.parse_price Scenario.ascii_digits_only Scenario.repr_any
           (PyStr (of_ascii "-1e3"))) = Ok (Some f) /\
    exactly f 13 0 /\ ~ exactly f 1000 0.
Proof.
  eexists. split; [vm_compute; reflexivity |].
  split; [vm_compute; split; reflexivity |].
  vm_compute. intros [_ H]. discriminate H.
Qed.

(** C9, amended.  [parse_price] strips the minus sign with the rest of the
    noise.  For every string made of a decimal numeral in positional
    notation (digits with at most one point) and of a minus sign before it,
    with any other noise before the sign, and after it or inside the
    numeral, it returns what it returns for the numeral without the sign, a
    non-negative amount, not a negative one and not "no value": "-500" and
    "$-500" give exactly 500.0.  A negative number in another notation is
    not read as its magnitude: the letter of an exponent is noise too, and
    "-1e3" gives 13.0.  For no input at all does [parse_price] return a
    negative amount. *)
Theorem parse_price_drops_sign
    (nonascii_decimal : codepoint -> option N) (float_repr : float -> pystr) :
  Price.noise nonascii_decimal 45%N /\
  (forall pre r ip fp,
     Forall (Price.noise nonascii_decimal) pre ->
     numeral (Price.re_sub_nondigit nonascii_decimal r) = Some (ip, fp) ->
     let amount := float_of_decimal (digits_value (ip ++ fp)) (length fp) in
     Price.parse_price nonascii_decimal float_repr
       (PyStr (pre ++ of_ascii "-" ++ r))
     = ([], Ok (Some amount)) /\
     Price.parse_price nonascii_decimal float_repr (PyStr r)
     = ([], Ok (Some amount)) /\
     nonneg amount = true) /\
  (exists f,
     snd (Price.parse_price nonascii_decimal float_repr (PyStr (of_ascii "-500")))
     = Ok (Some f) /\ exactly f 500 0) /\
  (exists f,
     snd (Price.parse_price nonascii_decimal float_repr (PyStr (of_ascii "$-500")))
     = Ok (Some f) /\ exactly f 500 0) /\
  (exists f,
     snd (Price.parse_price nonascii_decimal float_repr (PyStr (of_ascii "-1e3")))
     = Ok (Some f) /\ exactly f 13 0) /\
  (forall v f,
     snd (Price.parse_price nonascii_decimal float_repr v) = Ok (Some f) ->
     nonneg f = true).
Proof.
  split; [reflexivity |]. split; [| split; [| split; [| split]]].
  - intros pre r ip fp Hpre H amount. split; [| split].
    + apply parse_price_numeral_of.
      rewrite re_sub_nondigit_app, (re_sub_nondigit_noise _ pre Hpre). exact H.
    + apply parse_price_numeral_of. exact H.
    + apply float_of_decimal_nonneg.
  - eexists. split; [vm_compute; reflexivity |]. vm_compute. split; reflexivity.
  - eexists. split; [vm_compute; reflexivity |]. vm_compute. split; reflexivity.
  - eexists. split; [vm_compute; reflexivity |]. vm_compute. split; reflexivity.
  - intros v f H. eapply parse_price_never_negative; exact H.
Qed.

Lemma parse_price_drops_sign_witness :
  Price.parse_price Scenario.ascii_digits_only Scenario.repr_any
    (PyStr (of_ascii "PKR " ++ of_ascii "-" ++ of_ascii "1,200.50"))
  = ([], Ok (Some (float_of_decimal 120050 2))).
Proof.
  apply (proj1 (proj2 (parse_price_drops_sign
                  Scenario.ascii_digits_only Scenario.repr_any))
           (of_ascii "PKR ") (of_ascii "1,200.50")
           (map N.of_nat [1; 2; 0; 0]%nat) (map N.of_nat [5; 0]%nat)).
  - repeat constructor.
  - vm_compute. reflexivity.
Defined.

End PriceFacts.

(** ** Facts about computations *)

Module EffFacts.
Import Py Eff.

Section Preserves.

Context {St : Type} (R : St -> St -> Prop) `{!PreOrder R}.

Lemma preserves_ret {A} (a : A) : preserves R (ret a).
Proof. intros s. simpl. reflexivity. Qed.

Lemma preserves_raise {A} e : preserves R (raise e : M St A).
Proof. intros s. simpl. reflexivity. Qed.

Lemma preserves_gets {A} (f : St -> A) : preserves R (gets f).
Proof. intros s. simpl. reflexivity. Qed.

Lemma preserves_lift {A} (r : result A) : preserves R (lift r).
Proof. intros s. simpl. reflexivity. Qed.

Lemma preserves_modify (f : St -> St) :
  (forall s, R s (f s)) -> preserves R (modify f).
Proof. intros H s. apply H. Qed.

Lemma preserves_bind {A B} (c : M St A) (k : A -> M St B) :
  preserves R c -> (forall a, preserves R (k a)) -> preserves R (bind c k).
Proof.
  intros Hc Hk s. unfold bind. specialize (Hc s).
  destruct (c s) as [[a | e] s']; simpl in *; [| exact Hc].
  etransitivity; [exact Hc | apply Hk].
Qed.

Lemma preserves_for_each {A} (xs : list A) (body : A -> M St unit) :
  (forall x, preserves R (body x)) -> preserves R (for_each xs body).
Proof.
  intros Hb. induction xs as [| x xs IH]; simpl.
  - apply preserves_ret.
  - apply preserves_bind; auto.
Qed.

Lemma preserves_try_except {A} (body : M St A) (handler : exn -> M St A) :
  preserves R body -> (forall e, preserves R (handler e)) ->
  preserves R (try_except body handler).
Proof.
  intros Hb Hh s. unfold try_except. specialize (Hb s).
  destruct (body s) as [[a | e] s']; simpl in *; [exact Hb |].
  etransitivity; [exact Hb | apply Hh].
Qed.

End Preserves.

Lemma preserves_zoom {St T A} (R : St -> St -> Prop) (Q : T -> T -> Prop)
    (get : St -> T) (set : T -> St -> St) (c : M T A) :
  (forall s t, Q (get s) t -> R s (set t s)) ->
  preserves Q c -> preserves R (zoom get set c).
Proof.
  intros H Hc s. unfold zoom. specialize (Hc (get s)).
  destruct (c (get s)) as [r t]. simpl in *. now apply H.
Qed.

Lemma preserves_weaken {St A} (R R' : St -> St -> Prop) (c : M St A) :
  (forall s s', R s s' -> R' s s') -> preserves R c -> preserves R' c.
Proof. intros H Hc s. apply H, Hc. Qed.

(** One step through the structure of a computation. *)
Ltac pres_step :=
  lazymatch goal with
  | |- preserves _ (ret _) => apply preserves_ret; apply _
  | |- preserves _ (raise _) => apply preserves_raise; apply _
  | |- preserves _ (gets _) => apply preserves_gets; apply _
  | |- preserves _ (lift _) => apply preserves_lift; apply _
  | |- preserves _ (bind _ _) => apply preserves_bind; [apply _ | | intros ?]
  | |- preserves _ (for_each _ _) => apply preserves_for_each; [apply _ | intros ?]
  | |- preserves _ (try_except _ _) =>
      apply preserves_try_except; [apply _ | | intros ?]
  | |- preserves _ (match ?x with _ => _ end) => destruct x
  end.

End EffFacts.

(** ** Facts about the store *)

Module StoreFacts.
Import Py Eff Store EffFacts.

#[export] Instance extends_preorder : PreOrder extends.
Proof.
  split.
  - intros t. split; reflexivity.
  - intros t1 t2 t3 [] []. split; try congruence; etransitivity; eassumption.
Qed.

#[export] Instance stmt_rel_preorder Q `{!PreOrder Q} : PreOrder (stmt_rel Q).
Proof.
  split.
  - intros c. split; reflexivity.
  - intros c1 c2 c3 [H1 H2] [H3 H4]. split; [congruence |].
    etransitivity; eassumption.
Qed.

Lemma execute_preserves {A} (Q : tables -> tables -> Prop) `{!Reflexive Q}
    (s : statement) (sem : tables -> sequences -> result (A * tables) * sequences) :
  (forall t sq a t' sq', sem t sq = (Ok (a, t'), sq') -> Q t t') ->
  preserves (stmt_rel Q) (execute s sem).
Proof.
  intros H c. unfold execute.
  destruct (sem (pending c) (seqs c)) as [[[a t'] | e] sq'] eqn:E; simpl.
  - split; [reflexivity | eapply H; eauto].
  - split; reflexivity.
Qed.

#[export] Instance keeps_durable_preorder : PreOrder keeps_durable.
Proof.
  split; [intros c; reflexivity |].
  intros c1 c2 c3 H1 H2. unfold keeps_durable in *. congruence.
Qed.

Lemma execute_keeps_durable {A} (s : statement)
    (sem : tables -> sequences -> result (A * tables) * sequences) :
  preserves keeps_durable (execute s sem).
Proof.
  intros c. unfold execute, keeps_durable.
  destruct (sem (pending c) (seqs c)) as [[[a t'] | e] sq']; reflexivity.
Qed.

Lemma prefix_snoc {A} (l : list A) (x : A) : l `prefix_of` l ++ [x].
Proof. now exists [x]. Qed.

Ltac stmt_cases :=
  repeat match goal with
         | H : (_, _) = (_, _) |- _ => inversion H; subst; clear H
         | H : Ok _ = Ok _ |- _ => inversion H; subst; clear H
         | H : Raise _ = Ok _ |- _ => discriminate H
         | H : Ok _ = Raise _ |- _ => discriminate H
         | H : context [match ?x with _ => _ end] |- _ =>
             let E := fresh "E" in destruct x eqn:E; try discriminate
         | H : context [let '(_, _) := ?x in _] |- _ =>
             let E := fresh "E" in destruct x eqn:E; try discriminate
         end.

#[export] Instance adds_reference_preorder : PreOrder adds_reference.
Proof.
  split.
  - intros t. split; reflexivity.
  - intros t1 t2 t3 [] []. split; try congruence; etransitivity; eassumption.
Qed.

(** The SELECTs of the import path change nothing, and the INSERTs of a
    company or a processor append one row to their table. *)
Lemma select_company_id_reference name :
  preserves (stmt_rel adds_reference) (select_company_id name).
Proof.
  apply execute_preserves; [apply _ |]. intros t sq a t' sq' H.
  stmt_cases; reflexivity.
Qed.

Lemma select_processor_id_reference name :
  preserves (stmt_rel adds_reference) (select_processor_id name).
Proof.
  apply execute_preserves; [apply _ |]. intros t sq a t' sq' H.
  stmt_cases; reflexivity.
Qed.

Lemma select_regions_reference : preserves (stmt_rel adds_reference) select_regions.
Proof.
  apply execute_preserves; [apply _ |]. intros t sq a t' sq' H.
  stmt_cases; reflexivity.
Qed.

Lemma insert_company_reference name :
  preserves (stmt_rel adds_reference) (insert_company name).
Proof.
  apply execute_preserves; [apply _ |]. intros t sq a t' sq' H.
  unfold db_raise in H. stmt_cases.
  split; simpl; try reflexivity. apply prefix_snoc.
Qed.

Lemma insert_processor_reference name :
  preserves (stmt_rel adds_reference) (insert_processor name).
Proof.
  apply execute_preserves; [apply _ |]. intros t sq a t' sq' H.
  unfold db_raise in H. stmt_cases.
  split; simpl; try reflexivity. apply prefix_snoc.
Qed.

Lemma find_none_filter {A} (f : A -> bool) (P : A -> Prop)
    `{!forall x, Decision (P x)} (l : list A) :
  (forall x, P x -> f x = true) -> List.find f l = None -> filter P l = [].
Proof.
  intros Hf. induction l as [| x l IH]; simpl; [reflexivity |].
  destruct (f x) eqn:E; [discriminate |]. intros Hn.
  rewrite filter_cons. destruct (decide (P x)) as [Hx | Hx]; [| now apply IH].
  apply Hf in Hx. congruence.
Qed.

(** What the SELECT of a model finds: when it finds nothing for a name that
    is a string, no model has this name and company. *)
Lemma select_model_id_outcome name company c :
  durable (snd (select_model_id name company c)) = durable c /\
  pending (snd (select_model_id name company c)) = pending c /\
  forall s, fst (select_model_id name company c) = Ok None -> name = PyStr s ->
            models_named s company (pending c) = [].
Proof.
  unfold select_model_id, execute.
  destruct name as [| f | z | s]; simpl; [| | | destruct (has_nul s); simpl];
    repeat split; try discriminate.
  intros s' H E. inversion E; subst s'; clear E.
  destruct (List.find _ (models (pending c))) as [m |] eqn:F; [discriminate |].
  unfold models_named. eapply find_none_filter; [| exact F].
  intros m [H1 H2]. simpl. rewrite bool_decide_eq_true_2 by assumption.
  now apply Z.eqb_eq.
Qed.

(** What the INSERT of a model does: it appends one row with the name and
    the company of its parameters, or raises and changes no table. *)
Lemma insert_model_outcome p c :
  durable (snd (insert_model p c)) = durable c /\
  match fst (insert_model p c) with
  | Raise _ => pending (snd (insert_model p c)) = pending c
  | Ok id =>
      exists row,
        pending (snd (insert_model p c))
        = set_models (models (pending c) ++ [row]) (pending c) /\
        model_id row = id /\
        p_model_name p = PyStr (model_name row) /\
        p_company_id p = Some (model_company_id row)
  end.
Proof.
  unfold insert_model, execute, model_name_param.
  destruct (adapt_model_params p); simpl; try (split; reflexivity).
  unfold checked_model, db_raise.
  destruct (text_param (p_model_name p)) as [[name |] | e] eqn:Ht; simpl;
    try (split; reflexivity).
  destruct (p_company_id p) as [cid |] eqn:Hc; simpl; try (split; reflexivity).
  destruct (negb (has_company cid (pending c))); simpl; try (split; reflexivity).
  destruct (match p_processor_id p with Some _ => _ | None => _ end); simpl;
    try (split; reflexivity).
  destruct (has_model _ (pending c)); simpl; try (split; reflexivity).
  split; [reflexivity |]. eexists. split; [reflexivity |]. simpl.
  split; [reflexivity |]. split; [| reflexivity].
  destruct (p_model_name p) as [| f | z | s]; simpl in Ht; try congruence.
  destruct (has_nul s); congruence.
Qed.

Lemma select_price_id_outcome m r c :
  durable (snd (select_price_id m r c)) = durable c /\
  pending (snd (select_price_id m r c)) = pending c /\
  exists found, fst (select_price_id m r c) = Ok found /\
                (found = None -> prices_for m r (pending c) = []).
Proof.
  unfold select_price_id, execute. simpl. repeat split.
  eexists. split; [reflexivity |].
  destruct (List.find _ (prices (pending c))) as [x |] eqn:F; [discriminate |].
  intros _. unfold prices_for. eapply find_none_filter; [| exact F]. auto.
Qed.

(** What the INSERT of a price does: it appends one row for its pair, or
    raises and changes no table. *)
Lemma insert_price_outcome m r amount c :
  durable (snd (insert_price m r amount c)) = durable c /\
  match fst (insert_price m r amount c) with
  | Raise _ => pending (snd (insert_price m r amount c)) = pending c
  | Ok _ =>
      exists row,
        pending (snd (insert_price m r amount c))
        = set_prices (prices (pending c) ++ [row]) (pending c) /\
        price_model_id row = m /\ price_region_id row = r /\
        price_amount row = amount
  end.
Proof.
  unfold insert_price, execute, checked_price, db_raise. simpl.
  destruct (pair_taken m r _); simpl; try (split; reflexivity).
  destruct (negb _ || negb _); simpl; try (split; reflexivity).
  destruct (existsb _ (prices (pending c))); simpl; try (split; reflexivity).
  split; [reflexivity |]. eexists. repeat split.
Qed.

Lemma prices_for_prefix m r t t' new :
  prices t' = prices t ++ new -> prices_for m r t' = [] -> prices_for m r t = [].
Proof.
  unfold prices_for. intros ->. rewrite filter_app. intros H.
  now apply app_eq_nil in H as [H _].
Qed.

Lemma models_named_prefix s c t t' new :
  models t' = models t ++ new -> models_named s c t' = [] -> models_named s c t = [].
Proof.
  unfold models_named. intros ->. rewrite filter_app. intros H.
  now apply app_eq_nil in H as [H _].
Qed.

#[export] Instance net_new_preorder : PreOrder net_new.
Proof.
  split.
  - intros t. split; [reflexivity | |]; exists []; now rewrite app_nil_r.
  - intros t1 t2 t3 [E1 [n1 [M1 F1]] [q1 [P1 G1]]] [E2 [n2 [M2 F2]] [q2 [P2 G2]]].
    split.
    + etransitivity; eassumption.
    + exists (n1 ++ n2). split; [rewrite M2, M1; now rewrite app_assoc |].
      apply Forall_app. split; [exact F1 |].
      eapply Forall_impl; [exact F2 |]. intros m Hm. simpl in Hm.
      eapply models_named_prefix; eassumption.
    + exists (q1 ++ q2). split; [rewrite P2, P1; now rewrite app_assoc |].
      apply Forall_app. split; [exact G1 |].
      eapply Forall_impl; [exact G2 |]. intros x Hx. simpl in Hx.
      eapply prices_for_prefix; eassumption.
Qed.

(** Under [net_new], a pair that has a price keeps exactly its rows, and a
    (name, company) that has a model keeps exactly its rows. *)
Lemma net_new_prices_kept t t' m r :
  net_new t t' -> prices_for m r t <> [] -> prices_for m r t' = prices_for m r t.
Proof.
  intros [_ _ [new [Hp Hnew]]] Hne. unfold prices_for in *. rewrite Hp, filter_app.
  clear Hp.
  replace (filter (fun p => same_pair m r p = true) new) with (@nil price);
    [now rewrite app_nil_r |].
  symmetry. induction Hnew as [| p new Hp' _ IH]; [reflexivity |].
  rewrite filter_cons. destruct (decide (same_pair m r p = true)) as [Hs | Hs];
    [| exact IH].
  exfalso. apply Hne. unfold same_pair in Hs.
  apply andb_true_iff in Hs as [H1 H2]. apply Z.eqb_eq in H1, H2.
  now rewrite <- H1, <- H2.
Qed.

Lemma net_new_models_kept t t' name company :
  net_new t t' -> models_named name company t <> [] ->
  models_named name company t' = models_named name company t.
Proof.
  intros [_ [new [Hm Hnew]] _] Hne. unfold models_named in *. rewrite Hm, filter_app.
  clear Hm.
  replace (filter (fun m => model_name m = name /\ model_company_id m = company) new)
    with (@nil model); [now rewrite app_nil_r |].
  symmetry. induction Hnew as [| m new Hm' _ IH]; [reflexivity |].
  rewrite filter_cons.
  destruct (decide (model_name m = name /\ model_company_id m = company))
    as [[H1 H2] | Hs]; [| exact IH].
  exfalso. apply Hne. now rewrite <- H1, <- H2.
Qed.

Lemma adds_reference_net_new t t' : adds_reference t t' -> net_new t t'.
Proof.
  intros []. split.
  - split; try assumption; [now rewrite ar_models0 | now rewrite ar_prices0].
  - exists []. now rewrite app_nil_r.
  - exists []. now rewrite app_nil_r.
Qed.

End StoreFacts.



(** ** Facts about the catalog store *)

Module CatalogFacts.
Import Py Eff Store Catalog EffFacts StoreFacts.
Local Open Scope eff_scope.

(** *** One scope, one transaction *)

Lemma get_cursor_outcome {A} (body : M Store.connection A) (db : database) :
  preserves keeps_durable body ->
  clean (connection (snd (get_cursor body db))) /\
  match body (connection db) with
  | (Ok a, c) =>
      fst (get_cursor body db) = Ok a /\
      stored (snd (get_cursor body db)) = pending c
  | (Raise e, c) =>
      fst (get_cursor body db) = Raise e /\
      stored (snd (get_cursor body db)) = stored db
  end.
Proof.
  intros Hb. unfold get_cursor. specialize (Hb (connection db)).
  destruct (body (connection db)) as [[a | e] c]; simpl in *.
  - repeat split.
  - repeat split. exact Hb.
Qed.

Lemma get_cursor_settled {A} (body : M Store.connection A) (db : database) :
  preserves keeps_durable body ->
  settled db (unit_of (get_cursor body) db).
Proof.
  intros Hb. destruct (get_cursor_outcome body db Hb) as [Hc Ho].
  unfold settled, unit_of, bind.
  destruct (body (connection db)) as [[a | e] c] eqn:E;
    destruct Ho as [Hr Hs];
    destruct (get_cursor body db) as [r db'] eqn:G; simpl in *; subst r; simpl.
  - split; [exact Hc | discriminate].
  - split; [exact Hc | intros _ _; exact Hs].
Qed.

Lemma settled_unit (c : M database unit) db :
  settled db (unit_of c db) -> settled db (c db).
Proof.
  unfold settled, unit_of, bind, ret.
  destruct (c db) as [[[] | e] db']; simpl; auto.
Qed.

Lemma get_or_create_processor_body_keeps name :
  preserves keeps_durable
    (do result <- select_processor_id (PyStr name);
     match result with
     | Some processor_id => ret processor_id
     | None => insert_processor (PyStr name)
     end).
Proof.
  apply preserves_bind; [apply _ | apply execute_keeps_durable |].
  intros [id |]; [apply preserves_ret; apply _ | apply execute_keeps_durable].
Qed.

Lemma resolve_processor_clean d db :
  names_processor d = true ->
  clean (connection (snd (resolve_processor d db))) /\
  forall e, fst (resolve_processor d db) = Raise e ->
            stored (snd (resolve_processor d db)) = stored db.
Proof.
  unfold names_processor, resolve_processor.
  destruct (md_processor_name d) as [name |]; [| discriminate].
  intros Ht. rewrite Ht.
  pose proof (get_cursor_settled _ db
                (get_or_create_processor_body_keeps name)) as H.
  unfold settled, unit_of, bind, ret, get_or_create_processor in *.
  destruct (get_cursor _ db) as [[a | e] db']; simpl in *;
    destruct H as [Hc Hs]; (split; [exact Hc |]); [discriminate |].
  intros e0 _. now apply (Hs e).
Qed.

Lemma perform_settled op db :
  clean (connection (snd (perform op db))) /\
  (single_scope op ->
   forall e, fst (perform op db) = Raise e -> stored (snd (perform op db)) = stored db).
Proof.
  assert (Hs : forall c : M database unit,
             settled db (c db) ->
             clean (connection (snd (c db))) /\
             (forall e, fst (c db) = Raise e -> stored (snd (c db)) = stored db)).
  { intros c H. exact H. }
  assert (Hmodel : forall d (stmt : model_params -> M Store.connection unit),
             (forall p, preserves keeps_durable (stmt p)) ->
             let c := (do processor_id <- resolve_processor d;
                       get_cursor (stmt (params_of d processor_id))) in
             clean (connection (snd (c db))) /\
             (names_processor d = false ->
              forall e, fst (c db) = Raise e -> stored (snd (c db)) = stored db)).
  { intros d stmt Hstmt c. subst c. unfold bind.
    destruct (names_processor d) eqn:Ht.
    - destruct (resolve_processor_clean d db Ht) as [Hc _].
      destruct (resolve_processor d db) as [[pid | e] db1]; simpl in *.
      + destruct (get_cursor_outcome (stmt (params_of d pid)) db1 (Hstmt _)) as [Hc' _].
        split; [exact Hc' | discriminate].
      + split; [exact Hc | discriminate].
    - assert (Hnone : resolve_processor d db = (Ok None, db)).
      { unfold names_processor in Ht. unfold resolve_processor.
        destruct (md_processor_name d) as [name |]; [| reflexivity].
        now rewrite Ht. }
      rewrite Hnone.
      destruct (get_cursor_outcome (stmt (params_of d None)) db (Hstmt _)) as [Hc' Ho].
      split; [exact Hc' |]. intros _ e He.
      destruct (stmt (params_of d None) (connection db)) as [[a | e'] c'];
        destruct Ho as [Hr Hst]; [congruence | exact Hst]. }
  destruct op as [n | i n | i | d | i d | i | m r a | i | n]; simpl.
  - split; [| intros _]; apply (Hs (unit_of (add_company n)));
      apply get_cursor_settled, execute_keeps_durable.
  - split; [| intros _]; apply (Hs (update_company i n));
      apply settled_unit, get_cursor_settled, execute_keeps_durable.
  - split; [| intros _]; apply (Hs (delete_company i));
      apply settled_unit, get_cursor_settled, execute_keeps_durable.
  - pose proof (Hmodel d (fun p => do _ <- insert_model p; ret tt)) as H.
    assert (Hk : forall p, preserves keeps_durable (do _ <- insert_model p; ret tt)).
    { intros p. apply preserves_bind; [apply _ | apply execute_keeps_durable |].
      intros _. apply preserves_ret. apply _. }
    specialize (H Hk). clear Hmodel Hs Hk.
    unfold unit_of, add_model, bind, get_cursor, ret in *.
    destruct (resolve_processor d db) as [[pid | e] db1]; simpl in *;
      [| exact H].
    destruct (insert_model (params_of d pid) (connection db1))
      as [[x | e] c']; simpl in *; exact H.
  - apply (Hmodel d (update_model_row i)).
    intros p. apply execute_keeps_durable.
  - split; [| intros _]; apply (Hs (delete_model i));
      apply settled_unit, get_cursor_settled, execute_keeps_durable.
  - split; [| intros _]; apply (Hs (add_or_update_price m r a));
      apply settled_unit, get_cursor_settled, execute_keeps_durable.
  - split; [| intros _]; apply (Hs (delete_price i));
      apply settled_unit, get_cursor_settled, execute_keeps_durable.
  - split; [| intros _]; apply (Hs (unit_of (get_or_create_processor n)));
      apply get_cursor_settled, get_or_create_processor_body_keeps.
Qed.

(** When the statement of [add_model] or [update_model] raises, the store is
    left as the resolution of the processor left it. *)
Lemma model_statement_rolled_back {A} d (stmt : model_params -> M Store.connection A) db e db' :
  (forall p, preserves keeps_durable (stmt p)) ->
  (do processor_id <- resolve_processor d;
   get_cursor (stmt (params_of d processor_id))) db = (Raise e, db') ->
  stored db' = stored (snd (resolve_processor d db)).
Proof.
  intros Hstmt. unfold bind.
  destruct (resolve_processor d db) as [[pid | e1] db1]; simpl.
  - intros H.
    destruct (get_cursor_outcome (stmt (params_of d pid)) db1 (Hstmt _)) as [_ Ho].
    rewrite H in Ho. simpl in Ho.
    destruct (stmt (params_of d pid) (connection db1)) as [[a | e'] c'];
      destruct Ho as [Hr Hs]; [discriminate | exact Hs].
  - intros H. now inversion H.
Qed.

(** C2, as stated, fails.  [add_model] for a company that does not exist and
    a processor that is new raises (the INSERT violates the foreign key), yet
    the store is not what it was: the processor row has been committed. *)
Lemma add_model_keeps_processor :
  exists e db',
    add_model Scenario.orphan_model Scenario.fresh_database = (Raise e, db') /\
    stored db' <> stored Scenario.fresh_database /\
    processors (stored db')
    = [ {| processor_id := 1; processor_name := of_ascii "Chip1" |} ].
Proof.
  eexists _, _. split; [vm_compute; reflexivity |].
  split; [| vm_compute; reflexivity].
  vm_compute. intros H. discriminate H.
Qed.

(** C2, amended.  Every [get_cursor] scope is exactly one transaction: when
    its body succeeds its writes are committed, and when a statement raises
    the same error propagates after every write of the scope has been rolled
    back.  After any operation nothing is left pending.  The operations that
    open one scope (add, rename and delete a company, delete a model, upsert
    and delete a price, [get_or_create_processor], and [add_model] and
    [update_model] when the model data names no processor) leave the store
    unchanged when they raise.  [add_model] and [update_model] with a
    processor name open two scopes: when they raise, the store is left as the
    resolution of the processor left it, so only the model statement is
    rolled back. *)
Theorem one_transaction_per_scope :
  (forall (A : Type) (body : M Store.connection A) (db : database),
     preserves keeps_durable body ->
     clean (connection (snd (get_cursor body db))) /\
     match body (connection db) with
     | (Ok a, c) =>
         fst (get_cursor body db) = Ok a /\
         stored (snd (get_cursor body db)) = pending c
     | (Raise e, c) =>
         fst (get_cursor body db) = Raise e /\
         stored (snd (get_cursor body db)) = stored db
     end) /\
  (forall op db,
     clean (connection (snd (perform op db))) /\
     (single_scope op ->
      forall e, fst (perform op db) = Raise e ->
                stored (snd (perform op db)) = stored db)) /\
  (forall d db e db',
     add_model d db = (Raise e, db') ->
     stored db' = stored (snd (resolve_processor d db))) /\
  (forall i d db e db',
     update_model i d db = (Raise e, db') ->
     stored db' = stored (snd (resolve_processor d db))).
Proof.
  split; [| split; [| split]].
  - intros A body db. apply get_cursor_outcome.
  - apply perform_settled.
  - intros d db e db'. apply model_statement_rolled_back.
    intros p. apply execute_keeps_durable.
  - intros i d db e db'. apply model_statement_rolled_back.
    intros p. apply execute_keeps_durable.
Qed.

Lemma one_transaction_per_scope_witness :
  stored (snd (perform (AddCompany (of_ascii "Acme")) Scenario.one_model_database))
  = stored Scenario.one_model_database.
Proof.
  apply (proj2 (proj1 (proj2 one_transaction_per_scope)
                  (AddCompany (of_ascii "Acme")) Scenario.one_model_database)
           I (DatabaseError UniqueViolation)).
  vm_compute. reflexivity.
Defined.

(** *** The price upsert *)

Lemma same_pair_set_amount m r a p : same_pair m r (set_amount a p) = same_pair m r p.
Proof. reflexivity. Qed.

Lemma same_pair_overwrite m' r' m r a p :
  same_pair m' r' (overwrite m r a p) = same_pair m' r' p.
Proof. unfold overwrite. now destruct (same_pair m r p). Qed.

Lemma filter_pair_overwrite m' r' m r a (l : list price) :
  filter (fun p => same_pair m' r' p = true) (map (overwrite m r a) l)
  = map (overwrite m r a) (filter (fun p => same_pair m' r' p = true) l).
Proof.
  induction l as [| p l IH]; [reflexivity |].
  simpl. rewrite !filter_cons, same_pair_overwrite.
  destruct (decide (same_pair m' r' p = true)); simpl; now rewrite IH.
Qed.

Lemma filter_pair_none m r (l : list price) :
  existsb (same_pair m r) l = false ->
  filter (fun p => same_pair m r p = true) l = [].
Proof.
  induction l as [| p l IH]; [reflexivity |].
  simpl. intros H. apply orb_false_iff in H as [Hp Hl].
  rewrite filter_cons. destruct (decide (same_pair m r p = true)); [congruence |].
  now apply IH.
Qed.

Lemma filter_pair_some m r (l : list price) :
  existsb (same_pair m r) l = true ->
  filter (fun p => same_pair m r p = true) l <> [].
Proof.
  induction l as [| p l IH]; [discriminate |].
  simpl. intros H. rewrite filter_cons.
  destruct (decide (same_pair m r p = true)) as [Hp | Hp]; [discriminate |].
  apply IH. apply not_true_is_false in Hp. now rewrite Hp in H.
Qed.

Lemma map_overwrite_same m r a (l : list price) :
  map (overwrite m r a) (filter (fun p => same_pair m r p = true) l)
  = map (set_amount a) (filter (fun p => same_pair m r p = true) l).
Proof.
  induction l as [| p l IH]; [reflexivity |].
  rewrite filter_cons.
  destruct (decide (same_pair m r p = true)) as [Hp | Hp]; [| exact IH].
  simpl. rewrite IH. unfold overwrite. now rewrite Hp.
Qed.

Lemma same_pair_new m' r' id m r a :
  same_pair m' r' {| price_id := id; price_model_id := m;
                     price_region_id := r; price_amount := a |} = true ->
  m' = m /\ r' = r.
Proof.
  unfold same_pair. simpl. intros H. apply andb_true_iff in H as [H1 H2].
  apply Z.eqb_eq in H1, H2. now subst.
Qed.

(** What a successful upsert has done: overwritten the rows of the pair, or
    appended one when there was none. *)
Lemma add_or_update_price_ok m r a db db' :
  add_or_update_price m r a db = (Ok tt, db') ->
  let t := pending (connection db) in
  clean (connection db') /\
  ((existsb (same_pair m r) (prices t) = true /\
    stored db' = set_prices (map (overwrite m r a) (prices t)) t) \/
   (existsb (same_pair m r) (prices t) = false /\
    exists id,
      stored db' = set_prices
                     (prices t ++ [ {| price_id := id; price_model_id := m;
                                       price_region_id := r; price_amount := a |} ]) t)).
Proof.
  unfold add_or_update_price, get_cursor, upsert_price, execute, checked_price,
    db_raise, stored, pair_taken.
  destruct (draw_price (seqs (connection db))) as [id sq'].
  destruct (existsb (same_pair m r) (prices (pending (connection db)))) eqn:Ex.
  - intros H. inversion H; subst; clear H. simpl.
    split; [reflexivity |]. left. split; reflexivity.
  - destruct (negb _ || negb _); [discriminate |].
    destruct (existsb (fun p => price_id p =? id) _); [discriminate |].
    intros H. inversion H; subst; clear H. simpl.
    split; [reflexivity |]. right. split; [reflexivity |]. now exists id.
Qed.

Lemma pairs_unique_overwrite m r a t :
  pairs_unique t -> pairs_unique (set_prices (map (overwrite m r a) (prices t)) t).
Proof.
  intros H m' r'. unfold prices_for. simpl.
  rewrite filter_pair_overwrite, length_map. apply H.
Qed.

Lemma pairs_unique_append id m r a t :
  existsb (same_pair m r) (prices t) = false ->
  pairs_unique t ->
  pairs_unique (set_prices
                  (prices t ++ [ {| price_id := id; price_model_id := m;
                                    price_region_id := r; price_amount := a |} ]) t).
Proof.
  intros Hn H m' r'. unfold prices_for. simpl.
  rewrite filter_app, length_app, filter_cons, filter_nil.
  destruct (decide (same_pair m' r' _ = true)) as [Hs | Hs]; simpl.
  - apply same_pair_new in Hs as [-> ->].
    rewrite (filter_pair_none _ _ _ Hn). simpl. lia.
  - specialize (H m' r'). unfold prices_for in H. lia.
Qed.

(** C6.  Starting from a store that satisfies the uniqueness constraint on
    (model, region), two successful upserts of a price for the same pair,
    with amounts [a1] then [a2], leave exactly one price row for the pair,
    and it carries [a2].  The first call appends a row when the pair has
    none; the second call overwrites the amount of the row in place (same
    row, same position, no other row touched); the uniqueness constraint
    holds after each call. *)
Theorem upsert_twice_one_row m r a1 a2 db db1 db2 :
  clean (connection db) ->
  pairs_unique (stored db) ->
  add_or_update_price m r a1 db = (Ok tt, db1) ->
  add_or_update_price m r a2 db1 = (Ok tt, db2) ->
  (exists p,
     prices_for m r (stored db1) = [set_amount a1 p] /\
     prices_for m r (stored db2) = [set_amount a2 p] /\
     price_amount (set_amount a2 p) = a2 /\
     (prices_for m r (stored db) = [] ->
      prices (stored db1) = prices (stored db) ++ [set_amount a1 p]) /\
     (prices_for m r (stored db) <> [] -> prices_for m r (stored db) = [p])) /\
  prices (stored db2) = map (overwrite m r a2) (prices (stored db1)) /\
  pairs_unique (stored db1) /\ pairs_unique (stored db2).
Proof.
  intros Hclean Hu H1 H2.
  apply add_or_update_price_ok in H1 as [Hc1 H1].
  apply add_or_update_price_ok in H2 as [Hc2 H2].
  unfold clean in Hclean, Hc1. unfold stored in *.
  rewrite Hclean in H1. rewrite Hc1 in H2.
  set (t := durable (connection db)) in *.
  set (t1 := durable (connection db1)) in *.
  assert (Hu1 : pairs_unique t1).
  { destruct H1 as [[_ ->] | [Hn [id ->]]].
    - now apply pairs_unique_overwrite.
    - now apply pairs_unique_append. }
  assert (Hp1 : exists p,
             prices_for m r t1 = [set_amount a1 p] /\
             (prices_for m r t = [] -> prices t1 = prices t ++ [set_amount a1 p]) /\
             (prices_for m r t <> [] -> prices_for m r t = [p])).
  { destruct H1 as [[Hex ->] | [Hn [id ->]]].
    - pose proof (filter_pair_some _ _ _ Hex) as Hne.
      specialize (Hu m r). unfold prices_for in *.
      destruct (filter _ (prices t)) as [| p [| q l]] eqn:Ef;
        [congruence | | simpl in Hu; lia].
      exists p. simpl. rewrite filter_pair_overwrite, map_overwrite_same, Ef.
      split; [reflexivity |]. split; [congruence | reflexivity].
    - exists {| price_id := id; price_model_id := m;
                price_region_id := r; price_amount := a1 |}.
      unfold prices_for. simpl.
      rewrite filter_app, (filter_pair_none _ _ _ Hn), filter_cons, filter_nil.
      rewrite decide_True
        by (unfold same_pair; simpl; now rewrite !Z.eqb_refl).
      split; [reflexivity |]. split; [reflexivity |].
      intros Hne. now contradiction Hne. }
  destruct Hp1 as [p (Hp1 & Hins & Hupd)].
  assert (Hex1 : existsb (same_pair m r) (prices t1) = true).
  { destruct (existsb (same_pair m r) (prices t1)) eqn:E; [reflexivity |].
    apply filter_pair_none in E. unfold prices_for in Hp1. congruence. }
  destruct H2 as [[_ H2] | [Hn _]]; [| congruence].
  rewrite H2. split; [| split; [| split]].
  - exists p. split; [exact Hp1 |]. split; [| split; [reflexivity | split; assumption]].
    unfold prices_for in *. simpl.
    rewrite filter_pair_overwrite, map_overwrite_same, Hp1. reflexivity.
  - reflexivity.
  - exact Hu1.
  - now apply pairs_unique_overwrite.
Qed.

Lemma upsert_twice_one_row_witness :
  exists p,
    prices_for 1 1 (stored (snd (add_or_update_price 1 1 Scenario.amount_1500
                                   (snd (add_or_update_price 1 1 Scenario.amount_1200
                                           Scenario.one_model_database)))))
    = [set_amount Scenario.amount_1500 p].
Proof.
  destruct (upsert_twice_one_row 1 1 Scenario.amount_1200 Scenario.amount_1500
              Scenario.one_model_database
              (snd (add_or_update_price 1 1 Scenario.amount_1200
                      Scenario.one_model_database))
              (snd (add_or_update_price 1 1 Scenario.amount_1500
                      (snd (add_or_update_price 1 1 Scenario.amount_1200
                              Scenario.one_model_database)))))
    as [[p (_ & Hp & _)] _].
  - reflexivity.
  - intros m r. vm_compute. lia.
  - vm_compute. reflexivity.
  - vm_compute. reflexivity.
  - exists p. exact Hp.
Defined.

End CatalogFacts.

(** ** Facts about the importer *)

Module ImporterFacts.
Import Py Eff Store Importer EffFacts StoreFacts.
Local Open Scope eff_scope.

(** *** The name caches *)

#[export] Instance caches_grow_preorder : PreOrder caches_grow.
Proof.
  split.
  - intros st. split; reflexivity.
  - intros s1 s2 s3 [H1 H2] [H3 H4]. split; etransitivity; eassumption.
Qed.

Lemma caches_grow_same st st' :
  company_cache st' = company_cache st ->
  processor_cache st' = processor_cache st ->
  caches_grow st st'.
Proof. intros H1 H2. unfold caches_grow. rewrite H1, H2. split; reflexivity. Qed.

Lemma on_cursor_caches {A} (c : M connection A) : preserves caches_grow (on_cursor c).
Proof.
  intros st. unfold on_cursor, zoom. destruct (c (conn st)) as [r t].
  now apply caches_grow_same.
Qed.

Lemma emit_caches es : preserves caches_grow (emit es).
Proof. intros st. now apply caches_grow_same. Qed.

Lemma cache_set_grows (key : pyval) (id : Z) (cache : gmap pystr Z) :
  cache_get key cache = None -> cache ⊆ cache_set key id cache.
Proof.
  destruct key; simpl; intros H; try reflexivity.
  now apply insert_subseteq.
Qed.

Lemma get_or_create_company_caches name :
  preserves caches_grow (get_or_create_company name).
Proof.
  intros st. unfold get_or_create_company, bind, gets, ret, on_cursor, zoom,
    modify, emit.
  destruct (cache_get name (company_cache st)) as [id |] eqn:Hc; simpl;
    [reflexivity |].
  destruct (select_company_id name (conn st)) as [[[id |] | e] c1]; simpl.
  - split; simpl; [now apply cache_set_grows | reflexivity].
  - destruct (insert_company name c1) as [[id | e] c2]; simpl.
    + split; simpl; [now apply cache_set_grows | reflexivity].
    + now apply caches_grow_same.
  - now apply caches_grow_same.
Qed.

Lemma get_or_create_processor_caches name :
  preserves caches_grow (get_or_create_processor name).
Proof.
  intros st. unfold get_or_create_processor.
  destruct (isna name || eq_empty_str name); [reflexivity |].
  unfold bind, gets, ret, on_cursor, zoom, modify, emit.
  destruct (cache_get name (processor_cache st)) as [id |] eqn:Hc; simpl;
    [reflexivity |].
  destruct (select_processor_id name (conn st)) as [[[id |] | e] c1]; simpl.
  - split; simpl; [reflexivity | now apply cache_set_grows].
  - destruct (insert_processor name c1) as [[id | e] c2]; simpl.
    + split; simpl; [reflexivity | now apply cache_set_grows].
    + now apply caches_grow_same.
  - now apply caches_grow_same.
Qed.

(** A name that is not a string never reaches the cache. *)
Lemma company_key_is_str name st :
  (forall s, name <> PyStr s) ->
  exists e, fst (get_or_create_company name st) = Raise e.
Proof.
  intros Hn.
  unfold get_or_create_company, bind, gets, ret, on_cursor, zoom,
    select_company_id, insert_company, execute.
  destruct name as [| f | z | s]; [| | | now destruct (Hn s)];
    simpl; eexists; reflexivity.
Qed.

Lemma processor_key_is_str name st id :
  fst (get_or_create_processor name st) = Ok (Some id) ->
  exists s, name = PyStr s.
Proof.
  unfold get_or_create_processor,  bind, gets, ret, on_cursor, zoom,
    select_processor_id, insert_processor, execute.
  destruct name as [| f | z | s]; [| destruct f | | intros _; now eexists];
    simpl; discriminate.
Qed.

#[export] Instance counters_grow_preorder : PreOrder counters_grow.
Proof.
  split.
  - intros st. unfold counters_grow. lia.
  - intros s1 s2 s3. unfold counters_grow. lia.
Qed.

#[export] Instance counted_preorder : PreOrder counted.
Proof.
  split.
  - intros st. unfold counted. lia.
  - intros s1 s2 s3. unfold counted. lia.
Qed.

#[export] Instance writes_net_new_preorder : PreOrder writes_net_new.
Proof.
  split.
  - intros st. unfold writes_net_new. reflexivity.
  - intros s1 s2 s3. unfold writes_net_new. apply transitivity.
Qed.

Lemma writes_net_new_same st st' : conn st' = conn st -> writes_net_new st st'.
Proof. intros H. unfold writes_net_new. rewrite H. reflexivity. Qed.

#[export] Instance commits_net_new_preorder : PreOrder commits_net_new.
Proof.
  split.
  - intros st H. split; [exact H | reflexivity].
  - intros s1 s2 s3 H12 H23 H1.
    destruct (H12 H1) as [H2 D12]. destruct (H23 H2) as [H3 D23].
    split; [exact H3 | etransitivity; eassumption].
Qed.

Lemma writes_then_commits st st' : writes_net_new st st' -> commits_net_new st st'.
Proof.
  intros [Hd Hp] H. unfold pending_net_new in *. rewrite Hd. split.
  - etransitivity; eassumption.
  - reflexivity.
Qed.

Lemma commits_net_new_same st st' : conn st' = conn st -> commits_net_new st st'.
Proof. intros H. apply writes_then_commits, writes_net_new_same, H. Qed.

Lemma commit_commits_net_new :
  preserves commits_net_new (modify (fun st => set_conn (commit (conn st)) st)).
Proof.
  intros st H. unfold pending_net_new in *. simpl. split; [reflexivity | exact H].
Qed.

Lemma rollback_commits_net_new :
  preserves commits_net_new (modify (fun st => set_conn (rollback (conn st)) st)).
Proof.
  intros st H. unfold pending_net_new in *. simpl. split; reflexivity.
Qed.

Lemma emit_commits_net_new es : preserves commits_net_new (emit es).
Proof. intros st. now apply commits_net_new_same. Qed.

Lemma periodic_commit_ok idx st : fst (periodic_commit idx st) = Ok tt.
Proof. unfold periodic_commit. now destruct (_ =? 0). Qed.

Lemma on_row_error_ok idx e st : fst (on_row_error idx e st) = Ok tt.
Proof. reflexivity. Qed.

Lemma load_regions_ok st : fst (load_regions st) = Ok tt.
Proof.
  unfold load_regions, bind, on_cursor, zoom, select_regions, execute. simpl.
  generalize (set_conn
                {| durable := durable (conn st); pending := pending (conn st);
                   seqs := seqs (conn st);
                   executed := executed (conn st) ++ [SelectRegions] |} st).
  induction (map _ (regions (pending (conn st)))) as [| r rs IH]; intros st0.
  - reflexivity.
  - simpl. unfold bind at 1. simpl. apply IH.
Qed.

Section ImportFacts.

Variable nonascii_decimal : codepoint -> option N.
Variable float_repr : float -> pystr.
Variable int_of_str : pystr -> option Z.

Abbreviation parse_price := (Importer.parse_price nonascii_decimal float_repr).
Abbreviation new_model_params := (Importer.new_model_params int_of_str).
Abbreviation resolve_model := (Importer.resolve_model int_of_str).
Abbreviation import_price := (Importer.import_price nonascii_decimal float_repr).
Abbreviation import_row :=
  (Importer.import_row nonascii_decimal float_repr int_of_str).
Abbreviation try_row := (Importer.try_row nonascii_decimal float_repr int_of_str).
Abbreviation loop_body := (Importer.loop_body nonascii_decimal float_repr int_of_str).
Abbreviation import_data :=
  (Importer.import_data nonascii_decimal float_repr int_of_str).

Lemma modify_caches (f : importer -> importer) :
  (forall st, company_cache (f st) = company_cache st) ->
  (forall st, processor_cache (f st) = processor_cache st) ->
  preserves caches_grow (modify f).
Proof. intros H1 H2 st. apply caches_grow_same; [apply H1 | apply H2]. Qed.

Lemma parse_price_caches v : preserves caches_grow (parse_price v).
Proof.
  unfold Importer.parse_price. destruct (Price.parse_price _ _ v) as [d r].
  apply preserves_bind; [apply _ | apply emit_caches |].
  intros _. apply preserves_lift. apply _.
Qed.

Lemma new_model_params_caches row cid pid :
  preserves caches_grow (new_model_params row cid pid).
Proof.
  unfold Importer.new_model_params.
  apply preserves_bind; [apply _ | |].
  - destruct (notna _).
    + apply preserves_bind; [apply _ | apply preserves_lift; apply _ |].
      intros y. apply preserves_ret. apply _.
    + apply preserves_ret. apply _.
  - intros y. apply preserves_ret. apply _.
Qed.

Lemma resolve_model_caches row cid pid :
  preserves caches_grow (resolve_model row cid pid).
Proof.
  unfold Importer.resolve_model.
  apply preserves_bind; [apply _ | apply on_cursor_caches |].
  intros [id |]; [apply preserves_ret; apply _ |].
  apply preserves_bind; [apply _ | apply new_model_params_caches |]. intros p.
  apply preserves_bind; [apply _ | apply on_cursor_caches |]. intros id.
  apply preserves_bind; [apply _ | now apply modify_caches |]. intros _.
  apply preserves_ret. apply _.
Qed.

Lemma import_price_caches row mid col :
  preserves caches_grow (import_price row mid col).
Proof.
  unfold Importer.import_price. destruct col as [region_name price_column].
  apply preserves_bind; [apply _ | apply parse_price_caches |].
  intros [price |]; [| apply preserves_ret; apply _].
  apply preserves_bind; [apply _ | apply preserves_gets; apply _ |]. intros cached.
  apply preserves_bind; [apply _ | |].
  { destruct cached; [apply preserves_ret | apply preserves_raise]; apply _. }
  intros rid.
  apply preserves_bind; [apply _ | apply on_cursor_caches |].
  intros [x |]; [apply preserves_ret; apply _ |].
  apply preserves_bind; [apply _ | apply on_cursor_caches |]. intros _.
  now apply modify_caches.
Qed.

Lemma import_row_caches row : preserves caches_grow (import_row row).
Proof.
  unfold Importer.import_row.
  apply preserves_bind; [apply _ | apply get_or_create_company_caches |]. intros cid.
  apply preserves_bind; [apply _ | apply get_or_create_processor_caches |]. intros pid.
  apply preserves_bind; [apply _ | apply resolve_model_caches |]. intros mid.
  apply preserves_for_each; [apply _ |]. intros col. apply import_price_caches.
Qed.

Lemma periodic_commit_caches idx : preserves caches_grow (periodic_commit idx).
Proof.
  unfold periodic_commit. destruct (_ =? 0); [| apply preserves_ret; apply _].
  apply preserves_bind; [apply _ | now apply modify_caches |]. intros _.
  apply emit_caches.
Qed.

Lemma on_row_error_caches idx e : preserves caches_grow (on_row_error idx e).
Proof.
  unfold on_row_error.
  apply preserves_bind; [apply _ | apply emit_caches |]. intros _.
  now apply modify_caches.
Qed.

Lemma loop_body_caches ir : preserves caches_grow (loop_body ir).
Proof.
  unfold Importer.loop_body. apply preserves_try_except; [apply _ | |].
  - unfold Importer.try_row.
    apply preserves_bind; [apply _ | apply import_row_caches |]. intros _.
    apply periodic_commit_caches.
  - intros e. apply on_row_error_caches.
Qed.

Lemma loop_caches irs : preserves caches_grow (for_each irs loop_body).
Proof. apply preserves_for_each; [apply _ |]. apply loop_body_caches. Qed.

(** *** The counters *)

Lemma counters_grow_same st st' :
  models_count st' = models_count st -> prices_count st' = prices_count st ->
  counters_grow st st'.
Proof. unfold counters_grow. lia. Qed.

Lemma on_cursor_counters {A} (c : M connection A) :
  preserves counters_grow (on_cursor c).
Proof.
  intros st. unfold on_cursor, zoom. destruct (c (conn st)) as [r t].
  now apply counters_grow_same.
Qed.

Lemma emit_counters es : preserves counters_grow (emit es).
Proof. intros st. now apply counters_grow_same. Qed.

Lemma modify_counters (f : importer -> importer) :
  (forall st, models_count st <= models_count (f st)) ->
  (forall st, prices_count st <= prices_count (f st)) ->
  preserves counters_grow (modify f).
Proof. intros H1 H2 st. split; [apply H1 | apply H2]. Qed.

Lemma get_or_create_company_counters name :
  preserves counters_grow (get_or_create_company name).
Proof.
  unfold get_or_create_company.
  repeat first [ pres_step | apply on_cursor_counters | apply emit_counters
               | apply modify_counters; simpl; intros; lia ].
Qed.

Lemma get_or_create_processor_counters name :
  preserves counters_grow (get_or_create_processor name).
Proof.
  unfold get_or_create_processor.
  repeat first [ pres_step | apply on_cursor_counters | apply emit_counters
               | apply modify_counters; simpl; intros; lia ].
Qed.

Lemma parse_price_counters v : preserves counters_grow (parse_price v).
Proof.
  unfold Importer.parse_price.
  repeat first [ pres_step | apply emit_counters ].
Qed.

Lemma import_row_counters row : preserves counters_grow (import_row row).
Proof.
  unfold Importer.import_row, Importer.resolve_model, Importer.new_model_params.
  repeat first [ pres_step | apply on_cursor_counters | apply emit_counters
               | apply get_or_create_company_counters
               | apply get_or_create_processor_counters
               | apply modify_counters; simpl; intros; lia ].
  unfold Importer.import_price.
  repeat first [ pres_step | apply on_cursor_counters | apply parse_price_counters
               | apply modify_counters; simpl; intros; lia ].
Qed.

Lemma loop_body_counters ir : preserves counters_grow (loop_body ir).
Proof.
  unfold Importer.loop_body, Importer.try_row, periodic_commit, on_row_error.
  repeat first [ pres_step | apply import_row_counters | apply emit_counters
               | apply modify_counters; simpl; intros; lia ].
Qed.

Lemma loop_counters irs : preserves counters_grow (for_each irs loop_body).
Proof. apply preserves_for_each; [apply _ |]. apply loop_body_counters. Qed.

(** *** Counting the inserted rows *)

Lemma on_cursor_counted {A} (c : M connection A) :
  (forall c0, models (pending (snd (c c0))) = models (pending c0) /\
              prices (pending (snd (c c0))) = prices (pending c0)) ->
  preserves counted (on_cursor c).
Proof.
  intros H st. unfold on_cursor, zoom. specialize (H (conn st)).
  destruct (c (conn st)) as [r t]. simpl in *. destruct H as [H1 H2].
  unfold counted. simpl. rewrite H1, H2. lia.
Qed.

Lemma on_cursor_reference_counted {A} (c : M connection A) :
  preserves (stmt_rel adds_reference) c -> preserves counted (on_cursor c).
Proof.
  intros H. apply on_cursor_counted. intros c0.
  destruct (H c0) as [_ []]. now split.
Qed.

Lemma modify_counted (f : importer -> importer) :
  (forall st, conn (f st) = conn st) ->
  (forall st, models_count (f st) = models_count st) ->
  (forall st, prices_count (f st) = prices_count st) ->
  preserves counted (modify f).
Proof.
  intros H1 H2 H3 st. unfold counted, modify. simpl. rewrite H1, H2, H3. lia.
Qed.

Lemma emit_counted es : preserves counted (emit es).
Proof. now apply modify_counted. Qed.

Lemma insert_model_counted p :
  preserves counted
    (do model_id <- on_cursor (insert_model p);
     do _ <- modify (fun st => set_counts (models_count st + 1) (prices_count st) st);
     ret model_id).
Proof.
  intros st. unfold bind, on_cursor, zoom, modify, ret.
  destruct (insert_model_outcome p (conn st)) as [_ H].
  destruct (insert_model p (conn st)) as [[id | e] c']; simpl in *; unfold counted; simpl.
  - destruct H as (row & -> & _). simpl. rewrite length_app. simpl. lia.
  - rewrite H. lia.
Qed.

Lemma insert_price_counted m r amount :
  preserves counted
    (do _ <- on_cursor (insert_price m r amount);
     modify (fun st => set_counts (models_count st) (prices_count st + 1) st)).
Proof.
  intros st. unfold bind, on_cursor, zoom, modify, ret.
  destruct (insert_price_outcome m r amount (conn st)) as [_ H].
  destruct (insert_price m r amount (conn st)) as [[[] | e] c']; simpl in *;
    unfold counted; simpl.
  - destruct H as (row & -> & _). simpl. rewrite length_app. simpl. lia.
  - rewrite H. lia.
Qed.

Lemma get_or_create_company_counted name :
  preserves counted (get_or_create_company name).
Proof.
  unfold get_or_create_company.
  repeat first
    [ pres_step | apply emit_counted | now apply modify_counted
    | apply on_cursor_reference_counted;
      first [ apply select_company_id_reference | apply insert_company_reference ] ].
Qed.

Lemma get_or_create_processor_counted name :
  preserves counted (get_or_create_processor name).
Proof.
  unfold get_or_create_processor.
  repeat first
    [ pres_step | apply emit_counted | now apply modify_counted
    | apply on_cursor_reference_counted;
      first [ apply select_processor_id_reference | apply insert_processor_reference ] ].
Qed.

Lemma import_row_counted row : preserves counted (import_row row).
Proof.
  unfold Importer.import_row, Importer.resolve_model, Importer.new_model_params.
  repeat first
    [ apply insert_model_counted | pres_step
    | apply get_or_create_company_counted | apply get_or_create_processor_counted
    | apply on_cursor_counted; intros c0;
      destruct (select_model_id_outcome (col_model_name row) a c0) as (_ & -> & _);
      now split ].
  unfold Importer.import_price, Importer.parse_price.
  repeat first
    [ apply insert_price_counted | pres_step | apply emit_counted
    | apply on_cursor_counted; intros c0;
      match goal with
      | |- context [select_price_id ?m ?r c0] =>
          destruct (select_price_id_outcome m r c0) as (_ & -> & _)
      end; now split ].
Qed.

(** *** Net-new rows only *)

Lemma modify_net_new (f : importer -> importer) :
  (forall st, conn (f st) = conn st) -> preserves writes_net_new (modify f).
Proof. intros H st. apply writes_net_new_same, H. Qed.

Lemma emit_net_new es : preserves writes_net_new (emit es).
Proof. now apply modify_net_new. Qed.

Lemma on_cursor_reference_net_new {A} (c : M connection A) :
  preserves (stmt_rel adds_reference) c -> preserves writes_net_new (on_cursor c).
Proof.
  intros H st. unfold on_cursor, zoom. specialize (H (conn st)).
  destruct (c (conn st)) as [r t]. simpl in *. destruct H as [Hd Hr].
  split; [exact Hd | now apply adds_reference_net_new].
Qed.

Lemma new_model_params_state row cid pid st :
  snd (new_model_params row cid pid st) = st /\
  forall p, fst (new_model_params row cid pid st) = Ok p ->
            p_model_name p = col_model_name row /\ p_company_id p = Some cid.
Proof.
  unfold Importer.new_model_params, bind, lift, ret.
  destruct (notna (col_launched_year row)); simpl.
  - destruct (Py.int int_of_str (col_launched_year row)); simpl;
      (split; [reflexivity |]); [| discriminate].
    intros p H. inversion H. now split.
  - split; [reflexivity |]. intros p H. inversion H. now split.
Qed.

Lemma writes_one_model st c' row :
  durable c' = durable (conn st) ->
  pending c' = set_models (models (pending (conn st)) ++ [row]) (pending (conn st)) ->
  models_named (model_name row) (model_company_id row) (pending (conn st)) = [] ->
  stmt_rel net_new (conn st) c'.
Proof.
  intros Hd Hp Hn. split; [exact Hd |]. rewrite Hp. split.
  - split; simpl; try reflexivity. apply prefix_snoc.
  - exists [row]. split; [reflexivity |]. now repeat constructor.
  - exists []. simpl. now rewrite app_nil_r.
Qed.

Lemma writes_one_price st c' row :
  durable c' = durable (conn st) ->
  pending c' = set_prices (prices (pending (conn st)) ++ [row]) (pending (conn st)) ->
  prices_for (price_model_id row) (price_region_id row) (pending (conn st)) = [] ->
  stmt_rel net_new (conn st) c'.
Proof.
  intros Hd Hp Hn. split; [exact Hd |]. rewrite Hp. split.
  - split; simpl; try reflexivity. apply prefix_snoc.
  - exists []. simpl. now rewrite app_nil_r.
  - exists [row]. split; [reflexivity |]. now repeat constructor.
Qed.

Lemma resolve_model_net_new row cid pid :
  preserves writes_net_new (resolve_model row cid pid).
Proof.
  intros st. unfold Importer.resolve_model, bind, on_cursor, zoom, ret, modify.
  destruct (select_model_id_outcome (col_model_name row) cid (conn st))
    as (Hd & Hp & Hnone).
  destruct (select_model_id (col_model_name row) cid (conn st))
    as [[[mid |] | e] c1]; simpl in *;
    try (split; simpl; [exact Hd | rewrite Hp; reflexivity]).
  destruct (new_model_params_state row cid pid (set_conn c1 st)) as [Hs Hparams].
  destruct (new_model_params row cid pid (set_conn c1 st)) as [[p | e] st1];
    simpl in *; subst st1; simpl;
    [| split; simpl; [exact Hd | rewrite Hp; reflexivity]].
  destruct (Hparams p eq_refl) as [Hname Hcid].
  destruct (insert_model_outcome p c1) as [Hd2 Hi].
  destruct (insert_model p c1) as [[id | e] c2]; simpl in *.
  - destruct Hi as (mrow & Hp2 & _ & Hn & Hc).
    apply writes_one_model with (row := mrow); simpl.
    + congruence.
    + now rewrite Hp2, Hp.
    + assert (Hcid' : model_company_id mrow = cid) by congruence.
      rewrite Hcid'. apply Hnone; [reflexivity | congruence].
  - split; simpl; [congruence | rewrite Hi, Hp; reflexivity].
Qed.

Lemma insert_if_no_price_net_new mid rid price :
  preserves writes_net_new
    (do existing <- on_cursor (select_price_id mid rid);
     match existing with
     | Some _ => ret tt
     | None =>
         do _ <- on_cursor (insert_price mid rid price);
         modify (fun st => set_counts (models_count st) (prices_count st + 1) st)
     end).
Proof.
  intros st. unfold bind, on_cursor, zoom, ret, modify.
  destruct (select_price_id_outcome mid rid (conn st)) as (Hd & Hp & found & Hf & Hnone).
  destruct (select_price_id mid rid (conn st)) as [r c1]; simpl in *. subst r.
  destruct found as [x |]; simpl.
  - split; simpl; [exact Hd | rewrite Hp; reflexivity].
  - destruct (insert_price_outcome mid rid price c1) as [Hd2 Hi].
    destruct (insert_price mid rid price c1) as [[[] | e] c2]; simpl in *.
    + destruct Hi as (prow & Hp2 & Hm & Hr & _).
      apply writes_one_price with (row := prow); simpl.
      * congruence.
      * now rewrite Hp2, Hp.
      * rewrite Hm, Hr. now apply Hnone.
    + split; simpl; [congruence | rewrite Hi, Hp; reflexivity].
Qed.

Lemma get_or_create_company_net_new name :
  preserves writes_net_new (get_or_create_company name).
Proof.
  unfold get_or_create_company.
  repeat first
    [ pres_step | apply emit_net_new | now apply modify_net_new
    | apply on_cursor_reference_net_new;
      first [ apply select_company_id_reference | apply insert_company_reference ] ].
Qed.

Lemma get_or_create_processor_net_new name :
  preserves writes_net_new (get_or_create_processor name).
Proof.
  unfold get_or_create_processor.
  repeat first
    [ pres_step | apply emit_net_new | now apply modify_net_new
    | apply on_cursor_reference_net_new;
      first [ apply select_processor_id_reference | apply insert_processor_reference ] ].
Qed.

Lemma import_price_net_new row mid col :
  preserves writes_net_new (import_price row mid col).
Proof.
  unfold Importer.import_price, Importer.parse_price.
  repeat first [ apply insert_if_no_price_net_new | pres_step | apply emit_net_new ].
Qed.

Lemma import_row_net_new row : preserves writes_net_new (import_row row).
Proof.
  unfold Importer.import_row.
  repeat first
    [ apply resolve_model_net_new | apply import_price_net_new
    | apply get_or_create_company_net_new | apply get_or_create_processor_net_new
    | pres_step ].
Qed.

(** *** The loop *)

Lemma try_row_raises idx row st e st1 :
  try_row idx row st = (Raise e, st1) -> import_row row st = (Raise e, st1).
Proof.
  unfold Importer.try_row, bind.
  destruct (import_row row st) as [[[] | e0] st0]; [| auto].
  pose proof (periodic_commit_ok idx st0) as H.
  destruct (periodic_commit idx st0) as [r st']. simpl in H. subst r. discriminate.
Qed.

(** A row that raises: the exception is caught and logged, and the
    connection is rolled back to what was committed before the row. *)
Lemma loop_body_rolls_back idx row st e st1 :
  try_row idx row st = (Raise e, st1) ->
  loop_body (idx, row) st
  = (Ok tt, set_conn (rollback (conn st1)) (set_log (log st1 ++ [ErrorRow idx e]) st1)) /\
  durable (conn st1) = durable (conn st).
Proof.
  intros H. split.
  - unfold Importer.loop_body, try_except. simpl. now rewrite H.
  - apply try_row_raises in H.
    pose proof (import_row_net_new row st) as [Hd _]. now rewrite H in Hd.
Qed.

Lemma loop_body_ok ir st : fst (loop_body ir st) = Ok tt.
Proof.
  unfold Importer.loop_body, try_except.
  destruct (try_row (fst ir) (snd ir) st) as [[[] | e] st1]; reflexivity.
Qed.

Lemma loop_ok irs st : fst (for_each irs loop_body st) = Ok tt.
Proof.
  revert st. induction irs as [| ir irs IH]; intros st; [reflexivity |].
  simpl. unfold bind. pose proof (loop_body_ok ir st) as H.
  destruct (loop_body ir st) as [r st1]. simpl in H. subst r. apply IH.
Qed.

Lemma loop_body_commits_net_new ir : preserves commits_net_new (loop_body ir).
Proof.
  unfold Importer.loop_body, Importer.try_row, periodic_commit, on_row_error.
  repeat first
    [ pres_step | apply emit_commits_net_new | apply commit_commits_net_new
    | apply rollback_commits_net_new
    | eapply preserves_weaken; [apply writes_then_commits | apply import_row_net_new] ].
Qed.

Lemma import_data_commits_net_new df : preserves commits_net_new (import_data df).
Proof.
  unfold Importer.import_data, load_regions.
  repeat first
    [ apply loop_body_commits_net_new | pres_step | apply emit_commits_net_new
    | apply commit_commits_net_new
    | apply preserves_modify; intros st; now apply commits_net_new_same
    | eapply preserves_weaken;
      [ apply writes_then_commits
      | apply on_cursor_reference_net_new, select_regions_reference ] ].
Qed.

Lemma import_data_ok df st :
  fst (import_data df st) = Ok tt /\ clean (conn (snd (import_data df st))).
Proof.
  unfold Importer.import_data, bind.
  unfold emit, modify. cbn beta iota.
  set (st0 := set_log _ st).
  pose proof (load_regions_ok st0) as H1.
  destruct (load_regions st0) as [r1 st1]. simpl in H1. subst r1. simpl.
  pose proof (loop_ok (iterrows df) (set_counts 0 0 st1)) as H2.
  destruct (for_each _ _ _) as [r2 st2]. simpl in H2. subst r2. simpl.
  split; reflexivity.
Qed.

Lemma import_data_caches df : preserves caches_grow (import_data df).
Proof.
  unfold Importer.import_data, load_regions.
  repeat first
    [ apply loop_body_caches | pres_step | apply on_cursor_caches | apply emit_caches
    | now apply modify_caches ].
Qed.

(** A row that does not raise: its rows are pending, and committed when the
    row count is a multiple of 100. *)
Lemma try_row_returns idx row st st1 :
  try_row idx row st = (Ok tt, st1) ->
  net_new (pending (conn st)) (pending (conn st1)) /\
  ((idx + 1) mod 100 = 0 -> durable (conn st1) = pending (conn st1)) /\
  ((idx + 1) mod 100 <> 0 -> durable (conn st1) = durable (conn st)).
Proof.
  unfold Importer.try_row, bind.
  pose proof (import_row_net_new row st) as [Hd Hn].
  destruct (import_row row st) as [[[] | e] st0]; [| discriminate]. simpl in *.
  unfold periodic_commit.
  destruct ((idx + 1) mod 100 =? 0) eqn:E.
  - apply Z.eqb_eq in E. unfold bind, modify, emit. simpl.
    intros H. inversion H; subst; clear H. simpl.
    split; [exact Hn |]. split; [reflexivity | congruence].
  - apply Z.eqb_neq in E. intros H. inversion H; subst; clear H.
    split; [exact Hn |]. split; [congruence | intros _; exact Hd].
Qed.

Lemma loop_body_returns idx row st st1 :
  try_row idx row st = (Ok tt, st1) -> loop_body (idx, row) st = (Ok tt, st1).
Proof. intros H. unfold Importer.loop_body, try_except. simpl. now rewrite H. Qed.

End ImportFacts.

(** *** The claims about the caches *)

Lemma cache_get_weaken (key : pyval) (id : Z) (m1 m2 : gmap pystr Z) :
  m1 ⊆ m2 -> cache_get key m1 = Some id -> cache_get key m2 = Some id.
Proof.
  destruct key; simpl; try discriminate. intros Hsub H.
  eapply lookup_weaken; eassumption.
Qed.

Lemma get_or_create_processor_named name id st st1 :
  get_or_create_processor name st = (Ok (Some id), st1) ->
  isna name || eq_empty_str name = false.
Proof.
  unfold get_or_create_processor.
  destruct (isna name || eq_empty_str name); [discriminate | reflexivity].
Qed.

Lemma get_or_create_company_hit name id st :
  cache_get name (company_cache st) = Some id ->
  get_or_create_company name st = (Ok id, st).
Proof. intros H. unfold get_or_create_company, bind, gets. simpl. now rewrite H. Qed.

Lemma get_or_create_processor_hit name id st :
  isna name || eq_empty_str name = false ->
  cache_get name (processor_cache st) = Some id ->
  get_or_create_processor name st = (Ok (Some id), st).
Proof.
  intros Hn H. unfold get_or_create_processor, bind, gets. rewrite Hn.
  simpl. now rewrite H.
Qed.

Lemma get_or_create_company_cached name id st st1 :
  get_or_create_company name st = (Ok id, st1) ->
  cache_get name (company_cache st1) = Some id.
Proof.
  unfold get_or_create_company, bind, gets, ret, on_cursor, zoom, modify, emit,
    select_company_id, insert_company, execute, db_raise.
  destruct name as [| f | z | s]; simpl; try discriminate.
  destruct (company_cache st !! s) as [id0 |] eqn:Hc; simpl.
  - intros H. inversion H; subst. exact Hc.
  - destruct (has_nul s); simpl; [discriminate |].
    destruct (List.find _ (companies (pending (conn st)))) as [c |]; simpl.
    + intros H. inversion H; subst. simpl. apply lookup_insert_eq.
    + destruct (has_company _ _ || company_name_taken _ _); simpl; [discriminate |].
      intros H. inversion H; subst. simpl. apply lookup_insert_eq.
Qed.

Lemma get_or_create_processor_cached name id st st1 :
  get_or_create_processor name st = (Ok (Some id), st1) ->
  cache_get name (processor_cache st1) = Some id.
Proof.
  intros H. pose proof (get_or_create_processor_named _ _ _ _ H) as Hn.
  revert H. unfold get_or_create_processor. rewrite Hn.
  unfold bind, gets, ret, on_cursor, zoom, modify, emit,
    select_processor_id, insert_processor, execute, db_raise.
  destruct name as [| f | z | s]; simpl; try discriminate.
  destruct (processor_cache st !! s) as [id0 |] eqn:Hc; simpl.
  - intros H. inversion H; subst. exact Hc.
  - destruct (has_nul s); simpl; [discriminate |].
    destruct (List.find _ (processors (pending (conn st)))) as [c |]; simpl.
    + intros H. inversion H; subst. simpl. apply lookup_insert_eq.
    + destruct (has_processor _ _ || processor_name_taken _ _); simpl; [discriminate |].
      intros H. inversion H; subst. simpl. apply lookup_insert_eq.
Qed.

(** C5.  Once a company name (or a processor name) has been resolved, a
    second resolution of the same name later in the run (in any state whose
    caches contain those left by the first call, in particular after any
    number of further rows) returns the same identity and leaves the whole
    state as it is: no statement is executed on the connection, so no lookup
    and no insert.  A processor name that is null (None or NaN) or empty
    resolves to "no processor" and leaves the state as it is as well. *)
Theorem second_resolution_is_cached
    (nonascii_decimal : codepoint -> option N) (float_repr : float -> pystr)
    (int_of_str : pystr -> option Z) :
  (forall name st id st1 st2,
     get_or_create_company name st = (Ok id, st1) ->
     caches_grow st1 st2 ->
     get_or_create_company name st2 = (Ok id, st2)) /\
  (forall name st id st1 st2,
     get_or_create_processor name st = (Ok (Some id), st1) ->
     caches_grow st1 st2 ->
     get_or_create_processor name st2 = (Ok (Some id), st2)) /\
  (forall name st id st1 irs,
     get_or_create_company name st = (Ok id, st1) ->
     let st2 := snd (for_each irs
                       (Importer.loop_body nonascii_decimal float_repr int_of_str) st1) in
     get_or_create_company name st2 = (Ok id, st2) /\
     executed (conn (snd (get_or_create_company name st2))) = executed (conn st2)) /\
  (forall name st id st1 irs,
     get_or_create_processor name st = (Ok (Some id), st1) ->
     let st2 := snd (for_each irs
                       (Importer.loop_body nonascii_decimal float_repr int_of_str) st1) in
     get_or_create_processor name st2 = (Ok (Some id), st2) /\
     executed (conn (snd (get_or_create_processor name st2))) = executed (conn st2)) /\
  (forall name st,
     isna name || eq_empty_str name = true ->
     get_or_create_processor name st = (Ok None, st)).
Proof.
  assert (Hc : forall name st id st1 st2,
             get_or_create_company name st = (Ok id, st1) ->
             caches_grow st1 st2 ->
             get_or_create_company name st2 = (Ok id, st2)).
  { intros name st id st1 st2 H [Hsub _].
    apply get_or_create_company_hit.
    eapply cache_get_weaken; [exact Hsub |].
    eapply get_or_create_company_cached; exact H. }
  assert (Hp : forall name st id st1 st2,
             get_or_create_processor name st = (Ok (Some id), st1) ->
             caches_grow st1 st2 ->
             get_or_create_processor name st2 = (Ok (Some id), st2)).
  { intros name st id st1 st2 H [_ Hsub].
    apply get_or_create_processor_hit;
      [eapply get_or_create_processor_named; exact H |].
    eapply cache_get_weaken; [exact Hsub |].
    eapply get_or_create_processor_cached; exact H. }
  split; [exact Hc |]. split; [exact Hp |]. split; [| split].
  - intros name st id st1 irs H st2.
    assert (E : get_or_create_company name st2 = (Ok id, st2)).
    { eapply Hc; [exact H |]. apply loop_caches. }
    split; [exact E | now rewrite E].
  - intros name st id st1 irs H st2.
    assert (E : get_or_create_processor name st2 = (Ok (Some id), st2)).
    { eapply Hp; [exact H |]. apply loop_caches. }
    split; [exact E | now rewrite E].
  - intros name st H. unfold get_or_create_processor. now rewrite H.
Qed.

Lemma second_resolution_is_cached_witness :
  get_or_create_company (Scenario.s "Acme") Scenario.acme_then_x2
  = (Ok 1, Scenario.acme_then_x2).
Proof.
  apply (proj1 (proj2 (proj2 (second_resolution_is_cached
                  Scenario.ascii_digits_only Scenario.repr_any Scenario.int_of_digits)))
           (Scenario.s "Acme") Scenario.ready 1
           (snd (get_or_create_company (Scenario.s "Acme") Scenario.ready))
           [(1, Scenario.row_x2)]).
  vm_compute. reflexivity.
Defined.

(** C8.  The company and processor caches only grow, through every
    iteration of the loop and through the whole import: every entry stays,
    with its identity.  In particular an iteration that raises and rolls back
    leaves both caches exactly as the row left them, while the pending
    tables go back to the committed ones.  So a later row can be handed an
    identity that is not in the store: once the malformed row
    [row_bad_year] has been processed, the INSERT of its company "Zeta" has
    run and has been rolled back, no company has identity 1, and the cache
    still answers 1 for "Zeta" (the next row of that company then fails on
    the foreign key). *)
Theorem caches_only_grow
    (nonascii_decimal : codepoint -> option N) (float_repr : float -> pystr)
    (int_of_str : pystr -> option Z) :
  let loop_body := Importer.loop_body nonascii_decimal float_repr int_of_str in
  (forall ir st, caches_grow st (snd (loop_body ir st))) /\
  (forall irs st, caches_grow st (snd (for_each irs loop_body st))) /\
  (forall df st,
     caches_grow st
       (snd (Importer.import_data nonascii_decimal float_repr int_of_str df st))) /\
  (forall idx row st e st1,
     Importer.try_row nonascii_decimal float_repr int_of_str idx row st
     = (Raise e, st1) ->
     company_cache (snd (loop_body (idx, row) st)) = company_cache st1 /\
     processor_cache (snd (loop_body (idx, row) st)) = processor_cache st1 /\
     pending (conn (snd (loop_body (idx, row) st))) = durable (conn st)) /\
  (In (InsertCompany (Scenario.s "Zeta")) (executed (conn Scenario.after_bad_year)) /\
   has_company 1 (pending (conn Scenario.after_bad_year)) = false /\
   has_company 1 (durable (conn Scenario.after_bad_year)) = false /\
   get_or_create_company (Scenario.s "Zeta") Scenario.after_bad_year
   = (Ok 1, Scenario.after_bad_year) /\
   fst (Scenario.try_row 1 Scenario.row_z1 Scenario.after_bad_year)
   = Raise (DatabaseError ForeignKeyViolation)).
Proof.
  intros loop_body. split; [| split; [| split; [| split]]].
  - intros ir st. apply loop_body_caches.
  - intros irs st. apply loop_caches.
  - intros df st. apply import_data_caches.
  - intros idx row st e st1 H.
    destruct (loop_body_rolls_back _ _ _ idx row st e st1 H) as [E Hd].
    unfold loop_body. rewrite E. simpl. now rewrite Hd.
  - split; [vm_compute; tauto |]. repeat split; vm_compute; reflexivity.
Qed.

Lemma caches_only_grow_witness :
  company_cache (snd (Scenario.loop_body (0, Scenario.row_bad_year) Scenario.ready))
  = company_cache (snd (Scenario.try_row 0 Scenario.row_bad_year Scenario.ready)).
Proof.
  apply (proj1 (proj2 (proj2 (proj2 (caches_only_grow
           Scenario.ascii_digits_only Scenario.repr_any Scenario.int_of_digits))))
           0 Scenario.row_bad_year Scenario.ready ValueError
           (snd (Scenario.try_row 0 Scenario.row_bad_year Scenario.ready))).
  vm_compute. reflexivity.
Defined.

(** C10.  The counters advance with the INSERTs: whatever a row does, and
    whether it ends normally or raises, the two counters have advanced by
    the number of rows it has added to the pending [models] and [prices]
    tables.  A rollback does not take anything back from them: after an
    iteration that raised, the counters are what the row left and the
    pending tables are the committed ones.  The counters never decrease
    through the loop.  So the summary can report more than is committed: the
    import of the well-formed row [row_x1] followed by the malformed row
    [row_bad_year] ends with a summary of 1 new model and 1 new price, and
    with no model and no price in the store. *)
Theorem counters_survive_rollback
    (nonascii_decimal : codepoint -> option N) (float_repr : float -> pystr)
    (int_of_str : pystr -> option Z) :
  let loop_body := Importer.loop_body nonascii_decimal float_repr int_of_str in
  (forall row st,
     counted st
       (snd (Importer.import_row nonascii_decimal float_repr int_of_str row st))) /\
  (forall idx row st e st1,
     Importer.try_row nonascii_decimal float_repr int_of_str idx row st
     = (Raise e, st1) ->
     models_count (snd (loop_body (idx, row) st)) = models_count st1 /\
     prices_count (snd (loop_body (idx, row) st)) = prices_count st1 /\
     counters_grow st (snd (loop_body (idx, row) st)) /\
     pending (conn (snd (loop_body (idx, row) st))) = durable (conn st)) /\
  (forall irs st, counters_grow st (snd (for_each irs loop_body st))) /\
  (let final := snd (Scenario.import [Scenario.row_x1; Scenario.row_bad_year]
                       Scenario.start) in
   (exists companies processors,
      last (log final) = Some (InfoImportDone 1 1 companies processors)) /\
   models (durable (conn final)) = [] /\
   prices (durable (conn final)) = []).
Proof.
  intros loop_body. split; [| split; [| split]].
  - intros row st. apply import_row_counted.
  - intros idx row st e st1 H.
    pose proof (loop_body_counters nonascii_decimal float_repr int_of_str
                  (idx, row) st) as Hg.
    destruct (loop_body_rolls_back _ _ _ idx row st e st1 H) as [E Hd].
    fold loop_body in E, Hg. rewrite E in *. simpl. rewrite Hd.
    repeat split; try reflexivity; apply Hg.
  - intros irs st. apply loop_counters.
  - split; [| split]; [| vm_compute; reflexivity | vm_compute; reflexivity].
    eexists _, _. vm_compute. reflexivity.
Qed.

Lemma counters_survive_rollback_witness :
  models_count (snd (Scenario.loop_body (1, Scenario.row_bad_year) Scenario.after_x1))
  = models_count (snd (Scenario.try_row 1 Scenario.row_bad_year Scenario.after_x1)).
Proof.
  apply (proj1 (proj2 (counters_survive_rollback
           Scenario.ascii_digits_only Scenario.repr_any Scenario.int_of_digits))
           1 Scenario.row_bad_year Scenario.after_x1 ValueError
           (snd (Scenario.try_row 1 Scenario.row_bad_year Scenario.after_x1))).
  vm_compute. reflexivity.
Defined.

(** What one iteration of the loop does, for every row and every state.  If
    an exception is raised while the row is processed, it is caught and
    logged, and the connection is rolled back, which discards everything
    that is pending: the changes of this row and those of every row
    processed since the last commit; what was committed stays.  Processing
    continues with the next row.  A row that does not raise leaves its
    changes pending, added to those of the rows before it, and they are
    committed when the number of rows processed is a multiple of 100. *)
Lemma failing_row_rolls_back_window
    (nonascii_decimal : codepoint -> option N) (float_repr : float -> pystr)
    (int_of_str : pystr -> option Z) :
  let loop_body := Importer.loop_body nonascii_decimal float_repr int_of_str in
  let try_row := Importer.try_row nonascii_decimal float_repr int_of_str in
  (forall idx row st e st1,
     try_row idx row st = (Raise e, st1) ->
     fst (loop_body (idx, row) st) = Ok tt /\
     log (snd (loop_body (idx, row) st)) = log st1 ++ [ErrorRow idx e] /\
     pending (conn (snd (loop_body (idx, row) st))) = durable (conn st) /\
     durable (conn (snd (loop_body (idx, row) st))) = durable (conn st)) /\
  (forall ir rest st,
     for_each (ir :: rest) loop_body st
     = for_each rest loop_body (snd (loop_body ir st))) /\
  (forall idx row st st1,
     try_row idx row st = (Ok tt, st1) ->
     loop_body (idx, row) st = (Ok tt, st1) /\
     net_new (pending (conn st)) (pending (conn st1)) /\
     ((idx + 1) mod 100 = 0 -> durable (conn st1) = pending (conn st1)) /\
     ((idx + 1) mod 100 <> 0 -> durable (conn st1) = durable (conn st))).
Proof.
  intros loop_body try_row. split; [| split].
  - intros idx row st e st1 H. unfold try_row in H.
    destruct (loop_body_rolls_back _ _ _ idx row st e st1 H) as [E Hd].
    unfold loop_body. rewrite E. simpl. now rewrite Hd.
  - intros ir rest st. simpl. unfold bind.
    pose proof (loop_body_ok nonascii_decimal float_repr int_of_str ir st) as H.
    fold loop_body in H.
    destruct (loop_body ir st) as [r st1]. simpl in *. now subst r.
  - intros idx row st st1 H. unfold try_row, loop_body in *. split.
    + now apply loop_body_returns.
    + now apply (try_row_returns nonascii_decimal float_repr int_of_str idx row).
Qed.

(** C1.  The code on a data frame of two rows, the well-formed row [row_x1]
    followed by [row_bad_year], whose launch year is not a number.  The
    first row is processed without an exception: its company, its processor,
    its model and its price are pending and the counters are at one model
    and one price.  The second row raises [ValueError] at [int()]; the
    exception is caught and logged for row 1, and the rollback that follows
    discards, with the company of the second row, everything the first row
    had left pending.  The import returns normally and its summary reports
    one model and one price added, while the committed store has no company,
    no processor, no model and no price: the first row, which did not fail,
    is lost. *)
Theorem rollback_loses_earlier_row :
  fst (Scenario.try_row 0 Scenario.row_x1 Scenario.ready) = Ok tt /\
  length (companies (pending (conn Scenario.after_x1))) = 1%nat /\
  length (processors (pending (conn Scenario.after_x1))) = 1%nat /\
  length (models (pending (conn Scenario.after_x1))) = 1%nat /\
  length (prices (pending (conn Scenario.after_x1))) = 1%nat /\
  durable (conn Scenario.after_x1) = Scenario.seeded /\
  fst (Scenario.try_row 1 Scenario.row_bad_year Scenario.after_x1) = Raise ValueError /\
  fst (Scenario.loop_body (1, Scenario.row_bad_year) Scenario.after_x1) = Ok tt /\
  last (log (snd (Scenario.loop_body (1, Scenario.row_bad_year) Scenario.after_x1)))
  = Some (ErrorRow 1 ValueError) /\
  pending (conn (snd (Scenario.loop_body (1, Scenario.row_bad_year)
                        Scenario.after_x1))) = Scenario.seeded /\
  fst (Scenario.import [Scenario.row_x1; Scenario.row_bad_year] Scenario.start)
  = Ok tt /\
  durable (conn (snd (Scenario.import
                        [Scenario.row_x1; Scenario.row_bad_year]
                        Scenario.start))) = Scenario.seeded /\
  last (log (snd (Scenario.import [Scenario.row_x1; Scenario.row_bad_year]
                    Scenario.start)))
  = Some (InfoImportDone 1 1 2 1).
Proof. repeat split; vm_compute; reflexivity. Qed.

(** C7.  The import writes net-new rows only.  Whatever a row does, and
    whether it ends normally or raises, it leaves the committed tables alone
    and the pending tables are the ones it found plus appended rows: a model
    row is appended only when no model had its name and company, and a price
    row only when its (model, region) pair had no price.  From a connection
    with nothing pending, the tables committed at the end of an import are
    those committed at the start plus such rows.  Hence every row that was
    there is still there, in place and with every field as it was; the
    models of a (name, company) that had one are exactly the same; and the
    prices of a (model, region) pair that had one are exactly the same, so
    the existing amount is not overwritten. *)
Theorem import_writes_net_new_rows
    (nonascii_decimal : codepoint -> option N) (float_repr : float -> pystr)
    (int_of_str : pystr -> option Z) :
  (forall row st,
     let st' := snd (Importer.import_row nonascii_decimal float_repr int_of_str
                       row st) in
     durable (conn st') = durable (conn st) /\
     net_new (pending (conn st)) (pending (conn st'))) /\
  (forall df st,
     clean (conn st) ->
     net_new (durable (conn st))
       (durable (conn (snd (Importer.import_data nonascii_decimal float_repr
                              int_of_str df st))))) /\
  (forall t t',
     net_new t t' ->
     (forall i m, models t !! i = Some m -> models t' !! i = Some m) /\
     (forall i p, prices t !! i = Some p -> prices t' !! i = Some p) /\
     (forall name company,
        models_named name company t <> [] ->
        models_named name company t' = models_named name company t) /\
     (forall m r,
        prices_for m r t <> [] -> prices_for m r t' = prices_for m r t)).
Proof.
  split; [| split].
  - intros row st. apply import_row_net_new.
  - intros df st Hclean.
    apply (import_data_commits_net_new nonascii_decimal float_repr int_of_str df st).
    unfold pending_net_new. rewrite Hclean. reflexivity.
  - intros t t' H. split; [| split; [| split]].
    + intros i m Hm. eapply prefix_lookup_Some; [exact Hm | apply H].
    + intros i p Hp. eapply prefix_lookup_Some; [exact Hp | apply H].
    + intros name company. now apply net_new_models_kept.
    + intros m r. now apply net_new_prices_kept.
Qed.

Lemma import_writes_net_new_rows_witness :
  net_new Scenario.one_model
    (durable (conn (snd (Scenario.import [Scenario.row_x1; Scenario.row_x2]
                           Scenario.one_model_importer)))).
Proof.
  apply (proj1 (proj2 (import_writes_net_new_rows
           Scenario.ascii_digits_only Scenario.repr_any Scenario.int_of_digits))
           [Scenario.row_x1; Scenario.row_x2] Scenario.one_model_importer).
  reflexivity.
Defined.

End ImporterFacts.

(** ** More facts about the catalog store *)

Module CatalogMore.
Import Py Eff Store Catalog Lookup Properties EffFacts StoreFacts CatalogFacts.
Local Open Scope eff_scope.

Lemma find_app_none {A} (f : A -> bool) (l : list A) (x : A) :
  List.find f l = None -> f x = true -> List.find f (l ++ [x]) = Some x.
Proof.
  induction l as [| y l IH]; simpl; intros Hn Hx.
  - now rewrite Hx.
  - destruct (f y); [discriminate |]. now apply IH.
Qed.

Lemma find_some_app {A} (f : A -> bool) (l l' : list A) (x : A) :
  List.find f l = Some x -> List.find f (l ++ l') = Some x.
Proof.
  induction l as [| y l IH]; simpl; [discriminate |].
  destruct (f y); [auto | exact IH].
Qed.

Lemma filter_all {A} (P : A -> Prop) `{!forall x, Decision (P x)} (l : list A) :
  Forall P l -> filter P l = l.
Proof.
  induction 1 as [| x l Hx _ IH]; [reflexivity |].
  rewrite filter_cons, decide_True by assumption. now rewrite IH.
Qed.

Lemma existsb_false_Forall {A} (f : A -> bool) (l : list A) :
  existsb f l = false -> Forall (fun x => f x = false) l.
Proof.
  induction l as [| x l IH]; simpl; [constructor |].
  intros H. apply orb_false_iff in H as [Hx Hl]. constructor; auto.
Qed.

Lemma set_prices_same t : set_prices (prices t) t = t.
Proof. now destruct t. Qed.

(** *** [get_or_create_processor] *)

(** X1.  A second [get_or_create_processor] with the same name returns the
    same identity, draws nothing from the sequence and leaves the committed
    tables and the log as the first call left them; the identity is that of
    a committed processor with this name. *)
Theorem get_or_create_processor_twice name db id db1 :
  get_or_create_processor name db = (Ok id, db1) ->
  fst (get_or_create_processor name db1) = Ok id /\
  stored (snd (get_or_create_processor name db1)) = stored db1 /\
  seqs (connection (snd (get_or_create_processor name db1))) = seqs (connection db1) /\
  db_log (snd (get_or_create_processor name db1)) = db_log db1 /\
  In {| processor_id := id; processor_name := name |} (processors (stored db1)).
Proof.
  unfold get_or_create_processor, get_cursor, bind, ret, select_processor_id,
    insert_processor, execute, db_raise, stored. simpl.
  destruct (has_nul name); simpl; [discriminate |].
  destruct (List.find _ (processors (pending (connection db)))) as [p |] eqn:F; simpl.
  - intros H. inversion H; subst; clear H. simpl. rewrite F. simpl.
    repeat split. apply find_some in F as [Hin Hname].
    apply bool_decide_eq_true in Hname. destruct p; simpl in *. now subst.
  - destruct (has_processor _ _ || processor_name_taken _ _); simpl; [discriminate |].
    intros H. inversion H; subst; clear H. simpl.
    erewrite find_app_none; [| exact F | now apply bool_decide_eq_true].
    simpl. repeat split. apply in_or_app. right. now left.
Qed.

Lemma get_or_create_processor_twice_witness :
  fst (get_or_create_processor (of_ascii "Chip1")
         (snd (get_or_create_processor (of_ascii "Chip1") Scenario.fresh_database)))
  = Ok 1.
Proof.
  apply (get_or_create_processor_twice (of_ascii "Chip1") Scenario.fresh_database 1
           (snd (get_or_create_processor (of_ascii "Chip1") Scenario.fresh_database))).
  vm_compute. reflexivity.
Defined.

(** *** [add_company] *)

(** X2.  Once [add_company] has added a company, the company is committed as
    the last row and is the only change; a second [add_company] with the
    same name raises a unique violation, is logged, and leaves the committed
    tables as they are. *)
Theorem add_company_twice name db id db1 :
  clean (connection db) ->
  add_company name db = (Ok id, db1) ->
  stored db1
  = set_companies (companies (stored db)
                   ++ [ {| company_id := id; company_name := name |} ]) (stored db) /\
  has_company id (stored db) = false /\
  fst (add_company name db1) = Raise (DatabaseError UniqueViolation) /\
  stored (snd (add_company name db1)) = stored db1 /\
  db_log (snd (add_company name db1))
  = db_log db1 ++ [ErrorQuery (DatabaseError UniqueViolation)].
Proof.
  unfold clean, add_company, get_cursor, insert_company, execute, db_raise, stored.
  simpl. intros Hc. rewrite Hc.
  destruct (has_nul name); simpl; [discriminate |].
  destruct (has_company _ (durable (connection db))) eqn:Hh; simpl; [discriminate |].
  destruct (company_name_taken name (durable (connection db))) eqn:Ht; simpl;
    [discriminate |].
  intros H. inversion H; subst; clear H. simpl.
  assert (Htaken : company_name_taken name
                     (set_companies
                        (companies (durable (connection db))
                         ++ [ {| company_id := next (company_seq (seqs (connection db)));
                                 company_name := name |} ])
                        (durable (connection db))) = true).
  { unfold company_name_taken. simpl. rewrite existsb_app. simpl.
    rewrite bool_decide_eq_true_2 by reflexivity. now rewrite orb_true_r. }
  rewrite Htaken, orb_true_r. simpl. repeat split. exact Hh.
Qed.

Lemma add_company_twice_witness :
  fst (add_company (of_ascii "Acme")
         (snd (add_company (of_ascii "Acme") Scenario.fresh_database)))
  = Raise (DatabaseError UniqueViolation).
Proof.
  apply (add_company_twice (of_ascii "Acme") Scenario.fresh_database 1
           (snd (add_company (of_ascii "Acme") Scenario.fresh_database))).
  - reflexivity.
  - vm_compute. reflexivity.
Defined.

(** *** Writes addressed to a row that is not there *)

Lemma no_model_of_company i t :
  references_ok t -> has_company i t = false ->
  Forall (fun m => model_company_id m <> i) (models t).
Proof.
  intros [Hm _] Hi. eapply Forall_impl; [exact Hm |].
  intros m H E. simpl in H. rewrite E in H. congruence.
Qed.

Lemma no_price_of_model i t :
  references_ok t -> has_model i t = false ->
  Forall (fun p => price_model_id p <> i) (prices t).
Proof.
  intros [_ Hp] Hi. eapply Forall_impl; [exact Hp |].
  intros p H E. simpl in H. rewrite E in H. congruence.
Qed.

Lemma filter_none {A} (P : A -> Prop) `{!forall x, Decision (P x)} (l : list A) :
  Forall (fun x => ~ P x) l -> filter P l = [].
Proof.
  induction 1 as [| x l Hx _ IH]; [reflexivity |].
  now rewrite filter_cons, decide_False.
Qed.

Lemma without_company_absent i t :
  references_ok t -> has_company i t = false -> without_company i t = t.
Proof.
  intros Hr Hi. pose proof (no_model_of_company i t Hr Hi) as Hm.
  unfold without_company.
  rewrite (filter_none (fun m => model_company_id m = i)) by exact Hm.
  simpl. rewrite (filter_all (fun m => model_company_id m <> i)) by exact Hm.
  rewrite (filter_all (fun p => false = false)) by (apply Forall_forall; auto).
  rewrite (filter_all (fun c => company_id c <> i)).
  - now destruct t.
  - apply existsb_false_Forall in Hi. eapply Forall_impl; [exact Hi |].
    intros c H. simpl in H. now apply Z.eqb_neq.
Qed.

Lemma without_model_absent i t :
  references_ok t -> has_model i t = false -> without_model i t = t.
Proof.
  intros Hr Hi. unfold without_model.
  rewrite (filter_all (fun p => price_model_id p <> i))
    by now apply no_price_of_model.
  rewrite (filter_all (fun m => model_id m <> i)).
  - now destruct t.
  - apply existsb_false_Forall in Hi. eapply Forall_impl; [exact Hi |].
    intros m H. simpl in H. now apply Z.eqb_neq.
Qed.

Lemma adapt_all_raises vs e : adapt_all vs = Raise e -> e = ValueError.
Proof.
  induction vs as [| [[| f | z | s] |] vs IH]; simpl; try discriminate; auto.
  destruct (has_nul s); [| exact IH]. intros H. now inversion H.
Qed.

Lemma model_name_param_sendable d pid :
  adapt_model_params (params_of d pid) = Ok tt ->
  model_name_param (params_of d pid) = Ok (Some (md_model_name d)).
Proof.
  unfold model_name_param. intros H. rewrite H. revert H.
  unfold adapt_model_params. simpl.
  destruct (has_nul (md_model_name d)); [discriminate | reflexivity].
Qed.



(** *** Failures are logged once *)

Lemma logs_failure_get_cursor {A} (body : M Store.connection A) :
  logs_failure (get_cursor body).
Proof.
  intros db. unfold get_cursor.
  destruct (body (connection db)) as [[a | e] c]; reflexivity.
Qed.

Lemma logs_failure_ret {A} (a : A) : logs_failure (ret a).
Proof. intros db. reflexivity. Qed.

Lemma logs_failure_bind {A B} (c : M database A) (k : A -> M database B) :
  logs_failure c -> (forall a, logs_failure (k a)) -> logs_failure (bind c k).
Proof.
  intros Hc Hk db. unfold bind. specialize (Hc db).
  destruct (c db) as [[a | e] db1]; simpl in *; [| exact Hc].
  specialize (Hk a db1). destruct (fst (k a db1)); congruence.
Qed.

Lemma logs_failure_resolve_processor d : logs_failure (resolve_processor d).
Proof.
  unfold resolve_processor.
  destruct (md_processor_name d) as [name |]; [| apply logs_failure_ret].
  destruct (truthy (PyStr name)); [| apply logs_failure_ret].
  apply logs_failure_bind; [apply logs_failure_get_cursor |].
  intros a. apply logs_failure_ret.
Qed.

(** X4.  Every operation of the catalog logs exactly what it raises: when it
    returns, the log is as it was; when it raises [e], the log has got the
    one entry [ErrorQuery e], also for [add_model] and [update_model], whose
    two scopes never both fail. *)
Theorem failures_are_logged_once op : logs_failure (perform op).
Proof.
  destruct op as [n | i n | i | d | i d | i | m r a | i | n]; simpl;
    unfold unit_of, add_company, update_company, delete_company, add_model,
      update_model, delete_model, add_or_update_price, delete_price,
      get_or_create_processor;
    repeat first
      [ apply logs_failure_get_cursor | apply logs_failure_resolve_processor
      | apply logs_failure_ret
      | apply logs_failure_bind; [| intros ?] ].
Qed.

(** *** [add_model], [update_model] and [get_model_by_id] *)

(** What the resolution of the processor leaves when it returns. *)
Lemma resolve_processor_outcome d db pid db1 :
  clean (connection db) ->
  resolve_processor d db = (Ok pid, db1) ->
  clean (connection db1) /\
  set_processors (processors (stored db)) (stored db1) = stored db /\
  processors (stored db) `prefix_of` processors (stored db1) /\
  (processor_ids_unique (stored db) -> processor_ids_unique (stored db1)) /\
  match md_processor_name d with
  | Some (c :: name) =>
      exists id, pid = Some id /\
                 In {| processor_id := id; processor_name := c :: name |}
                    (processors (stored db1))
  | _ => pid = None /\ db1 = db
  end.
Proof.
  unfold clean, stored, resolve_processor. intros Hc.
  destruct (md_processor_name d) as [[| ch name] |]; simpl.
  - intros H. inversion H; subst. repeat split; auto. now destruct (durable _).
  - unfold get_or_create_processor, get_cursor, bind, ret, select_processor_id,
      insert_processor, execute, db_raise, processor_ids_unique. simpl. rewrite Hc.
    destruct (has_nul (ch :: name)); simpl; [discriminate |].
    destruct (List.find _ (processors (durable (connection db)))) as [p |] eqn:F; simpl.
    + intros H. inversion H; subst; clear H. simpl.
      repeat split; auto; [now destruct (durable _) |].
      exists (processor_id p). split; [reflexivity |].
      apply find_some in F as [Hin Hname].
      apply bool_decide_eq_true in Hname. destruct p; simpl in *. now subst.
    + destruct (has_processor _ _) eqn:Hh; simpl; [discriminate |].
      destruct (processor_name_taken _ _); simpl; [discriminate |].
      intros H. inversion H; subst; clear H. simpl.
      repeat split; auto.
      * now destruct (durable _).
      * apply prefix_snoc.
      * intros Hu. rewrite map_app. simpl. apply NoDup_app. split; [exact Hu |].
        split; [| apply NoDup_singleton].
        intros x Hx Hx'. apply list_elem_of_singleton in Hx'. subst x.
        apply list_elem_of_fmap in Hx as [p [Hp Hin]].
        apply existsb_false_Forall in Hh.
        rewrite Forall_forall in Hh. specialize (Hh p Hin). simpl in Hh.
        apply Z.eqb_neq in Hh. congruence.
      * eexists. split; [reflexivity |]. apply in_or_app. right. now left.
  - intros H. inversion H; subst. repeat split; auto. now destruct (durable _).
Qed.

Lemma checked_model_stores d pid id t t0 row :
  checked_model id (params_of d pid) t0 = Ok row ->
  match md_processor_name d with
  | Some (c :: name) =>
      exists i, pid = Some i /\
                In {| processor_id := i; processor_name := c :: name |} (processors t)
  | _ => pid = None
  end ->
  stores d id t row.
Proof.
  unfold checked_model, db_raise, params_of. simpl.
  destruct (has_nul (md_model_name d)); [discriminate |].
  destruct (md_company_id d) as [cid |] eqn:Hcid; [| discriminate].
  destruct (negb (has_company cid t0)); [discriminate |].
  destruct (match pid with Some _ => _ | None => _ end); [discriminate |].
  intros H Hp. inversion H; subst; clear H. unfold stores. simpl.
  rewrite Hcid. repeat split.
  destruct (md_processor_name d) as [[| c name] |]; auto.
Qed.

Lemma add_model_outcome d db mid db' :
  clean (connection db) ->
  add_model d db = (Ok mid, db') ->
  clean (connection db') /\
  (processor_ids_unique (stored db) -> processor_ids_unique (stored db')) /\
  exists row,
    models (stored db') = models (stored db) ++ [row] /\
    stores d mid (stored db') row /\
    has_model mid (stored db) = false /\
    has_company (model_company_id row) (stored db') = true /\
    companies (stored db') = companies (stored db) /\
    regions (stored db') = regions (stored db) /\
    prices (stored db') = prices (stored db) /\
    processors (stored db) `prefix_of` processors (stored db').
Proof.
  intros Hc. unfold add_model, bind.
  destruct (resolve_processor d db) as [[pid | e] db1] eqn:R; [| discriminate].
  destruct (resolve_processor_outcome d db pid db1 Hc R) as (Hc1 & Hsame & Hpre & Hu & Hp).
  unfold clean, stored in *.
  unfold get_cursor, insert_model, execute, db_raise. simpl.
  destruct (model_name_param _) as [n | e0]; simpl; [| discriminate].
  destruct (checked_model _ _ _) as [row |] eqn:Hck; simpl; [| discriminate].
  destruct (has_model _ (pending (connection db1))) eqn:Hh; simpl; [discriminate |].
  intros H. inversion H; subst; clear H. simpl.
  rewrite Hc1 in *.
  assert (Hst : match md_processor_name d with
                | Some (c :: name) =>
                    exists i, pid = Some i /\
                              In {| processor_id := i; processor_name := c :: name |}
                                 (processors (durable (connection db1)))
                | _ => pid = None
                end).
  { destruct (md_processor_name d) as [[| c name] |]; [tauto | exact Hp | tauto]. }
  split; [reflexivity |]. split; [exact Hu |].
  exists row. simpl. rewrite <- Hsame. simpl.
  split; [reflexivity |].
  split; [eapply checked_model_stores; [exact Hck | exact Hst] |].
  split; [exact Hh |].
  split; [| repeat split; exact Hpre].
  revert Hck. unfold checked_model, db_raise, params_of, has_company. simpl.
  destruct (has_nul (md_model_name d)); [discriminate |].
  destruct (md_company_id d) as [cid |]; [| discriminate].
  destruct (existsb _ (companies (durable (connection db1)))) eqn:Hco;
    [| discriminate].
  destruct (match pid with Some _ => _ | None => _ end); [discriminate |].
  intros H. inversion H; subst. exact Hco.
Qed.



Lemma Forall2_map_if {A} (f : A -> bool) (P : A -> Prop) (row : A) (l : list A) :
  P row ->
  Forall2 (fun m m' => if f m then P m' else m' = m) l
          (map (fun m => if f m then row else m) l).
Proof.
  intros Hrow. induction l as [| m l IH]; simpl; constructor; [| exact IH].
  now destruct (f m).
Qed.

Lemma map_if_same {A B} (f : A -> bool) (g : A -> B) (row : A) (l : list A) :
  (forall m, f m = true -> g row = g m) ->
  map g (map (fun m => if f m then row else m) l) = map g l.
Proof.
  intros H. induction l as [| m l IH]; simpl; [reflexivity |].
  rewrite IH. destruct (f m) eqn:E; [| reflexivity]. now rewrite (H m E).
Qed.



Lemma filter_head {A} (P : A -> Prop) `{!forall x, Decision (P x)} (l : list A) x :
  In x l -> P x -> exists y l', filter P l = y :: l' /\ In y l /\ P y.
Proof.
  induction l as [| z l IH]; simpl; [tauto |]. intros Hin Hx.
  rewrite filter_cons. destruct (decide (P z)) as [Hz | Hz].
  - exists z, (filter P l). auto.
  - destruct Hin as [-> | Hin]; [contradiction |].
    destruct (IH Hin Hx) as (y & l' & E & Hy & Py). exists y, l'. auto.
Qed.

Lemma existsb_In {A} (f : A -> bool) (l : list A) :
  existsb f l = true -> exists x, In x l /\ f x = true.
Proof. intros H. apply existsb_exists in H. exact H. Qed.

Lemma processor_by_id t p q :
  processor_ids_unique t -> In p (processors t) -> In q (processors t) ->
  processor_id p = processor_id q -> p = q.
Proof.
  unfold processor_ids_unique. induction (processors t) as [| x l IH]; simpl; [tauto |].
  intros Hu Hp Hq E. apply NoDup_cons in Hu as [Hx Hu].
  assert (Hno : forall y, In y l -> processor_id y <> processor_id x).
  { intros y Hy Ey. apply Hx. rewrite <- Ey. apply list_elem_of_fmap.
    exists y. split; [reflexivity | now apply list_elem_of_In]. }
  destruct Hp as [-> | Hp], Hq as [-> | Hq]; auto.
  - symmetry in E. now apply Hno in E.
  - now apply Hno in E.
Qed.

Lemma get_model_by_id_runs i db :
  clean (connection db) ->
  fst (get_model_by_id i db) = Ok (head (model_rows i (stored db))) /\
  stored (snd (get_model_by_id i db)) = stored db /\
  db_log (snd (get_model_by_id i db)) = db_log db.
Proof.
  unfold clean, stored, get_model_by_id, get_cursor, gets. simpl.
  intros ->. repeat split.
Qed.

(** X7.  A model that [add_model] has added is what [get_model_by_id]
    returns for the identity [add_model] gave: the row stored for the model
    data, with the name of its company and with the processor name of the
    model data (none when that was absent or empty).  The lookup changes
    nothing.  Once [delete_model] has run on that identity, the lookup finds
    no row. *)
Theorem add_model_then_get_model_by_id d db mid db' :
  clean (connection db) ->
  processor_ids_unique (stored db) ->
  add_model d db = (Ok mid, db') ->
  (exists v c,
     fst (get_model_by_id mid db') = Ok (Some v) /\
     stores d mid (stored db') (mv_model v) /\
     mv_processor_name v = (if names_processor d then md_processor_name d else None) /\
     In c (companies (stored db')) /\
     Some (company_id c) = md_company_id d /\
     mv_company_name v = company_name c) /\
  stored (snd (get_model_by_id mid db')) = stored db' /\
  fst (get_model_by_id mid (snd (delete_model mid db'))) = Ok None.
Proof.
  intros Hc Hu H.
  destruct (add_model_outcome d db mid db' Hc H)
    as (Hc' & Hu' & row & Hm & Hst & Hnew & Hco & _).
  specialize (Hu' Hu).
  destruct (get_model_by_id_runs mid db' Hc') as (Hr & Hs & _).
  split; [| split; [exact Hs |]].
  - rewrite Hr. clear Hr Hs. unfold model_rows. rewrite Hm, filter_app.
    rewrite (filter_none (fun m => model_id m = mid)).
    2:{ apply existsb_false_Forall in Hnew. eapply Forall_impl; [exact Hnew |].
        intros m Hx. simpl in Hx. now apply Z.eqb_neq. }
    destruct Hst as (Hid & Hname & Hcid & Hspecs & Hproc).
    rewrite filter_cons, filter_nil, decide_True by exact Hid. simpl.
    rewrite app_nil_r.
    apply existsb_In in Hco as (c0 & Hin0 & Hc0). apply Z.eqb_eq in Hc0.
    destruct (filter_head (fun c => company_id c = model_company_id row)
                (companies (stored db')) c0 Hin0 Hc0) as (c & cs & Ef & Hin & Hcc).
    rewrite Ef. simpl.
    assert (Hrow : stores d mid (stored db') row) by (repeat split; assumption).
    destruct (md_processor_name d) as [[| ch name] |] eqn:Hd.
    + rewrite Hproc.
      rewrite (filter_none (fun pr => Some (processor_id pr) = None))
        by (apply Forall_forall; intros ? ?; discriminate).
      simpl. eexists _, c. split; [reflexivity |]. simpl.
      split; [exact Hrow |]. unfold names_processor. rewrite Hd. simpl.
      repeat split; [exact Hin | congruence].
    + destruct Hproc as (pid & Hpid & Hinp). rewrite Hpid.
      destruct (filter_head (fun pr => Some (processor_id pr) = Some pid)
                  (processors (stored db')) _ Hinp eq_refl)
        as (pr & prs & Efp & Hinpr & Hprid).
      rewrite Efp. simpl. eexists _, c. split; [reflexivity |]. simpl.
      split; [exact Hrow |]. unfold names_processor. rewrite Hd. simpl.
      assert (Epr : pr = {| processor_id := pid; processor_name := ch :: name |}).
      { eapply processor_by_id; eauto. simpl. congruence. }
      rewrite Epr. simpl. repeat split; [exact Hin | congruence].
    + rewrite Hproc.
      rewrite (filter_none (fun pr => Some (processor_id pr) = None))
        by (apply Forall_forall; intros ? ?; discriminate).
      simpl. eexists _, c. split; [reflexivity |]. simpl.
      split; [exact Hrow |]. unfold names_processor. rewrite Hd. simpl.
      repeat split; [exact Hin | congruence].
  - unfold delete_model, get_model_by_id, get_cursor, delete_model_row, execute, gets.
    simpl. unfold model_rows, without_model. simpl.
    rewrite (filter_none (fun m => model_id m = mid)); [reflexivity |].
    apply Forall_forall. intros m Hin Hid.
    apply list_elem_of_filter in Hin as [Hne _]. contradiction.
Qed.

Lemma add_model_then_get_model_by_id_witness :
  stored (snd (get_model_by_id 2
                 (snd (add_model
                         {| md_model_name := of_ascii "X2"; md_company_id := Some 1;
                            md_processor_name := Some (of_ascii "Chip1");
                            md_specs := Scenario.no_specs |}
                         Scenario.one_model_database))))
  = stored (snd (add_model
                   {| md_model_name := of_ascii "X2"; md_company_id := Some 1;
                      md_processor_name := Some (of_ascii "Chip1");
                      md_specs := Scenario.no_specs |}
                   Scenario.one_model_database)).
Proof.
  apply (add_model_then_get_model_by_id
           {| md_model_name := of_ascii "X2"; md_company_id := Some 1;
              md_processor_name := Some (of_ascii "Chip1");
              md_specs := Scenario.no_specs |}
           Scenario.one_model_database 2).
  - reflexivity.
  - constructor.
  - vm_compute. reflexivity.
Defined.

Lemma find_present {A} (f : A -> bool) (l : list A) x :
  In x l -> f x = true -> exists y, List.find f l = Some y.
Proof.
  intros Hin Hx. destruct (List.find f l) as [y |] eqn:F; [now exists y |].
  pose proof (find_none f l F x Hin). congruence.
Qed.

Lemma add_model_processor_adapted d db mid db' c name :
  add_model d db = (Ok mid, db') ->
  md_processor_name d = Some (c :: name) ->
  has_nul (c :: name) = false.
Proof.
  unfold add_model, bind, resolve_processor. intros H Hd. rewrite Hd in H.
  revert H. simpl.
  unfold get_or_create_processor, get_cursor, bind, ret, select_processor_id, execute.
  simpl. destruct (has_nul (c :: name)); [discriminate | reflexivity].
Qed.

Lemma resolve_processor_existing d db c name pid :
  clean (connection db) ->
  md_processor_name d = Some (c :: name) ->
  has_nul (c :: name) = false ->
  In {| processor_id := pid; processor_name := c :: name |} (processors (stored db)) ->
  exists id,
    fst (resolve_processor d db) = Ok (Some id) /\
    stored (snd (resolve_processor d db)) = stored db /\
    clean (connection (snd (resolve_processor d db))) /\
    In {| processor_id := id; processor_name := c :: name |} (processors (stored db)) /\
    (NoDup (map processor_name (processors (stored db))) -> id = pid).
Proof.
  unfold clean, stored, resolve_processor. intros Hc -> Hnul Hin. simpl.
  unfold get_or_create_processor, get_cursor, bind, ret, select_processor_id, execute.
  simpl. rewrite Hc, Hnul.
  destruct (find_present (fun p => bool_decide (processor_name p = c :: name))
              (processors (durable (connection db))) _ Hin)
    as [p F]; [now apply bool_decide_eq_true |].
  rewrite F. simpl. exists (processor_id p). repeat split.
  - apply find_some in F as [Hp Hname]. apply bool_decide_eq_true in Hname.
    destruct p; simpl in *. now subst.
  - intros Hu. apply find_some in F as [Hp Hname].
    apply bool_decide_eq_true in Hname.
    revert Hu Hp Hin. induction (processors (durable (connection db))) as [| x l IH];
      simpl; [tauto |].
    intros Hu Hp Hin. apply NoDup_cons in Hu as [Hx Hu].
    assert (Hno : forall y, In y l -> processor_name y <> processor_name x).
    { intros y Hy Ey. apply Hx. rewrite <- Ey. apply list_elem_of_fmap.
      exists y. split; [reflexivity | now apply list_elem_of_In]. }
    destruct Hp as [-> | Hp], Hin as [E | Hin]; auto.
    + now inversion E.
    + apply Hno in Hin. simpl in Hin. congruence.
    + subst x. apply Hno in Hp. simpl in Hp. congruence.
Qed.

(** X8.  Two models with the same processor name share the processor: when
    [add_model] has stored a model with a processor name, a later
    [add_model] with the same name adds no processor row, and its model
    refers to a processor with that name (the very same processor when the
    processor names of the table are distinct). *)
Theorem add_model_shares_processor d1 d2 c name db mid1 db1 mid2 db2 :
  clean (connection db) ->
  md_processor_name d1 = Some (c :: name) ->
  md_processor_name d2 = Some (c :: name) ->
  add_model d1 db = (Ok mid1, db1) ->
  add_model d2 db1 = (Ok mid2, db2) ->
  processors (stored db2) = processors (stored db1) /\
  exists row1 row2 pid1 pid2,
    In row1 (models (stored db2)) /\ model_id row1 = mid1 /\
    model_processor_id row1 = Some pid1 /\
    In row2 (models (stored db2)) /\ model_id row2 = mid2 /\
    model_processor_id row2 = Some pid2 /\
    In {| processor_id := pid1; processor_name := c :: name |} (processors (stored db2)) /\
    In {| processor_id := pid2; processor_name := c :: name |} (processors (stored db2)) /\
    (NoDup (map processor_name (processors (stored db1))) -> pid2 = pid1).
Proof.
  intros Hc Hd1 Hd2 H1 H2.
  destruct (add_model_outcome d1 db mid1 db1 Hc H1)
    as (Hc1 & _ & row1 & Hm1 & (Hid1 & _ & _ & _ & Hp1) & _).
  rewrite Hd1 in Hp1. destruct Hp1 as (pid1 & Hpid1 & Hin1).
  destruct (resolve_processor_existing d2 db1 c name pid1 Hc1 Hd2
              (add_model_processor_adapted d1 db mid1 db1 c name H1 Hd1) Hin1)
    as (id & Hr & Hs & Hc1' & Hin2 & Hsame).
  revert H2. unfold add_model, bind.
  destruct (resolve_processor d2 db1) as [r dbr]. simpl in Hr, Hs, Hc1'. subst r.
  unfold get_cursor, insert_model, execute, db_raise. simpl.
  destruct (model_name_param _) as [n | e0]; simpl; [| discriminate].
  destruct (checked_model _ _ _) as [row2 |] eqn:Hck; simpl; [| discriminate].
  destruct (has_model _ (pending (connection dbr))); simpl; [discriminate |].
  intros H. inversion H; subst; clear H. unfold stored in *. simpl.
  unfold clean in Hc1'. rewrite Hc1' in *. rewrite Hs in *.
  split; [reflexivity |].
  exists row1, row2, pid1, id. rewrite Hm1.
  assert (Hrow2 : model_processor_id row2 = Some id /\
                  model_id row2 = next (model_seq (seqs (connection dbr)))).
  { revert Hck. unfold checked_model, db_raise, params_of. simpl.
    destruct (has_nul (md_model_name d2)); [discriminate |].
    destruct (md_company_id d2); [| discriminate].
    destruct (negb _); [discriminate |]. destruct (negb _); [discriminate |].
    intros H. inversion H. now split. }
  destruct Hrow2 as [Hp2 Hid2].
  repeat split; auto.
  - apply in_or_app. left. apply in_or_app. right. now left.
  - apply in_or_app. right. now left.
Qed.

Lemma add_model_shares_processor_witness :
  processors (stored (snd (add_model
                             {| md_model_name := of_ascii "X3"; md_company_id := Some 1;
                                md_processor_name := Some (of_ascii "Chip1");
                                md_specs := Scenario.no_specs |}
                             (snd (add_model
                                     {| md_model_name := of_ascii "X2";
                                        md_company_id := Some 1;
                                        md_processor_name := Some (of_ascii "Chip1");
                                        md_specs := Scenario.no_specs |}
                                     Scenario.one_model_database)))))
  = processors (stored (snd (add_model
                               {| md_model_name := of_ascii "X2";
                                  md_company_id := Some 1;
                                  md_processor_name := Some (of_ascii "Chip1");
                                  md_specs := Scenario.no_specs |}
                               Scenario.one_model_database))).
Proof.
  apply (add_model_shares_processor
           {| md_model_name := of_ascii "X2"; md_company_id := Some 1;
              md_processor_name := Some (of_ascii "Chip1");
              md_specs := Scenario.no_specs |}
           {| md_model_name := of_ascii "X3"; md_company_id := Some 1;
              md_processor_name := Some (of_ascii "Chip1");
              md_specs := Scenario.no_specs |}
           67%N (of_ascii "hip1") Scenario.one_model_database 2
           (snd (add_model
                   {| md_model_name := of_ascii "X2"; md_company_id := Some 1;
                      md_processor_name := Some (of_ascii "Chip1");
                      md_specs := Scenario.no_specs |}
                   Scenario.one_model_database))
           3).
  - reflexivity.
  - reflexivity.
  - reflexivity.
  - vm_compute. reflexivity.
  - vm_compute. reflexivity.
Defined.

(** *** [delete_company] *)

(** X9.  [delete_company] returns normally and takes with the company its
    models and the prices of those models, and nothing else: the other
    companies, the models of the other companies and their prices stay, and
    so do the processors and the regions.  Afterwards no company has the
    identity, and every model still refers to a company and every price to a
    model. *)
Theorem delete_company_cascades i db :
  clean (connection db) ->
  references_ok (stored db) ->
  fst (delete_company i db) = Ok tt /\
  has_company i (stored (snd (delete_company i db))) = false /\
  (forall c, In c (companies (stored (snd (delete_company i db)))) <->
             In c (companies (stored db)) /\ company_id c <> i) /\
  (forall m, In m (models (stored (snd (delete_company i db)))) <->
             In m (models (stored db)) /\ model_company_id m <> i) /\
  (forall p, In p (prices (stored (snd (delete_company i db)))) <->
             In p (prices (stored db)) /\
             forall m, In m (models (stored db)) ->
                       model_id m = price_model_id p -> model_company_id m <> i) /\
  processors (stored (snd (delete_company i db))) = processors (stored db) /\
  regions (stored (snd (delete_company i db))) = regions (stored db) /\
  references_ok (stored (snd (delete_company i db))).
Proof.
  unfold clean, stored, delete_company, get_cursor, Store.delete_company, execute.
  simpl. intros Hc [Hm Hp]. rewrite Hc. set (t := durable (connection db)) in *.
  assert (Hcs : forall c, In c (companies (without_company i t)) <->
                          In c (companies t) /\ company_id c <> i).
  { intros c. simpl. rewrite <- !list_elem_of_In, list_elem_of_filter. tauto. }
  assert (Hms : forall m, In m (models (without_company i t)) <->
                          In m (models t) /\ model_company_id m <> i).
  { intros m. simpl. rewrite <- !list_elem_of_In, list_elem_of_filter. tauto. }
  assert (Hps : forall p, In p (prices (without_company i t)) <->
                          In p (prices t) /\
                          forall m, In m (models t) ->
                                    model_id m = price_model_id p ->
                                    model_company_id m <> i).
  { intros p. simpl. rewrite <- !list_elem_of_In, list_elem_of_filter.
    split; intros [H1 H2]; (split; [try exact H2 | try exact H1]).
    - intros m Hin Hid Hco.
      assert (Hex : existsb (fun m0 => model_id m0 =? price_model_id p)
                      (filter (fun m0 => model_company_id m0 = i) (models t)) = true).
      { apply existsb_exists. exists m. split; [| now apply Z.eqb_eq].
        apply list_elem_of_In, list_elem_of_filter. split; [exact Hco |].
        now apply list_elem_of_In. }
      congruence.
    - destruct (existsb _ _) eqn:Hex; [| reflexivity].
      apply existsb_exists in Hex as (m & Hin & Hid). apply Z.eqb_eq in Hid.
      apply list_elem_of_In, list_elem_of_filter in Hin as [Hco Hin].
      apply list_elem_of_In in Hin. now apply H2 in Hin. }
  split; [reflexivity |]. split; [| split; [exact Hcs |]].
  { unfold has_company. destruct (existsb _ _) eqn:Hex; [| reflexivity].
    apply existsb_exists in Hex as (c & Hin & Hid). apply Z.eqb_eq in Hid.
    apply Hcs in Hin as [_ Hne]. contradiction. }
  split; [exact Hms |]. split; [exact Hps |]. split; [reflexivity |].
  split; [reflexivity |]. split.
  - apply List.Forall_forall. intros m Hin. apply Hms in Hin as [Hin Hne].
    rewrite List.Forall_forall in Hm. specialize (Hm m Hin). simpl in Hm.
    apply existsb_exists in Hm as (c & Hc0 & Hid). apply Z.eqb_eq in Hid.
    apply existsb_exists. exists c. split; [| now apply Z.eqb_eq].
    apply Hcs. split; [exact Hc0 | congruence].
  - apply List.Forall_forall. intros p Hin. apply Hps in Hin as [Hin Hkeep].
    rewrite List.Forall_forall in Hp. specialize (Hp p Hin). simpl in Hp.
    apply existsb_exists in Hp as (m & Hm0 & Hid). apply Z.eqb_eq in Hid.
    apply existsb_exists. exists m. split; [| now apply Z.eqb_eq].
    apply Hms. split; [exact Hm0 | now apply Hkeep].
Qed.

Lemma delete_company_cascades_witness :
  models (stored (snd (delete_company 1 Scenario.one_model_database))) = [].
Proof.
  destruct (delete_company_cascades 1 Scenario.one_model_database)
    as (_ & _ & _ & Hm & _).
  - reflexivity.
  - split; repeat constructor.
  - destruct (models (stored (snd (delete_company 1 Scenario.one_model_database))))
      as [| m l]; [reflexivity |].
    destruct (proj1 (Hm m) (or_introl eq_refl)) as [[E | []] Hne].
    subst m. now contradiction Hne.
Defined.

(** *** [delete_model] *)

(** X17.  [delete_model] returns normally and takes with the model its
    prices, and nothing else: the other models and their prices stay, and so
    do the companies, the processors and the regions (a processor that no
    model uses any more is kept).  Afterwards no model has the identity, and
    every model still refers to a company and every price to a model. *)
Theorem delete_model_cascades i db :
  clean (connection db) ->
  references_ok (stored db) ->
  fst (delete_model i db) = Ok tt /\
  has_model i (stored (snd (delete_model i db))) = false /\
  (forall m, In m (models (stored (snd (delete_model i db)))) <->
             In m (models (stored db)) /\ model_id m <> i) /\
  (forall p, In p (prices (stored (snd (delete_model i db)))) <->
             In p (prices (stored db)) /\ price_model_id p <> i) /\
  companies (stored (snd (delete_model i db))) = companies (stored db) /\
  processors (stored (snd (delete_model i db))) = processors (stored db) /\
  regions (stored (snd (delete_model i db))) = regions (stored db) /\
  references_ok (stored (snd (delete_model i db))).
Proof.
  unfold clean, stored, delete_model, get_cursor, delete_model_row, execute.
  simpl. intros Hc [Hm Hp]. rewrite Hc. set (t := durable (connection db)) in *.
  assert (Hms : forall m, In m (models (without_model i t)) <->
                          In m (models t) /\ model_id m <> i).
  { intros m. simpl. rewrite <- !list_elem_of_In, list_elem_of_filter. tauto. }
  assert (Hps : forall p, In p (prices (without_model i t)) <->
                          In p (prices t) /\ price_model_id p <> i).
  { intros p. simpl. rewrite <- !list_elem_of_In, list_elem_of_filter. tauto. }
  split; [reflexivity |]. split; [| split; [exact Hms |]].
  { unfold has_model. destruct (existsb _ _) eqn:Hex; [| reflexivity].
    apply existsb_exists in Hex as (m & Hin & Hid). apply Z.eqb_eq in Hid.
    apply Hms in Hin as [_ Hne]. contradiction. }
  split; [exact Hps |]. repeat split.
  - apply List.Forall_forall. intros m Hin. apply Hms in Hin as [Hin _].
    rewrite List.Forall_forall in Hm. exact (Hm m Hin).
  - apply List.Forall_forall. intros p Hin. apply Hps in Hin as [Hin Hne].
    rewrite List.Forall_forall in Hp. specialize (Hp p Hin). simpl in Hp.
    apply existsb_exists in Hp as (m & Hm0 & Hid). apply Z.eqb_eq in Hid.
    apply existsb_exists. exists m. split; [| now apply Z.eqb_eq].
    apply Hms. split; [exact Hm0 | congruence].
Qed.

Lemma delete_model_cascades_witness :
  has_model 1 (stored (snd (delete_model 1 Scenario.one_model_database))) = false.
Proof.
  apply (delete_model_cascades 1 Scenario.one_model_database).
  - reflexivity.
  - split; repeat constructor.
Defined.

(** *** [add_or_update_price] and [delete_price] *)

(** X10.  A price added for a pair that had none is committed as the last
    row of [prices], under the next identity of the sequence; [delete_price]
    on that identity then returns normally and the committed tables are
    again what they were before the price was added. *)
Theorem new_price_then_delete_price m r a db db1 :
  clean (connection db) ->
  pair_taken m r (stored db) = false ->
  add_or_update_price m r a db = (Ok tt, db1) ->
  prices (stored db1)
  = prices (stored db)
    ++ [ {| price_id := next (price_seq (seqs (connection db)));
            price_model_id := m; price_region_id := r; price_amount := a |} ] /\
  fst (delete_price (next (price_seq (seqs (connection db)))) db1) = Ok tt /\
  stored (snd (delete_price (next (price_seq (seqs (connection db)))) db1)) = stored db.
Proof.
  unfold clean, stored, add_or_update_price, delete_price, get_cursor, upsert_price,
    delete_price_row, execute, checked_price, db_raise.
  simpl. intros Hc Hn. rewrite Hc, Hn.
  destruct (negb _ || negb _); [discriminate |].
  destruct (existsb _ (prices (durable (connection db)))) eqn:Hid; [discriminate |].
  intros H. inversion H; subst; clear H. simpl.
  split; [reflexivity |]. split; [reflexivity |].
  rewrite filter_app, filter_cons, filter_nil, decide_False by tauto.
  rewrite (filter_all (fun p => price_id p <> _)), app_nil_r.
  - now destruct (durable (connection db)).
  - apply existsb_false_Forall in Hid. eapply Forall_impl; [exact Hid |].
    intros p Hp. simpl in Hp. now apply Z.eqb_neq.
Qed.

Lemma new_price_then_delete_price_witness :
  stored (snd (delete_price 1
                 (snd (add_or_update_price 1 1 Scenario.amount_1200
                         Scenario.one_model_database))))
  = stored Scenario.one_model_database.
Proof.
  apply (new_price_then_delete_price 1 1 Scenario.amount_1200
           Scenario.one_model_database
           (snd (add_or_update_price 1 1 Scenario.amount_1200
                   Scenario.one_model_database))).
  - reflexivity.
  - reflexivity.
  - vm_compute. reflexivity.
Defined.

(** *** The model form *)

Lemma or_none_not_empty text s : or_none text = Some s -> s <> [].
Proof.
  unfold or_none. destruct text; simpl; [discriminate |].
  intros H. inversion H. discriminate.
Qed.

Lemma optional_field_not_empty text s :
  Some (PyStr s) = option_map PyStr (or_none text) -> s <> [].
Proof.
  destruct (or_none text) as [x |] eqn:E; simpl; [| discriminate].
  intros H. inversion H; subst. eapply or_none_not_empty; eassumption.
Qed.

Lemma blank_processor_resolves_to_none f db :
  processor_edit f = [] -> resolve_processor (get_data f) db = (Ok None, db).
Proof. unfold resolve_processor, get_data. simpl. now intros ->. Qed.



End CatalogMore.

(** ** More facts about the importer *)

Module ImporterMore.
Import Py Eff Store Importer Properties EffFacts StoreFacts ImporterFacts.
Local Open Scope eff_scope.

(** *** [load_regions] *)

Lemma for_each_modify {A} (f : A -> importer -> importer) (xs : list A) st :
  for_each xs (fun x => modify (f x)) st
  = (Ok tt, fold_left (fun st x => f x st) xs st).
Proof.
  revert st. induction xs as [| x xs IH]; intros st; [reflexivity |].
  simpl. unfold bind at 1. simpl. apply IH.
Qed.

(** The dictionary after [cache[name] = id] for each row in turn. *)
Lemma fold_region_cache (rows : list (Z * pystr)) st :
  let st' := fold_left (fun st r => set_region_cache (<[snd r := fst r]> (region_cache st)) st)
               rows st in
  region_cache st' = fold_left (fun m r => <[snd r := fst r]> m) rows (region_cache st) /\
  conn st' = conn st /\ company_cache st' = company_cache st /\
  processor_cache st' = processor_cache st /\ models_count st' = models_count st /\
  prices_count st' = prices_count st /\ log st' = log st.
Proof.
  revert st. induction rows as [| r rows IH]; intros st; simpl; [now repeat split |].
  specialize (IH (set_region_cache (<[snd r := fst r]> (region_cache st)) st)).
  simpl in IH. exact IH.
Qed.

Lemma fold_insert_other (rows : list (Z * pystr)) (m : gmap pystr Z) n :
  (forall r, In r rows -> snd r <> n) ->
  fold_left (fun m r => <[snd r := fst r]> m) rows m !! n = m !! n.
Proof.
  revert m. induction rows as [| r rows IH]; intros m H; simpl; [reflexivity |].
  rewrite IH by (intros r' Hr'; apply H; now right).
  apply lookup_insert_ne. apply H. now left.
Qed.

Lemma fold_insert_some (rows : list (Z * pystr)) (m : gmap pystr Z) r :
  In r rows ->
  exists r', In r' rows /\ snd r' = snd r /\
             fold_left (fun m r => <[snd r := fst r]> m) rows m !! snd r = Some (fst r').
Proof.
  revert m r. induction rows as [| x rows IH]; intros m r; simpl; [tauto |].
  intros Hin.
  destruct (decide (Exists (fun y => snd y = snd r) rows)) as [Hex | Hno].
  - apply Exists_exists in Hex as (y & Hy & Ey). apply list_elem_of_In in Hy.
    destruct (IH (<[snd x := fst x]> m) y Hy) as (r' & Hr' & Er' & Hl).
    rewrite <- Ey. exists r'. split; [now right |]. split; [congruence | exact Hl].
  - destruct Hin as [-> | Hin].
    + exists r. split; [now left |]. split; [reflexivity |].
      rewrite fold_insert_other.
      * apply lookup_insert_eq.
      * intros y Hy Ey. apply Hno, Exists_exists. exists y.
        split; [now apply list_elem_of_In | exact Ey].
    + exfalso. apply Hno, Exists_exists. exists r.
      split; [now apply list_elem_of_In | reflexivity].
Qed.

Lemma fold_insert_unique (rows : list (Z * pystr)) (m : gmap pystr Z) r :
  NoDup (map snd rows) -> In r rows ->
  fold_left (fun m r => <[snd r := fst r]> m) rows m !! snd r = Some (fst r).
Proof.
  intros Hu Hin. destruct (fold_insert_some rows m r Hin) as (r' & Hr' & E & Hl).
  rewrite Hl. f_equal. f_equal.
  clear Hl. induction rows as [| x rows IH]; simpl in *; [tauto |].
  apply NoDup_cons in Hu as [Hx Hu].
  assert (Hno : forall y, In y rows -> snd y <> snd x).
  { intros y Hy Ey. apply Hx. rewrite <- Ey. apply list_elem_of_fmap.
    exists y. split; [reflexivity | now apply list_elem_of_In]. }
  destruct Hr' as [-> | Hr'], Hin as [<- | Hin]; auto.
  - symmetry in E. now apply Hno in E.
  - now apply Hno in E.
Qed.

Lemma load_regions_outcome st :
  let rows := map (fun r => (region_id r, region_name r)) (regions (pending (conn st))) in
  let st' := snd (load_regions st) in
  fst (load_regions st) = Ok tt /\
  region_cache st' = fold_left (fun m r => <[snd r := fst r]> m) rows (region_cache st) /\
  pending (conn st') = pending (conn st) /\
  durable (conn st') = durable (conn st) /\
  seqs (conn st') = seqs (conn st) /\
  company_cache st' = company_cache st /\
  processor_cache st' = processor_cache st /\
  models_count st' = models_count st /\
  prices_count st' = prices_count st /\
  log st' = log st ++ [InfoRegionsLoaded (size (region_cache st'))].
Proof.
  unfold load_regions, bind, on_cursor, zoom, select_regions, execute. simpl.
  rewrite for_each_modify. simpl.
  match goal with
  | |- context [fold_left _ ?rows ?s0] =>
      destruct (fold_region_cache rows s0) as (H1 & H2 & H3 & H4 & H5 & H6 & H7)
  end.
  simpl in *. rewrite H1, H2, H3, H4, H5, H6, H7. simpl. now repeat split.
Qed.

(** X12.  [load_regions] returns normally and only reads the store.
    Afterwards the cache answers, for the name of every region of the table,
    with the identity of a region of that name (the one of the region itself
    when the names of the table are distinct); a name that no region has
    keeps the answer it had, since the cache is not emptied first.  The
    caches of companies and processors and the counters are not touched, and
    the one log entry carries the size of the cache. *)
Theorem load_regions_fills_cache st :
  fst (load_regions st) = Ok tt /\
  (forall r, In r (regions (pending (conn st))) ->
     exists r', In r' (regions (pending (conn st))) /\
                region_name r' = region_name r /\
                region_cache (snd (load_regions st)) !! region_name r
                = Some (region_id r')) /\
  (NoDup (map region_name (regions (pending (conn st)))) ->
   forall r, In r (regions (pending (conn st))) ->
             region_cache (snd (load_regions st)) !! region_name r
             = Some (region_id r)) /\
  (forall n, (forall r, In r (regions (pending (conn st))) -> region_name r <> n) ->
             region_cache (snd (load_regions st)) !! n = region_cache st !! n) /\
  pending (conn (snd (load_regions st))) = pending (conn st) /\
  durable (conn (snd (load_regions st))) = durable (conn st) /\
  company_cache (snd (load_regions st)) = company_cache st /\
  processor_cache (snd (load_regions st)) = processor_cache st /\
  log (snd (load_regions st))
  = log st ++ [InfoRegionsLoaded (size (region_cache (snd (load_regions st))))].
Proof.
  destruct (load_regions_outcome st)
    as (Hok & Hc & Hp & Hd & Hs & Hcc & Hpc & Hmc & Hprc & Hlog).
  split; [exact Hok |]. rewrite Hc.
  set (row := fun r => (region_id r, region_name r)).
  split; [| split; [| split; [| split]]]; [| | | | repeat split; try assumption].
  - intros r Hin.
    destruct (fold_insert_some (map row (regions (pending (conn st))))
                (region_cache st) (row r) (in_map row _ _ Hin)) as (x & Hx & Ex & Hl).
    apply in_map_iff in Hx as (r' & <- & Hr'). exists r'. auto.
  - intros Hu r Hin.
    apply (fold_insert_unique (map row (regions (pending (conn st))))
             (region_cache st) (row r)).
    + now rewrite map_map.
    + now apply in_map.
  - intros n Hn. apply fold_insert_other. intros x Hx.
    apply in_map_iff in Hx as (r' & <- & Hr'). now apply Hn.
  - exact Hp.
  - rewrite Hc in Hlog. exact Hlog.
Qed.

Lemma load_regions_fills_cache_witness :
  region_cache (snd (load_regions Scenario.start)) !! of_ascii "Dubai" = Some 5.
Proof.
  apply (proj1 (proj2 (proj2 (load_regions_fills_cache Scenario.start)))
           ltac:(apply (bool_decide_unpack _); vm_compute; exact I)
           {| region_id := 5; region_name := of_ascii "Dubai" |}).
  vm_compute. tauto.
Defined.

(** *** [import_data] as a whole *)

Section Run.

Variable nonascii_decimal : codepoint -> option N.
Variable float_repr : float -> pystr.
Variable int_of_str : pystr -> option Z.

Abbreviation parse_price := (Importer.parse_price nonascii_decimal float_repr).
Abbreviation resolve_model := (Importer.resolve_model int_of_str).
Abbreviation new_model_params := (Importer.new_model_params int_of_str).
Abbreviation import_price := (Importer.import_price nonascii_decimal float_repr).
Abbreviation import_row :=
  (Importer.import_row nonascii_decimal float_repr int_of_str).
Abbreviation try_row := (Importer.try_row nonascii_decimal float_repr int_of_str).
Abbreviation loop_body := (Importer.loop_body nonascii_decimal float_repr int_of_str).
Abbreviation import_data :=
  (Importer.import_data nonascii_decimal float_repr int_of_str).

Lemma import_data_shape df st :
  exists st1,
    for_each (iterrows df) loop_body
      (set_counts 0 0
         (snd (load_regions
                 (set_log (log st ++ [InfoImportStarted; InfoRowsLoaded (length df)]) st))))
    = (Ok tt, st1) /\
    import_data df st
    = (Ok tt,
       set_log (log st1 ++ [InfoImportDone (models_count st1) (prices_count st1)
                              (size (company_cache st1)) (size (processor_cache st1))])
         (set_conn (commit (conn st1)) st1)).
Proof.
  unfold Importer.import_data, bind. unfold emit at 1, modify at 1. cbn beta iota.
  set (st0 := set_log _ st).
  pose proof (load_regions_ok st0) as H1.
  destruct (load_regions st0) as [r1 sa]. simpl in H1. subst r1. simpl.
  pose proof (loop_ok nonascii_decimal float_repr int_of_str
                (iterrows df) (set_counts 0 0 sa)) as H2.
  destruct (for_each _ _ _) as [r2 st1]. simpl in H2. subst r2.
  exists st1. split; reflexivity.
Qed.

(** X13.  [import_data] returns normally whatever the rows are: no row can
    make it raise.  When it returns nothing is left uncommitted, and the
    last log entry is the summary, with the two counters and the sizes of
    the two name caches as they are at the end.  On an empty data frame it
    commits what was pending on the connection, and both counters are zero. *)
Theorem import_data_always_returns df st :
  fst (import_data df st) = Ok tt /\
  clean (conn (snd (import_data df st))) /\
  last (log (snd (import_data df st)))
  = Some (InfoImportDone (models_count (snd (import_data df st)))
            (prices_count (snd (import_data df st)))
            (size (company_cache (snd (import_data df st))))
            (size (processor_cache (snd (import_data df st))))) /\
  (df = [] ->
   durable (conn (snd (import_data df st))) = pending (conn st) /\
   models_count (snd (import_data df st)) = 0 /\
   prices_count (snd (import_data df st)) = 0 /\
   company_cache (snd (import_data df st)) = company_cache st /\
   processor_cache (snd (import_data df st)) = processor_cache st).
Proof.
  destruct (import_data_shape df st) as (st1 & Hloop & ->). simpl.
  split; [reflexivity |]. split; [reflexivity |].
  split; [apply last_snoc |].
  intros ->. simpl in Hloop. inversion Hloop; subst; clear Hloop. simpl.
  destruct (load_regions_outcome
              (set_log (log st ++ [InfoImportStarted; InfoRowsLoaded 0]) st))
    as (_ & _ & Hp & _ & _ & Hcc & Hpc & _).
  simpl in *. now repeat split.
Qed.

(** *** A row whose region is not in the cache *)

#[export] Instance keeps_regions_preorder : PreOrder keeps_regions.
Proof.
  split; [intros st; reflexivity |].
  intros s1 s2 s3 H1 H2. unfold keeps_regions in *. congruence.
Qed.

Lemma on_cursor_keeps_regions {A} (c : M connection A) :
  preserves keeps_regions (on_cursor c).
Proof. intros st. unfold on_cursor, zoom. now destruct (c (conn st)). Qed.

Lemma modify_keeps_regions (f : importer -> importer) :
  (forall st, region_cache (f st) = region_cache st) -> preserves keeps_regions (modify f).
Proof. intros H st. apply H. Qed.

Lemma emit_keeps_regions es : preserves keeps_regions (emit es).
Proof. now apply modify_keeps_regions. Qed.

Ltac regions_step :=
  first [ apply on_cursor_keeps_regions | apply emit_keeps_regions
        | now apply modify_keeps_regions | pres_step ].

Lemma get_or_create_company_keeps_regions name :
  preserves keeps_regions (get_or_create_company name).
Proof. unfold get_or_create_company. repeat regions_step. Qed.

Lemma get_or_create_processor_keeps_regions name :
  preserves keeps_regions (get_or_create_processor name).
Proof. unfold get_or_create_processor. repeat regions_step. Qed.

Lemma resolve_model_keeps_regions row cid pid :
  preserves keeps_regions (resolve_model row cid pid).
Proof.
  unfold Importer.resolve_model, Importer.new_model_params. repeat regions_step.
Qed.

Lemma import_price_keeps_regions row mid col :
  preserves keeps_regions (import_price row mid col).
Proof.
  unfold Importer.import_price, Importer.parse_price. repeat regions_step.
Qed.

Lemma import_price_without_region row mid col p st :
  region_cache st !! fst col = None ->
  snd (Price.parse_price nonascii_decimal float_repr (snd col row)) = Ok (Some p) ->
  fst (import_price row mid col st) = Raise KeyError.
Proof.
  unfold Importer.import_price, Importer.parse_price. destruct col as [name column].
  simpl. destruct (Price.parse_price _ _ _) as [diagnostics r]. simpl.
  intros Hn ->. unfold bind, emit, modify, lift, gets. simpl. now rewrite Hn.
Qed.

Lemma prices_raise_without_region row mid cols col p st :
  In col cols ->
  region_cache st !! fst col = None ->
  snd (Price.parse_price nonascii_decimal float_repr (snd col row)) = Ok (Some p) ->
  exists e, fst (for_each cols (import_price row mid) st) = Raise e.
Proof.
  intros Hin Hn Hp. revert st Hn.
  induction cols as [| c cols IH]; intros st Hn; [contradiction |].
  simpl. unfold bind.
  pose proof (import_price_keeps_regions row mid c st) as Hk.
  destruct (import_price row mid c st) as [[[] | e] s1] eqn:E; simpl in *;
    [| now exists e].
  destruct Hin as [-> | Hin].
  - pose proof (import_price_without_region row mid col p st Hn Hp) as Hr.
    rewrite E in Hr. discriminate.
  - apply IH; [exact Hin |]. unfold keeps_regions in Hk. now rewrite Hk.
Qed.

Lemma import_row_without_region row col p st :
  In col price_columns ->
  region_cache st !! fst col = None ->
  snd (Price.parse_price nonascii_decimal float_repr (snd col row)) = Ok (Some p) ->
  exists e, fst (import_row row st) = Raise e.
Proof.
  intros Hin Hn Hp. unfold Importer.import_row, bind.
  pose proof (get_or_create_company_keeps_regions (col_company_name row) st) as H1.
  destruct (get_or_create_company _ st) as [[cid | e] sa]; [| now exists e].
  pose proof (get_or_create_processor_keeps_regions (col_processor row) sa) as H2.
  destruct (get_or_create_processor _ sa) as [[pid | e] sb]; [| now exists e].
  pose proof (resolve_model_keeps_regions row cid pid sb) as H3.
  destruct (resolve_model row cid pid sb) as [[mid | e] sc]; [| now exists e].
  simpl in H1, H2, H3. unfold keeps_regions in *.
  eapply prices_raise_without_region; [exact Hin | | exact Hp]. congruence.
Qed.

(** X14.  A row with a price that parses, for a region that is not in the
    region cache (a region missing from the table when the regions were
    loaded), is rejected as a whole: the iteration returns normally, its
    last log entry is the error of the row, and the pending and the
    committed tables are the tables that were committed before the row, so
    the company, the processor, the model and the earlier prices of the row
    are not kept either. *)
Theorem row_without_region_is_rejected idx row col p st :
  In col price_columns ->
  region_cache st !! fst col = None ->
  snd (Price.parse_price nonascii_decimal float_repr (snd col row)) = Ok (Some p) ->
  fst (loop_body (idx, row) st) = Ok tt /\
  (exists e, last (log (snd (loop_body (idx, row) st))) = Some (ErrorRow idx e)) /\
  pending (conn (snd (loop_body (idx, row) st))) = durable (conn st) /\
  durable (conn (snd (loop_body (idx, row) st))) = durable (conn st).
Proof.
  intros Hin Hn Hp.
  destruct (import_row_without_region row col p st Hin Hn Hp) as [e He].
  destruct (import_row row st) as [r st1] eqn:E. simpl in He. subst r.
  assert (Ht : try_row idx row st = (Raise e, st1)).
  { unfold Importer.try_row, bind. now rewrite E. }
  destruct (loop_body_rolls_back _ _ _ idx row st e st1 Ht) as [-> Hd]. simpl.
  split; [reflexivity |]. split; [exists e; apply last_snoc |].
  split; exact Hd.
Qed.

(** *** The same row a second time *)

#[export] Instance only_reads_preorder : PreOrder only_reads.
Proof.
  split; [intros st; now repeat split |].
  intros s1 s2 s3 H1 H2. unfold only_reads in *.
  repeat split; intuition congruence.
Qed.

Lemma get_or_create_processor_none name st st1 :
  get_or_create_processor name st = (Ok None, st1) ->
  isna name || eq_empty_str name = true.
Proof.
  unfold get_or_create_processor, bind, gets, ret, on_cursor, zoom, modify, emit.
  destruct (isna name || eq_empty_str name); [reflexivity |]. simpl.
  destruct (cache_get name (processor_cache st)); simpl; [discriminate |].
  destruct (select_processor_id name (conn st)) as [[[id |] | e] c]; simpl;
    try discriminate.
  destruct (insert_processor name c) as [[id | e] c2]; simpl; discriminate.
Qed.

(** The model a row has been resolved to is what the SELECT of the row
    finds from then on. *)
Lemma resolve_model_found row cid pid sb mid sc :
  resolve_model row cid pid sb = (Ok mid, sc) ->
  exists s m,
    col_model_name row = PyStr s /\ has_nul s = false /\
    List.find (fun m => bool_decide (model_name m = s) && (model_company_id m =? cid))
      (models (pending (conn sc))) = Some m /\
    model_id m = mid.
Proof.
  unfold Importer.resolve_model, bind, on_cursor, zoom, ret, modify.
  destruct (select_model_id (col_model_name row) cid (conn sb))
    as [[[found |] | e] c1] eqn:S; simpl; [| | discriminate].
  - intros H. inversion H; subst; clear H. simpl.
    revert S. unfold select_model_id, execute.
    destruct (col_model_name row) as [| f | z | s]; simpl; try discriminate.
    destruct (has_nul s) eqn:Hnul; simpl; [discriminate |].
    destruct (List.find _ (models (pending (conn sb)))) as [m |] eqn:F; simpl;
      [| discriminate].
    intros H. inversion H; subst; clear H. simpl. now exists s, m.
  - destruct (new_model_params_state int_of_str row cid pid (set_conn c1 sb))
      as [Hs Hparams].
    destruct (new_model_params row cid pid (set_conn c1 sb)) as [[p | e] s1];
      simpl in *; subst s1; [| discriminate]. simpl.
    destruct (Hparams p eq_refl) as [Hname Hcid].
    destruct (insert_model_outcome p c1) as [_ Hi].
    destruct (insert_model p c1) as [[id | e] c2]; simpl in *; [| discriminate].
    destruct Hi as (mrow & Hp2 & Hid & Hn & Hc).
    intros H. inversion H; subst; clear H. simpl. rewrite Hp2. simpl.
    exists (model_name mrow), mrow. split; [congruence |].
    revert S. unfold select_model_id, execute. rewrite Hname in Hn. rewrite Hn. simpl.
    destruct (has_nul (model_name mrow)) eqn:Hnul; simpl; [discriminate |].
    destruct (List.find _ (models (pending (conn sb)))) as [m |] eqn:F; simpl;
      [discriminate |].
    intros H. inversion H; subst; clear H. simpl.
    split; [reflexivity |]. split; [| reflexivity].
    apply CatalogMore.find_app_none; [exact F |].
    rewrite bool_decide_eq_true_2 by reflexivity. simpl.
    apply Z.eqb_eq. congruence.
Qed.

Abbreviation settled_column :=
  (Properties.settled_column nonascii_decimal float_repr).

Lemma settled_column_later row mid st st' col :
  region_cache st' = region_cache st ->
  prices (pending (conn st)) `prefix_of` prices (pending (conn st')) ->
  settled_column row mid st col -> settled_column row mid st' col.
Proof.
  intros Hr [k Hk] [Hv Hp]. split; [exact Hv |].
  intros p Hparse. destruct (Hp p Hparse) as (rid & x & Hc & Hf).
  exists rid, x. rewrite Hr, Hk. split; [exact Hc |].
  now apply CatalogMore.find_some_app.
Qed.

Lemma import_price_settles row mid col st st1 :
  import_price row mid col st = (Ok tt, st1) ->
  settled_column row mid st1 col.
Proof.
  unfold Importer.import_price, Importer.parse_price, Properties.settled_column.
  destruct col as [name column]. simpl.
  destruct (Price.parse_price _ _ _) as [diagnostics [[p |] | e]]; simpl;
    unfold bind, emit, modify, lift, gets, ret, raise, on_cursor, zoom; simpl;
    [| | discriminate].
  - destruct (region_cache st !! name) as [rid |] eqn:Hc; simpl; [| discriminate].
    unfold select_price_id, execute. simpl.
    destruct (List.find (same_pair mid rid) (prices (pending (conn st)))) as [x |] eqn:F;
      simpl.
    + intros H. inversion H; subst; clear H. simpl.
      split; [eauto |]. intros p' _. now exists rid, x.
    + match goal with
      | |- context [insert_price mid rid p ?c] =>
          destruct (insert_price_outcome mid rid p c) as [_ Hi];
          destruct (insert_price mid rid p c) as [[[] | e] c2]
      end; simpl in *; [| discriminate].
      destruct Hi as (prow & Hp2 & Hm & Hr & _).
      intros H. inversion H; subst; clear H. simpl.
      split; [eauto |]. intros p' _.
      exists (price_region_id prow), prow. rewrite Hp2. simpl.
      split; [exact Hc |]. apply CatalogMore.find_app_none; [exact F |].
      unfold same_pair. now rewrite !Z.eqb_refl.
  - intros H. inversion H; subst; clear H. split; [eauto | discriminate].
Qed.

Lemma prices_settled row mid cols st st1 :
  for_each cols (import_price row mid) st = (Ok tt, st1) ->
  Forall (settled_column row mid st1) cols.
Proof.
  revert st. induction cols as [| c cols IH]; intros st; [constructor |].
  simpl. unfold bind.
  destruct (import_price row mid c st) as [[[] | e] s1] eqn:E; [| discriminate].
  intros H. constructor; [| eapply IH; exact H].
  apply import_price_settles in E.
  assert (Hk : keeps_regions s1 (snd (for_each cols (import_price row mid) s1))).
  { apply preserves_for_each; [apply _ |]. intros x. apply import_price_keeps_regions. }
  assert (Hn : writes_net_new s1 (snd (for_each cols (import_price row mid) s1))).
  { apply preserves_for_each; [apply _ |]. intros x. apply import_price_net_new. }
  rewrite H in Hk, Hn. simpl in Hk, Hn. destruct Hn as [_ [[] _ _]].
  eapply settled_column_later; [exact Hk | eassumption | exact E].
Qed.

Lemma import_price_reads row mid col st :
  settled_column row mid st col ->
  fst (import_price row mid col st) = Ok tt /\
  only_reads st (snd (import_price row mid col st)).
Proof.
  unfold Importer.import_price, Importer.parse_price, settled_column.
  destruct col as [name column]. simpl.
  destruct (Price.parse_price _ _ _) as [diagnostics r]. simpl.
  intros [[v ->] Hp]. unfold bind, emit, modify, lift, gets, ret, on_cursor, zoom.
  simpl. destruct v as [p |]; [| now repeat split].
  destruct (Hp p eq_refl) as (rid & x & Hc & Hf).
  cbn [region_cache set_log]. rewrite Hc. simpl. rewrite Hf. simpl.
  now repeat split.
Qed.

Lemma prices_read row mid cols st :
  Forall (settled_column row mid st) cols ->
  fst (for_each cols (import_price row mid) st) = Ok tt /\
  only_reads st (snd (for_each cols (import_price row mid) st)).
Proof.
  revert st. induction cols as [| c cols IH]; intros st H.
  - split; reflexivity.
  - apply Forall_cons in H as [Hc Hcols]. simpl. unfold bind.
    destruct (import_price_reads row mid c st Hc) as [Hok Hr].
    destruct (import_price row mid c st) as [r s1]. simpl in *. subst r.
    destruct (IH s1) as [Hok' Hr'].
    + eapply Forall_impl; [exact Hcols |]. intros col Hs.
      destruct Hr as (Hp & _ & _ & _ & _ & Hrc & _).
      eapply settled_column_later; [exact Hrc | now rewrite Hp | exact Hs].
    + split; [exact Hok' | etransitivity; eassumption].
Qed.

(** X15.  Processing again a row that has just been processed without error
    only reads: it returns normally, and the pending and the committed
    tables, the sequences, the three caches and both counters are as the
    first pass left them.  The company and the processor come from the
    caches, the model is found by its name and company, and every price of
    the row finds the pair taken. *)
Theorem import_row_twice row st st1 :
  import_row row st = (Ok tt, st1) ->
  fst (import_row row st1) = Ok tt /\
  only_reads st1 (snd (import_row row st1)).
Proof.
  unfold Importer.import_row, bind.
  destruct (get_or_create_company (col_company_name row) st) as [[cid | e] sa] eqn:E1;
    [| discriminate].
  destruct (get_or_create_processor (col_processor row) sa) as [[pid | e] sb] eqn:E2;
    [| discriminate].
  destruct (resolve_model row cid pid sb) as [[mid | e] sc] eqn:E3; [| discriminate].
  intros E4.
  assert (Hg2 : caches_grow sa sb).
  { pose proof (get_or_create_processor_caches (col_processor row) sa) as H.
    now rewrite E2 in H. }
  assert (Hg3 : caches_grow sb sc).
  { pose proof (resolve_model_caches int_of_str row cid pid sb) as H.
    now rewrite E3 in H. }
  assert (Hg4 : caches_grow sc st1).
  { assert (H : caches_grow sc (snd (for_each price_columns (import_price row mid) sc))).
    { apply preserves_for_each; [apply _ |]. intros x. apply import_price_caches. }
    now rewrite E4 in H. }
  assert (Hcompany : get_or_create_company (col_company_name row) st1 = (Ok cid, st1)).
  { apply get_or_create_company_hit. eapply cache_get_weaken.
    - transitivity (company_cache sb); [apply Hg2 |].
      transitivity (company_cache sc); [apply Hg3 | apply Hg4].
    - eapply get_or_create_company_cached; exact E1. }
  assert (Hprocessor : get_or_create_processor (col_processor row) st1 = (Ok pid, st1)).
  { destruct pid as [pid |].
    - apply get_or_create_processor_hit;
        [eapply get_or_create_processor_named; exact E2 |].
      eapply cache_get_weaken.
      + transitivity (processor_cache sc); [apply Hg3 | apply Hg4].
      + eapply get_or_create_processor_cached; exact E2.
    - apply get_or_create_processor_none in E2.
      unfold get_or_create_processor. now rewrite E2. }
  rewrite Hcompany, Hprocessor.
  destruct (resolve_model_found row cid pid sb mid sc E3)
    as (s & m & Hname & Hnul & Hf & Hid).
  assert (Hn4 : writes_net_new sc st1).
  { assert (H : writes_net_new sc (snd (for_each price_columns (import_price row mid) sc))).
    { apply preserves_for_each; [apply _ |]. intros x. apply import_price_net_new. }
    now rewrite E4 in H. }
  destruct Hn4 as [_ [[_ _ _ [k Hk] _] _ _]].
  assert (Hmodel : exists s3,
             resolve_model row cid pid st1 = (Ok mid, s3) /\ only_reads st1 s3).
  { unfold Importer.resolve_model, bind, on_cursor, zoom, ret, select_model_id, execute.
    rewrite Hname. simpl. rewrite Hnul, Hk.
    rewrite (CatalogMore.find_some_app _ _ k m Hf). simpl. rewrite Hid.
    eexists. split; [reflexivity |]. now repeat split. }
  destruct Hmodel as (s3 & -> & Hr3).
  destruct (prices_read row mid price_columns s3) as [Hok Hr4].
  - pose proof (prices_settled row mid price_columns sc st1 E4) as Hs.
    eapply Forall_impl; [exact Hs |]. intros col Hcol.
    destruct Hr3 as (Hp & _ & _ & _ & _ & Hrc & _).
    eapply settled_column_later; [exact Hrc | now rewrite Hp | exact Hcol].
  - split; [exact Hok | etransitivity; eassumption].
Qed.

(** *** The summary of a run without errors *)

Abbreviation rows_succeed :=
  (Properties.rows_succeed nonascii_decimal float_repr int_of_str).

Lemma try_row_counted idx row : preserves counted (try_row idx row).
Proof.
  unfold Importer.try_row, periodic_commit.
  apply preserves_bind; [apply _ | apply import_row_counted |].
  intros _. destruct (_ =? 0); [| apply preserves_ret; apply _].
  apply preserves_bind; [apply _ | | intros _; apply emit_counted].
  apply preserves_modify. intros st. unfold counted. simpl. lia.
Qed.

Lemma loop_counted irs st :
  rows_succeed irs st -> counted st (snd (for_each irs loop_body st)).
Proof.
  revert st. induction irs as [| [idx row] irs IH]; intros st; simpl.
  - intros _. reflexivity.
  - intros [Hok Hrest]. unfold bind.
    pose proof (try_row_counted idx row st) as Hc.
    destruct (try_row idx row st) as [r s1] eqn:E. simpl in Hok, Hrest, Hc. subst r.
    rewrite (loop_body_returns _ _ _ idx row st s1 E).
    etransitivity; [exact Hc | apply IH, Hrest].
Qed.

(** X16.  When no row of the run raises, the summary is exact: the two
    counters it reports are the numbers of rows that the run has added to
    the committed [models] and [prices] tables.  (The connection is taken
    with nothing pending, as [connect] gives it.) *)
Theorem summary_is_exact_without_errors df st :
  clean (conn st) ->
  rows_succeed (iterrows df) (at_loop df st) ->
  models_count (snd (import_data df st))
  = Z.of_nat (length (models (durable (conn (snd (import_data df st))))))
    - Z.of_nat (length (models (durable (conn st)))) /\
  prices_count (snd (import_data df st))
  = Z.of_nat (length (prices (durable (conn (snd (import_data df st))))))
    - Z.of_nat (length (prices (durable (conn st)))).
Proof.
  intros Hc Hrows.
  destruct (import_data_shape df st) as (st1 & Hloop & ->). simpl.
  pose proof (loop_counted (iterrows df) (at_loop df st) Hrows) as [Hm Hp].
  unfold at_loop, emit, modify in Hm, Hp. simpl in Hm, Hp.
  rewrite Hloop in Hm, Hp. simpl in Hm, Hp.
  destruct (load_regions_outcome
              (set_log (log st ++ [InfoImportStarted; InfoRowsLoaded (length df)]) st))
    as (_ & _ & Hpend & _).
  simpl in Hpend. rewrite Hpend, Hc in Hm, Hp. lia.
Qed.

End Run.

Lemma import_data_always_returns_witness :
  durable (conn (snd (Scenario.import [] Scenario.start)))
  = pending (conn Scenario.start).
Proof.
  apply (proj2 (proj2 (proj2 (import_data_always_returns
                  Scenario.ascii_digits_only Scenario.repr_any Scenario.int_of_digits
                  [] Scenario.start)))).
  reflexivity.
Defined.

Lemma row_without_region_is_rejected_witness :
  pending (conn (snd (Scenario.loop_body (0, Scenario.row_x1) Scenario.start)))
  = durable (conn Scenario.start).
Proof.
  apply (row_without_region_is_rejected
           Scenario.ascii_digits_only Scenario.repr_any Scenario.int_of_digits
           0 Scenario.row_x1 (of_ascii "Pakistan", col_price_pakistan)
           (S754_finite false 5497558138880000 (-39)) Scenario.start).
  - now left.
  - reflexivity.
  - vm_compute. reflexivity.
Defined.

Lemma import_row_twice_witness :
  fst (Importer.import_row Scenario.ascii_digits_only Scenario.repr_any
         Scenario.int_of_digits Scenario.row_x2
         (snd (Importer.import_row Scenario.ascii_digits_only Scenario.repr_any
                 Scenario.int_of_digits Scenario.row_x2 Scenario.ready)))
  = Ok tt.
Proof.
  apply (import_row_twice
           Scenario.ascii_digits_only Scenario.repr_any Scenario.int_of_digits
           Scenario.row_x2 Scenario.ready
           (snd (Importer.import_row Scenario.ascii_digits_only Scenario.repr_any
                   Scenario.int_of_digits Scenario.row_x2 Scenario.ready))).
  vm_compute. reflexivity.
Defined.

Lemma summary_is_exact_without_errors_witness :
  models_count (snd (Scenario.import [Scenario.row_x1; Scenario.row_x2] Scenario.start))
  = Z.of_nat (length (models (durable (conn (snd (Scenario.import
                                                   [Scenario.row_x1; Scenario.row_x2]
                                                   Scenario.start))))))
    - Z.of_nat (length (models (durable (conn Scenario.start)))).
Proof.
  apply (summary_is_exact_without_errors
           Scenario.ascii_digits_only Scenario.repr_any Scenario.int_of_digits
           [Scenario.row_x1; Scenario.row_x2] Scenario.start).
  - reflexivity.
  - vm_compute. tauto.
Defined.

End ImporterMore.
